(** * KPI dashboard: the trend / forecast / correlation core

    A shallow embedding of the numeric pipeline of the dashboard:

    - [detectTrend], [createForecast], [identifyDrivers] and
      [performAiAnalysis] of [src/services/kpiService.ts];
    - [calculateCorrelation] and the [correlation] memo of the
      [KpiCorrelation] component ([src/components/KpiTrendComparison.tsx]);
    - the [stats] memo of the [KpiDeepDive] component
      ([src/components/ReportGenerator.tsx]);
    - around them: [calculateKpis] and [generateMockKpiData] of
      [kpiService.ts], the selection of [KpiTrendComparison], the points
      of [ScatterPlot] and of the [Sparkline] of a KPI card, and the two
      calls that open the analysis of a KPI.

    The TypeScript code computes on [number].  The code is embedded once,
    over an interface [Number] of the operations it uses, and read at two
    instances:

    - [float]: IEEE 754 binary64, what a JavaScript engine computes.  This
      instance runs, and every concrete evaluation below is done with it.
    - [exact]: a real number or NaN.  Arithmetic is exact; this is the data
      model of the specification ("an ordered sequence of real numbers"),
      and the statements about least squares and Pearson correlation that
      need exact arithmetic say so and are stated for it.  The concrete
      runs next to them record where binary64 departs from them.

    What does not depend on rounding is proved for binary64 itself, from
    the specification of its operations: the bands of the trend label and
    the symmetry of the correlation.

    Strings are sequences of bytes, the UTF-8 encoding of the source text;
    one well-formed string contains another as a sequence of bytes exactly
    when it does as text.

    The definitions come first: the numbers, the code, then the vocabulary
    of the statements.  The lemmas and theorems follow. *)

From Stdlib Require Import List ZArith QArith Reals Lra Lia Bool.
From Stdlib Require Import String Ascii Permutation.
From Stdlib Require Import PrimFloat Uint63 SpecFloat FloatOps FloatAxioms.
Import ListNotations.

Set Implicit Arguments.

(** ** JavaScript numbers *)

Module Js.

(** The operations on [number] the modelled functions use.  [nan] is what
  arithmetic sees when it is handed [undefined] (a read outside an
  array); [truthy] is the test behind [a || b]; [min] and [max] are
  [Math.min] and [Math.max] on two arguments. *)
Class Number (num : Type) : Type := {
ofZ : Z -> num;
add : num -> num -> num;
sub : num -> num -> num;
mul : num -> num -> num;
div : num -> num -> num;
neg : num -> num;
sqrt : num -> num;
ltb : num -> num -> bool;
eqb : num -> num -> bool;
nan : num;
truthy : num -> bool;
min : num -> num -> num;
max : num -> num -> num
}.

Declare Scope js_scope.
Delimit Scope js_scope with js.
Infix "+" := add : js_scope.
Infix "-" := sub : js_scope.
Infix "*" := mul : js_scope.
Infix "/" := div : js_scope.
Notation "- x" := (neg x) : js_scope.
Infix "<?" := ltb : js_scope.
Notation "x >? y" := (ltb y x) : js_scope.
Infix "===" := eqb (at level 70) : js_scope.

Section Derived.
Context {num : Type} `{Number num}.

(** An array index or a length, as a number. *)
Definition ofNat (n : nat) : num := ofZ (Z.of_nat n).

(** A decimal literal of the source, [0.005] as [lit (5 # 1000)]: the
    quotient of two integers.  At binary64 the correctly rounded quotient
    of two exactly represented integers is the double nearest to the
    decimal, which is how the literal is read. *)
Definition lit (q : Q) : num := div (ofZ (Qnum q)) (ofZ (Zpos (Qden q))).

(** [a || b] on numbers. *)
Definition orElse (a b : num) : num := if truthy a then a else b.

(** [arr[i]] used as a number: [undefined] outside the array, which
    every arithmetic operation and comparison reads as NaN. *)
Definition get (arr : list num) (i : Z) : num :=
  if (i <? 0)%Z then nan else nth (Z.to_nat i) arr nan.

(** [arr.reduce((sum, val) => sum + val, 0)]. *)
Definition total (arr : list num) : num := fold_left add arr (ofZ 0).

(** [arr.reduce((a, b) => a + b)] on a non-empty array: no initial
    value, the first element starts the accumulator. *)
Definition reduceAdd (arr : list num) : num :=
  match arr with
  | [] => nan
  | a :: rest => fold_left add rest a
  end.
End Derived.

End Js.
Import Js.

(** *** binary64 *)

Module Float64.

(** The integers of the source (indices, lengths, literals): all far
    below 2^53, so each is a double. *)
Definition ofZ (z : Z) : float :=
  if (z <? 0)%Z then PrimFloat.opp (PrimFloat.of_uint63 (Uint63.of_Z (- z)))
  else PrimFloat.of_uint63 (Uint63.of_Z z).

Definition is_zero (x : float) : bool := PrimFloat.eqb x PrimFloat.zero.

Definition is_neg_zero (x : float) : bool :=
  match PrimFloat.classify x with
  | FloatClass.NZero => true
  | _ => false
  end.

Definition truthy (x : float) : bool :=
  negb (PrimFloat.is_nan x || is_zero x).

(** [Math.min]: NaN if either argument is NaN, and [-0] below [+0]. *)
Definition min (a b : float) : float :=
  if PrimFloat.is_nan a || PrimFloat.is_nan b then PrimFloat.nan
  else if PrimFloat.ltb a b then a
  else if PrimFloat.ltb b a then b
  else if is_neg_zero a then a else b.

Definition max (a b : float) : float :=
  if PrimFloat.is_nan a || PrimFloat.is_nan b then PrimFloat.nan
  else if PrimFloat.ltb a b then b
  else if PrimFloat.ltb b a then a
  else if is_neg_zero a then b else a.

End Float64.

#[export] Instance float_Number : Number float := {|
  Js.ofZ := Float64.ofZ;
  Js.add := PrimFloat.add;
  Js.sub := PrimFloat.sub;
  Js.mul := PrimFloat.mul;
  Js.div := PrimFloat.div;
  Js.neg := PrimFloat.opp;
  Js.sqrt := PrimFloat.sqrt;
  Js.ltb := PrimFloat.ltb;
  Js.eqb := PrimFloat.eqb;
  Js.nan := PrimFloat.nan;
  Js.truthy := Float64.truthy;
  Js.min := Float64.min;
  Js.max := Float64.max
|}.

(** *** Exact numbers

    A real number, or NaN ([None]).  NaN is absorbing and compares false
    with everything, as in JavaScript.  The quotient [0 / 0] is NaN.
    JavaScript gives an infinity for [x / 0] with [x <> 0]; this instance
    has no infinities and gives NaN there too, so it stands for the code
    only on runs that never divide a non-zero number by zero.  The
    functions below divide by a length, by [data[0] || 1], by the
    least-squares denominator and by a square root that was tested
    against zero. *)

Definition exact : Type := option R.

Module Exact.

Definition lift2 (f : R -> R -> R) (a b : exact) : exact :=
  match a, b with
  | Some x, Some y => Some (f x y)
  | _, _ => None
  end.

Definition div (a b : exact) : exact :=
  match a, b with
  | Some x, Some y => if Req_dec_T y 0 then None else Some (x / y)%R
  | _, _ => None
  end.

Definition neg (a : exact) : exact := option_map Ropp a.

Definition sqrt (a : exact) : exact :=
  match a with
  | Some x => if Rlt_dec x 0 then None else Some (R_sqrt.sqrt x)
  | None => None
  end.

Definition ltb (a b : exact) : bool :=
  match a, b with
  | Some x, Some y => if Rlt_dec x y then true else false
  | _, _ => false
  end.

Definition eqb (a b : exact) : bool :=
  match a, b with
  | Some x, Some y => if Req_dec_T x y then true else false
  | _, _ => false
  end.

Definition truthy (a : exact) : bool :=
  match a with
  | Some x => if Req_dec_T x 0 then false else true
  | None => false
  end.

End Exact.

#[export] Instance exact_Number : Number exact := {|
  Js.ofZ := fun z => Some (IZR z);
  Js.add := Exact.lift2 Rplus;
  Js.sub := Exact.lift2 Rminus;
  Js.mul := Exact.lift2 Rmult;
  Js.div := Exact.div;
  Js.neg := Exact.neg;
  Js.sqrt := Exact.sqrt;
  Js.ltb := Exact.ltb;
  Js.eqb := Exact.eqb;
  Js.nan := None;
  Js.truthy := Exact.truthy;
  Js.min := Exact.lift2 Rmin;
  Js.max := Exact.lift2 Rmax
|}.

(** ** [src/services/kpiService.ts] *)

Open Scope string_scope.

(** The five descriptions [detectTrend] can return, under the names the
    specification gives the labels. *)
Definition stable : string := "стабильный".
Definition moderateGrowth : string := "умеренный рост".
Definition strongGrowth : string := "уверенный рост".
Definition moderateDecline : string := "небольшое снижение".
Definition strongDecline : string := "существенное снижение".

Record TrendResult (num : Type) : Type := {
  line : list num;
  description : string
}.

Record Sums (num : Type) : Type := {
  sumX : num; sumY : num; sumXY : num; sumXX : num
}.

Section Trend.
Context {num : Type} `{Number num}.
Local Open Scope js_scope.

(** The accumulation loop of [detectTrend], one iteration. *)
Definition sumsStep (data : list num) (s : Sums num) (i : nat) : Sums num :=
  {| sumX := sumX s + ofNat i;
     sumY := sumY s + get data (Z.of_nat i);
     sumXY := sumXY s + ofNat i * get data (Z.of_nat i);
     sumXX := sumXX s + ofNat i * ofNat i |}.

Definition sums (data : list num) : Sums num :=
  fold_left (sumsStep data) (seq 0 (List.length data))
    {| sumX := ofZ 0; sumY := ofZ 0; sumXY := ofZ 0; sumXX := ofZ 0 |}.

(** The locals [slope] and [intercept] of [detectTrend]. *)
Definition slopeOf (data : list num) : num :=
  let n := ofNat (List.length data) in
  let s := sums data in
  (n * sumXY s - sumX s * sumY s) / (n * sumXX s - sumX s * sumX s).

Definition interceptOf (data : list num) : num :=
  let n := ofNat (List.length data) in
  let s := sums data in
  (sumY s - slopeOf data * sumX s) / n.

(** The chain of four [if]s that sets [description]: a later test that
    succeeds overwrites an earlier one. *)
Definition describe (slope y0 : num) : string :=
  let d := stable in
  let d := if slope >? y0 * lit (5 # 1000) then moderateGrowth else d in
  let d := if slope >? y0 * lit (15 # 1000) then strongGrowth else d in
  let d := if slope <? (- y0) * lit (5 # 1000) then moderateDecline else d in
  let d := if slope <? (- y0) * lit (15 # 1000) then strongDecline else d in
  d.

Definition detectTrend (data : list num) : TrendResult num :=
  let slope := slopeOf data in
  let intercept := interceptOf data in
  let line :=
    map (fun i => slope * ofNat i + intercept) (seq 0 (List.length data)) in
  {| line := line; description := describe slope (get data 0) |}.

End Trend.

Record ForecastResult (num : Type) : Type := {
  values : list num;
  (** The description is the fixed text "прогнозируется значение в районе "
      followed by [avgForecast.toFixed(0)]; the number is kept. *)
  avgForecast : num
}.

Section Forecast.
Context {num : Type} `{Number num}.
Local Open Scope js_scope.

(** The values [1, ..., periods] of the loop variable [i]; no value
    when [periods < 1].  The horizon is an integer. *)
Definition steps (periods : Z) : list Z :=
  map Z.of_nat (seq 1 (Z.to_nat periods)).

(** The index [n - (periods - i) - 1] of the seasonal component. *)
Definition seasonalIndex (n periods i : Z) : Z :=
  (n - (periods - i) - 1)%Z.

Definition createForecast (data trendLine : list num) (periods : Z)
  : ForecastResult num :=
  let n := Z.of_nat (List.length data) in
  let lastTrendValue := get trendLine (n - 1)%Z in
  let slope := get trendLine (n - 1)%Z - get trendLine (n - 2)%Z in
  let values :=
    map (fun i =>
           let seasonalComponent :=
             get data (seasonalIndex n periods i)
             - get trendLine (seasonalIndex n periods i) in
           lastTrendValue + slope * ofZ i + seasonalComponent)
        (steps periods) in
  let firstForecast := get values 0 in
  let lastForecast := get values (Z.of_nat (List.length values) - 1)%Z in
  {| values := values;
     avgForecast := (firstForecast + lastForecast) / ofZ 2 |}.

(** The default value of the parameter [periods]. *)
Definition defaultPeriods : Z := 7.

End Forecast.

(** *** Completions

    A call returns a value or throws.  Nothing in [detectTrend] and
    [createForecast] can throw: they contain no [throw], call no function
    that throws, and a read outside an array is [undefined], not an
    error.  [identifyDrivers] throws a [TypeError] when [kpiId] names no
    pool: [undefined.sort] and the spread of [undefined] both do. *)

Inductive JsError : Type := TypeError.

Inductive completion (A : Type) : Type :=
| Normal (a : A)
| Throw (e : JsError).
Arguments Throw {A} e.

Definition bind {A B : Type} (c : completion A) (k : A -> completion B)
  : completion B :=
  match c with
  | Normal a => k a
  | Throw e => Throw e
  end.

Notation "x <- c ;; k" := (bind c (fun x => k))
  (at level 61, c at next level, right associativity).

(** *** Driver pools *)

Definition positiveDrivers : list (string * list string) :=
  [ ("revenue", ["Новая маркетинговая кампания"; "Сезонный спрос";
                 "Увеличение среднего чека"]);
    ("sales", ["Запуск промо-акции"; "Рост трафика из соц. сетей";
               "Улучшение UX на сайте"]);
    ("new_clients", ["Успешная PR-активность"; "Реферальная программа";
                     "Снижение стоимости привлечения"]);
    ("conversion", ["Оптимизация воронки продаж";
                    "A/B тесты на странице оплаты";
                    "Улучшение скорости сайта"]) ].

Definition negativeDrivers : list (string * list string) :=
  [ ("revenue", ["Снижение рекламного бюджета";
                 "Технические проблемы на сайте"; "Активность конкурентов"]);
    ("sales", ["Неудачная акция"; "Падение органического трафика"]);
    ("new_clients", ["Негативные отзывы";
                     "Рост стоимости привлечения (CPA)"]);
    ("conversion", ["Баг в корзине"; "Сложная форма регистрации"]) ].

(** [obj[key]]: the first entry under [key], [undefined] when none. *)
Fixpoint lookup (key : string) (obj : list (string * list string))
  : option (list string) :=
  match obj with
  | [] => None
  | (k, v) :: rest => if String.eqb k key then Some v else lookup key rest
  end.

(** [s.includes(sub)]. *)
Fixpoint includes (s sub : string) : bool :=
  if String.prefix sub s then true
  else match s with
       | EmptyString => false
       | String _ rest => includes rest sub
       end.

(** *** The shuffle

    [drivers.sort(() => 0.5 - Math.random())] sorts with a comparator that
    answers at random, so the order it leaves is some permutation of the
    array, decided by the engine's algorithm and by the draws.  The draws
    are an explicit argument: [shuffle rnd l] takes the element at position
    [r mod length] out of what remains, for each draw [r] in turn (position
    0 once the draws are used up).  [shuffle_Permutation] and
    [shuffle_complete] below show that its results are the permutations of
    [l], all of them. *)

Fixpoint extract {A : Type} (k : nat) (l : list A) {struct l}
  : option (A * list A) :=
  match l with
  | [] => None
  | a :: rest =>
      match k with
      | O => Some (a, rest)
      | S k' =>
          match extract k' rest with
          | Some (b, rest') => Some (b, a :: rest')
          | None => None
          end
      end
  end.

Fixpoint shuffleN {A : Type} (fuel : nat) (rnd : list nat) (l : list A)
  : list A :=
  match fuel with
  | O => []
  | S fuel' =>
      let r := hd O rnd in
      match extract (r mod List.length l) l with
      | Some (a, rest) => a :: shuffleN fuel' (tl rnd) rest
      | None => []
      end
  end.

Definition shuffle {A : Type} (rnd : list nat) (l : list A) : list A :=
  shuffleN (List.length l) rnd l.

(** The pool [identifyDrivers] draws from, [undefined.sort] and the spread
    of [undefined] being type errors. *)
Definition driverPool (kpiId trendDescription : string)
  : completion (list string) :=
  if includes trendDescription "рост" then
    match lookup kpiId positiveDrivers with
    | Some pool => Normal pool
    | None => Throw TypeError
    end
  else if includes trendDescription "снижение" then
    match lookup kpiId negativeDrivers with
    | Some pool => Normal pool
    | None => Throw TypeError
    end
  else
    match lookup kpiId positiveDrivers, lookup kpiId negativeDrivers with
    | Some pos, Some neg => Normal (pos ++ neg)%list
    | _, _ => Throw TypeError
    end.

Definition identifyDrivers (kpiId trendDescription : string) (rnd : list nat)
  : completion (list string) :=
  drivers <- driverPool kpiId trendDescription ;;
  Normal (firstn 2 (shuffle rnd drivers)).

Record AnalysisResult (num : Type) : Type := {
  data : list num;
  trend : TrendResult num;
  forecast : ForecastResult num;
  drivers : list string
}.

(** The default value of the parameter [kpiId]. *)
Definition defaultKpiId : string := "revenue".

Definition performAiAnalysis {num : Type} `{Number num}
  (data : list num) (kpiId : string) (rnd : list nat)
  : completion (AnalysisResult num) :=
  let trend := detectTrend data in
  let forecast := createForecast data (line trend) defaultPeriods in
  drivers <- identifyDrivers kpiId (description trend) rnd ;;
  Normal {| data := data; trend := trend; forecast := forecast;
            drivers := drivers |}.

(** ** [src/components/KpiTrendComparison.tsx] *)

Record CorrSums (num : Type) : Type := {
  numerator : num; denomX : num; denomY : num
}.

(** The fields of [Kpi] the two components read. *)
Record Kpi (num : Type) : Type := {
  id : string;
  history : option (list num)
}.

Section Correlation.
Context {num : Type} `{Number num}.
Local Open Scope js_scope.

Definition corrStep (x y : list num) (meanX meanY : num)
  (s : CorrSums num) (i : nat) : CorrSums num :=
  let dx := get x (Z.of_nat i) - meanX in
  let dy := get y (Z.of_nat i) - meanY in
  {| numerator := numerator s + dx * dy;
     denomX := denomX s + dx * dx;
     denomY := denomY s + dy * dy |}.

Definition corrSums (x y : list num) : CorrSums num :=
  let n := Nat.min (List.length x) (List.length y) in
  let meanX := reduceAdd (firstn n x) / ofNat n in
  let meanY := reduceAdd (firstn n y) / ofNat n in
  fold_left (corrStep x y meanX meanY) (seq 0 n)
    {| numerator := ofZ 0; denomX := ofZ 0; denomY := ofZ 0 |}.

Definition calculateCorrelation (x y : list num) : num :=
  let n := Nat.min (List.length x) (List.length y) in
  if (n =? 0)%nat then ofZ 0
  else
    let s := corrSums x y in
    if (denomX s === ofZ 0) || (denomY s === ofZ 0) then ofZ 0
    else numerator s / sqrt (denomX s * denomY s).

(** [kpi?.history] and [kpi?.id]. *)
Definition historyOf (kpi : option (Kpi num)) : option (list num) :=
  match kpi with
  | Some k => history k
  | None => None
  end.

Definition idOf (kpi : option (Kpi num)) : option string :=
  option_map (@id num) kpi.

Definition sameId (a b : option string) : bool :=
  match a, b with
  | Some s, Some t => String.eqb s t
  | None, None => true
  | _, _ => false
  end.

(** The [correlation] memo of [KpiCorrelation]. *)
Definition correlation (kpi1 kpi2 : option (Kpi num)) : num :=
  match historyOf kpi1, historyOf kpi2 with
  | Some h1, Some h2 =>
      if sameId (idOf kpi1) (idOf kpi2) then
        (if sameId (idOf kpi1) (idOf kpi2) then ofZ 1 else ofZ 0)
      else calculateCorrelation h1 h2
  | _, _ => if sameId (idOf kpi1) (idOf kpi2) then ofZ 1 else ofZ 0
  end.

End Correlation.

(** ** [src/components/ReportGenerator.tsx] *)

Record Stats (num : Type) : Type := {
  avg : num; min : num; max : num; change : num
}.

Section Statistics.
Context {num : Type} `{Number num}.
Local Open Scope js_scope.

(** [Math.min(...data)] and [Math.max(...data)] on a non-empty array. *)
Definition minOf (data : list num) : num :=
  match data with
  | [] => nan
  | a :: rest => fold_left Js.min rest a
  end.

Definition maxOf (data : list num) : num :=
  match data with
  | [] => nan
  | a :: rest => fold_left Js.max rest a
  end.

(** The [stats] memo of [KpiDeepDive]. *)
Definition stats (selectedKpi : option (Kpi num)) : Stats num :=
  match historyOf selectedKpi with
  | None => {| avg := ofZ 0; min := ofZ 0; max := ofZ 0; change := ofZ 0 |}
  | Some data =>
      let len := List.length data in
      if (len =? 0)%nat then
        {| avg := ofZ 0; min := ofZ 0; max := ofZ 0; change := ofZ 0 |}
      else
        {| avg := total data / ofNat len;
           min := minOf data;
           max := maxOf data;
           change :=
             (if (1 <? len)%nat then
                (get data (Z.of_nat len - 1)%Z - get data 0)
                / orElse (get data 0) (ofZ 1) * ofZ 100
              else ofZ 0) |}
  end.

(** The statistics of a series, through a KPI that carries it. *)
Definition seriesStats (series : list num) : Stats num :=
  stats (Some {| id := "kpi"; history := Some series |}).

End Statistics.

(** ** More of [src/services/kpiService.ts] *)

(** *** [calculateKpis] *)

Record BaseMetrics (num : Type) : Type := {
  traffic : num;
  conversionRate : num;
  avgOrderValue : num;
  costs : num
}.

(** A scenario holds a multiplier for some of the four metrics.  A field
    is [None] when the object has no such key.  Any other key of the
    object leaves the four metrics as they are. *)
Record Scenario (num : Type) : Type := {
  trafficFactor : option num;
  conversionRateFactor : option num;
  avgOrderValueFactor : option num;
  costsFactor : option num
}.

Record KpiResult (num : Type) : Type := {
  key : string;
  name : string;
  baseValue : num;
  alternativeValue : num
}.

(** [obj[key]] on an object literal, own properties only. *)
Fixpoint ownProperty {A : Type} (key : string) (obj : list (string * A))
  : option A :=
  match obj with
  | [] => None
  | (k, v) :: rest =>
      if String.eqb k key then Some v else ownProperty key rest
  end.

(** What every object literal inherits from [Object.prototype].  Under one
    of these keys [kpiFormulas[key]] is a function or an object that is
    not a formula, and calling it gives a boolean, a string or an object,
    or throws.  [calculateKpis] is not followed through such a key: the
    embedding is [None] there. *)
Definition objectPrototypeKeys : list string :=
  ["constructor"; "hasOwnProperty"; "isPrototypeOf"; "propertyIsEnumerable";
   "toLocaleString"; "toString"; "valueOf"; "__proto__";
   "__defineGetter__"; "__defineSetter__"; "__lookupGetter__";
   "__lookupSetter__"].

Definition inherited (key : string) : bool :=
  existsb (String.eqb key) objectPrototypeKeys.

Definition kpiNames : list (string * string) :=
  [ ("revenue", "Выручка");
    ("salesCount", "Кол-во продаж");
    ("profit", "Прибыль");
    ("roi", "ROI");
    ("cpa", "CPA (Стоимость привлечения)") ].

Section Kpis.
Context {num : Type} `{Number num}.
Local Open Scope js_scope.

Definition revenueFormula (m : BaseMetrics num) : num :=
  traffic m * conversionRate m * avgOrderValue m.

Definition salesCountFormula (m : BaseMetrics num) : num :=
  traffic m * conversionRate m.

Definition profitFormula (m : BaseMetrics num) : num :=
  revenueFormula m - costs m.

Definition roiFormula (m : BaseMetrics num) : num :=
  if costs m === ofZ 0 then ofZ 0 else profitFormula m / costs m.

Definition cpaFormula (m : BaseMetrics num) : num :=
  let sales := salesCountFormula m in
  if sales === ofZ 0 then ofZ 0 else costs m / sales.

Definition kpiFormulas : list (string * (BaseMetrics num -> num)) :=
  [ ("revenue", revenueFormula);
    ("salesCount", salesCountFormula);
    ("profit", profitFormula);
    ("roi", roiFormula);
    ("cpa", cpaFormula) ].

(** [metric *= scenario[key]] when the scenario has the key. *)
Definition applyFactor (metric : num) (factor : option num) : num :=
  match factor with
  | Some f => metric * f
  | None => metric
  end.

Definition alternativeMetrics (baseMetrics : BaseMetrics num)
  (scenario : Scenario num) : BaseMetrics num :=
  {| traffic := applyFactor (traffic baseMetrics) (trafficFactor scenario);
     conversionRate :=
       applyFactor (conversionRate baseMetrics)
                   (conversionRateFactor scenario);
     avgOrderValue :=
       applyFactor (avgOrderValue baseMetrics) (avgOrderValueFactor scenario);
     costs := applyFactor (costs baseMetrics) (costsFactor scenario) |}.

(** [kpiNames[key] || key]: the empty string is falsy. *)
Definition nameOf (key : string) : string :=
  match ownProperty key kpiNames with
  | Some n => if String.eqb n "" then key else n
  | None => key
  end.

(** The callback of [kpiKeys.map]. *)
Definition kpiResult (baseMetrics alternative : BaseMetrics num)
  (key : string) : option (KpiResult num) :=
  if inherited key then None
  else
    match ownProperty key kpiFormulas with
    | None =>
        Some {| key := key; name := nameOf key;
                baseValue := ofZ 0; alternativeValue := ofZ 0 |}
    | Some formula =>
        Some {| key := key; name := nameOf key;
                baseValue := formula baseMetrics;
                alternativeValue := formula alternative |}
    end.

Fixpoint mapOption {A B : Type} (f : A -> option B) (l : list A)
  : option (list B) :=
  match l with
  | [] => Some []
  | a :: rest =>
      match f a, mapOption f rest with
      | Some b, Some bs => Some (b :: bs)
      | _, _ => None
      end
  end.

Definition calculateKpis (baseMetrics : BaseMetrics num)
  (scenario : Scenario num) (kpiKeys : list string)
  : option (list (KpiResult num)) :=
  let alternative := alternativeMetrics baseMetrics scenario in
  mapOption (kpiResult baseMetrics alternative) kpiKeys.

End Kpis.

(** *** [generateMockKpiData] *)

(** [Math.sin] and [Math.PI].  There is no binary64 instance: the kernel
    has no sine. *)
Class Trig (num : Type) : Type := {
  sin : num -> num;
  pi : num
}.

#[export] Instance exact_Trig : Trig exact := {|
  sin := option_map Rtrigo_def.sin;
  pi := Some PI
|}.

Section MockData.
Context {num : Type} `{Number num} `{Trig num}.
Local Open Scope js_scope.

(** [baseValue] and [trend] after the [switch]. *)
Definition mockBaseValue (kpiId : string) : num :=
  if String.eqb kpiId "revenue" then ofZ 50000
  else if String.eqb kpiId "sales" then ofZ 800
  else if String.eqb kpiId "new_clients" then ofZ 150
  else if String.eqb kpiId "conversion" then lit (45 # 10)
  else ofZ 1000.

Definition mockTrend (kpiId : string) : num :=
  if String.eqb kpiId "revenue" then ofZ 250
  else if String.eqb kpiId "sales" then ofZ 10
  else if String.eqb kpiId "new_clients" then - lit (5 # 10)
  else if String.eqb kpiId "conversion" then lit (5 # 1000)
  else lit (5 # 10).

(** [Math.sin((i % 7) * (Math.PI / 3.5))]. *)
Definition weekly (i : nat) : num :=
  sin (ofNat (i mod 7) * (pi / lit (35 # 10))).

(** One value of the series.  [random i] is the result of the call of
    [Math.random()] made for index [i]; each index makes one call. *)
Definition mockValue (random : nat -> num) (kpiId : string) (i : nat) : num :=
  let baseValue := mockBaseValue kpiId in
  let trend := mockTrend kpiId in
  if String.eqb kpiId "conversion" then
    let seasonal := weekly i * lit (2 # 10) in
    let noise := (random i - lit (5 # 10)) * lit (1 # 10) in
    Js.max (lit (20 # 10)) (baseValue + ofNat i * trend + seasonal + noise)
  else
    let seasonal := weekly i * (baseValue * lit (1 # 10)) in
    let noise := (random i - lit (5 # 10)) * (baseValue * lit (5 # 100)) in
    let value := baseValue + ofNat i * trend + seasonal + noise in
    Js.max (ofZ 0) value.

(** [days] is an integer; a negative one gives no value, as the loop and
    [Array.from({length: days})] both do. *)
Definition generateMockKpiData (random : nat -> num) (kpiId : string)
  (days : Z) : list num :=
  map (mockValue random kpiId) (seq 0 (Z.to_nat days)).

(** The default value of the parameter [days]. *)
Definition defaultDays : Z := 90.

(** The two calls of [handleOpenAnalysisModal] that build the analysis of
    a KPI: [generateMockKpiData(kpi.id, kpi.history?.length || 90)] and
    [performAiAnalysis(mockData, kpi.id)]. *)
Definition historyLength (kpi : Kpi num) : Z :=
  match history kpi with
  | Some h => if (List.length h =? 0)%nat then 90%Z
              else Z.of_nat (List.length h)
  | None => 90%Z
  end.

Definition openAnalysis (random : nat -> num) (rnd : list nat) (kpi : Kpi num)
  : completion (AnalysisResult num) :=
  let mockData := generateMockKpiData random (id kpi) (historyLength kpi) in
  performAiAnalysis mockData (id kpi) rnd.

End MockData.

(** ** More of [src/components/KpiTrendComparison.tsx] *)

Definition MAX_SELECTED_KPIS : nat := 4.

(** The state update of [handleSelectionChange]. *)
Definition handleSelectionChange (prev : list string) (kpiId : string)
  : list string :=
  if existsb (String.eqb kpiId) prev then
    filter (fun id => negb (String.eqb id kpiId)) prev
  else if (List.length prev <? MAX_SELECTED_KPIS)%nat then
    (prev ++ [kpiId])%list
  else prev.

(** ** [src/components/ScatterPlot.tsx] *)

Record Point (num : Type) : Type := { px : num; py : num }.

Section Plots.
Context {num : Type} `{Number num}.
Local Open Scope js_scope.

Definition PADDING_top : num := ofZ 20.
Definition PADDING_right : num := ofZ 20.
Definition PADDING_bottom : num := ofZ 50.
Definition PADDING_left : num := ofZ 60.
Definition WIDTH : num := ofZ 500.
Definition HEIGHT : num := ofZ 320.

Definition chartWidth : num := WIDTH - PADDING_left - PADDING_right.
Definition chartHeight : num := HEIGHT - PADDING_top - PADDING_bottom.

(** The [points] of the [useMemo] of [ScatterPlot].  With an empty series
    there is no point, whatever the extrema are. *)
Definition scatterPoints (data1 data2 : list num) : list (Point num) :=
  let n := Nat.min (List.length data1) (List.length data2) in
  let xMin := minOf data1 * lit (95 # 100) in
  let xMax := maxOf data1 * lit (105 # 100) in
  let yMin := minOf data2 * lit (95 # 100) in
  let yMax := maxOf data2 * lit (105 # 100) in
  map (fun i =>
         let x := PADDING_left
                  + ((get data1 (Z.of_nat i) - xMin) / (xMax - xMin))
                    * chartWidth in
         let y := PADDING_top + chartHeight
                  - ((get data2 (Z.of_nat i) - yMin) / (yMax - yMin))
                    * chartHeight in
         {| px := x; py := y |})
      (seq 0 n).

(** ** The [Sparkline] of [src/components/ReportGenerator.tsx] *)

(** The coordinates of the polyline, [None] when the component draws the
    empty box instead: fewer than two values. *)
Definition sparkline (data : list num) : option (list (Point num)) :=
  if (List.length data <? 2)%nat then None
  else
    let maxVal := maxOf data in
    let minVal := minOf data in
    let range := maxVal - minVal in
    let normalizedData :=
      if range >? ofZ 0 then
        map (fun d => ofZ 40 - ((d - minVal) / range) * ofZ 35) data
      else map (fun _ => ofZ 20) data in
    Some (map (fun id =>
                 {| px := (ofNat (fst id) / ofNat (List.length data - 1))
                          * ofZ 100;
                    py := snd id |})
              (combine (seq 0 (List.length data)) normalizedData)).

End Plots.

(** * The vocabulary of the statements *)

(** The categories with a pool of drivers. *)
Definition registered : list string :=
  ["revenue"; "sales"; "new_clients"; "conversion"].

(** How strong a description is: 2 for the two strong labels, 1 for the
    two moderate ones, 0 for anything else. *)
Definition strength (d : string) : nat :=
  if String.eqb d strongGrowth || String.eqb d strongDecline then 2
  else if String.eqb d moderateGrowth || String.eqb d moderateDecline then 1
  else 0.

(** Thirty copies of 100. *)
Definition flat30 : list float := repeat 100%float 30.

(** A KPI that carries a series. *)
Definition kpiOf (name : string) (series : list float) : Kpi float :=
  {| id := name; history := Some series |}.

(** ** binary64, by its specification *)

(** The sign bit of a double, read off its specification; NaN has none. *)
Definition signOf (f : spec_float) : option bool :=
  match f with
  | S754_nan => None
  | S754_zero s | S754_infinity s | S754_finite s _ _ => Some s
  end.

(** ** Exact arithmetic *)

(** [sumTo f n] is the sum of [f 0], ..., [f (n - 1)]. *)
Fixpoint sumTo (f : nat -> R) (n : nat) : R :=
  match n with
  | O => 0
  | S k => sumTo f k + f k
  end.

(** A series of real numbers, as the exact instance reads it. *)
Definition reals (ys : list R) : list exact := map Some ys.

(** The element [y_i] of a series. *)
Definition at_ (ys : list R) (i : nat) : R := nth i ys 0%R.

(** The four sums of the regression. *)
Definition SumI (n : nat) : R := sumTo INR n.
Definition SumII (n : nat) : R := sumTo (fun i => INR i * INR i)%R n.
Definition SumY (ys : list R) : R := sumTo (at_ ys) (List.length ys).
Definition SumIY (ys : list R) : R :=
  sumTo (fun i => INR i * at_ ys i)%R (List.length ys).

(** The least-squares slope and intercept, as the specification writes
    them. *)
Definition olsSlope (ys : list R) : R :=
  let n := INR (List.length ys) in
  ((n * SumIY ys - SumI (List.length ys) * SumY ys)
   / (n * SumII (List.length ys)
      - SumI (List.length ys) * SumI (List.length ys)))%R.

Definition olsIntercept (ys : list R) : R :=
  ((SumY ys - olsSlope ys * SumI (List.length ys)) / INR (List.length ys))%R.

(** The series [a + b * i] for [i < n]. *)
Definition linearSeries (a b : R) (n : nat) : list R :=
  map (fun i => a + b * INR i)%R (seq 0 n).

(** The mean of the first [n] values, and the three sums of Pearson's
    formula over the first [n] values, as the specification writes them. *)
Definition meanR (xs : list R) (n : nat) : R :=
  (sumTo (at_ xs) n / INR n)%R.

Definition covSum (xs ys : list R) (n : nat) : R :=
  sumTo (fun i => (at_ xs i - meanR xs n) * (at_ ys i - meanR ys n))%R n.

Definition sqDev (xs : list R) (n : nat) : R :=
  sumTo (fun i => (at_ xs i - meanR xs n) * (at_ xs i - meanR xs n))%R n.

(** Pearson's coefficient with its two guards, on real numbers. *)
Definition pearson (xs ys : list R) : R :=
  let n := Nat.min (List.length xs) (List.length ys) in
  if (n =? 0)%nat then 0%R
  else if Req_dec_T (sqDev xs n) 0 then 0%R
  else if Req_dec_T (sqDev ys n) 0 then 0%R
  else (covSum xs ys n / R_sqrt.sqrt (sqDev xs n * sqDev ys n))%R.

(** ** The KPI calculator *)

(** The keys with a formula. *)
Definition knownKpis : list string :=
  ["revenue"; "salesCount"; "profit"; "roi"; "cpa"].

(** Metrics that are real numbers, and a scenario whose multipliers are. *)
Definition realMetrics (t c a k : R) : BaseMetrics exact :=
  {| traffic := Some t; conversionRate := Some c;
     avgOrderValue := Some a; costs := Some k |}.

Definition realScenario (ft fc fa fk : option R) : Scenario exact :=
  {| trafficFactor := option_map Some ft;
     conversionRateFactor := option_map Some fc;
     avgOrderValueFactor := option_map Some fa;
     costsFactor := option_map Some fk |}.

(** The multiplier a scenario applies: 1 when it has no key. *)
Definition factorR (f : option R) : R :=
  match f with
  | Some x => x
  | None => 1%R
  end.

(** The scenario with no key. *)
Definition emptyScenario (num : Type) : Scenario num :=
  {| trafficFactor := None; conversionRateFactor := None;
     avgOrderValueFactor := None; costsFactor := None |}.

(** An entry whose two values are real numbers. *)
Definition realEntry (r : KpiResult exact) : Prop :=
  exists b a : R, baseValue r = Some b /\ alternativeValue r = Some a.

(** Return on investment and cost per acquisition on real numbers, each
    with its guard. *)
Definition roiR (t c a k : R) : R :=
  if Req_dec_T k 0 then 0%R else ((t * c * a - k) / k)%R.

Definition cpaR (t c k : R) : R :=
  if Req_dec_T (t * c) 0 then 0%R else (k / (t * c))%R.

(** ** The forecast on real numbers *)

(** Step [k] of the forecast of a series [ds] with trend line [ls], when
    the index of the residual is inside the series. *)
Definition forecastR (ds ls : list R) (h k : Z) : R :=
  let n := Z.of_nat (List.length ds) in
  let idx := Z.to_nat (n - h + k - 1) in
  (at_ ls (Z.to_nat (n - 1))
   + (at_ ls (Z.to_nat (n - 1)) - at_ ls (Z.to_nat (n - 2))) * IZR k
   + (at_ ds idx - at_ ls idx))%R.

(** A list of numbers none of which is NaN. *)
Definition allReal (l : list exact) : Prop := exists rs : list R, l = reals rs.

(** Draws of [Math.random()] that are real numbers. *)
Definition realDraws (random : nat -> exact) : Prop :=
  forall i, exists u : R, random i = Some u.

(** The fitted line of a series of real numbers. *)
Definition fitted (ds : list R) : list R :=
  map (fun i => olsSlope ds * INR i + olsIntercept ds)%R
      (seq 0 (List.length ds)).

(** The sum of the squared residuals of a series against the line
    [s * i + c]. *)
Definition sse (ys : list R) (s c : R) : R :=
  sumTo (fun i => (at_ ys i - (s * INR i + c)) * (at_ ys i - (s * INR i + c)))%R
        (List.length ys).

(** The least and the greatest value of a non-empty series of real
    numbers, folded from the left as the code folds them. *)
Definition minR (xs : list R) : R := fold_left Rmin (tl xs) (hd 0%R xs).
Definition maxR (xs : list R) : R := fold_left Rmax (tl xs) (hd 0%R xs).

(** A KPI that carries a series of real numbers. *)
Definition realKpi (name0 : string) (xs : list R) : Kpi exact :=
  {| id := name0; history := Some (reals xs) |}.

(** A point whose coordinates are real numbers. *)
Definition realPoint (p : R * R) : Point exact :=
  {| px := Some (fst p); py := Some (snd p) |}.

(** The heights of the sparkline of a series of real numbers: scaled into
    the box when the series varies, the middle line when it is flat. *)
Definition sparkHeights (xs : list R) : list R :=
  if Rlt_dec 0 (maxR xs - minR xs)
  then map (fun d => 40 - (d - minR xs) / (maxR xs - minR xs) * 35)%R xs
  else map (fun _ => 20%R) xs.

(** The abscissas of the sparkline of [n] values. *)
Definition sparkAbscissas (n : nat) : list R :=
  map (fun i => INR i / INR (n - 1) * 100)%R (seq 0 n).

(** The position of a value on an axis of the scatter plot: its share of
    the way from 0.95 times the least value of its series to 1.05 times
    the greatest. *)
Definition axisShare (xs : list R) (x : R) : R :=
  ((x - minR xs * (95 / 100))
   / (maxR xs * (105 / 100) - minR xs * (95 / 100)))%R.

(** * Evaluation at binary64 *)

Section Binary64.
Local Open Scope float_scope.
#[local] Set Warnings "-inexact-float".

Example lit_0005 : lit (5 # 1000) = 0.005.
Proof. reflexivity. Qed.

Example lit_0015 : lit (15 # 1000) = 0.015.
Proof. reflexivity. Qed.

Example trend_weekly :
  detectTrend [100; 110; 105; 120; 115; 130; 125]
  = {| line := [101.60714285714286; 106.07142857142857;
                110.53571428571429; 115; 119.46428571428572;
                123.92857142857143; 128.39285714285714];
       description := strongGrowth |}.
Proof. vm_compute. reflexivity. Qed.

Example correlation_degenerate : calculateCorrelation [5; 5; 5] [1; 2; 3] = 0.
Proof. vm_compute. reflexivity. Qed.

Example correlation_self : calculateCorrelation [1; 2; 4] [1; 2; 4] = 1.
Proof. vm_compute. reflexivity. Qed.

Example drivers_unknown_category :
  identifyDrivers "Финансы" strongGrowth [] = Throw TypeError.
Proof. vm_compute. reflexivity. Qed.

(** The two growth labels contain "рост", the two decline labels contain
    "снижение" and not "рост", the stable label contains neither. *)
Example labels_direction :
  map (fun d => (includes d "рост", includes d "снижение"))
      [strongGrowth; moderateGrowth; strongDecline; moderateDecline; stable]
  = [(true, false); (true, false); (false, true); (false, true);
     (false, false)].
Proof. vm_compute. reflexivity. Qed.

(** X2.  Rounding.  What the exact instance proves of [calculateCorrelation]
    and of the fitted line holds at binary64 up to rounding, and up to
    overflow: the correlation of [0, 0, 5] and [0, 0, 15] is one unit in
    the last place above 1, the correlation of [1e200, 0] with itself is
    NaN, and the line fitted to [0.1, 0.2, 0.4] adds up to a neighbour of
    what the series adds up to. *)
Theorem binary64_rounding :
  calculateCorrelation [0; 0; 5] [0; 0; 15] = 1.0000000000000002
  /\ PrimFloat.ltb 1 (calculateCorrelation [0; 0; 5] [0; 0; 15]) = true
  /\ calculateCorrelation [1e200; 0] [1e200; 0] = PrimFloat.nan
  /\ total (line (detectTrend [0.1; 0.2; 0.4])) = 0.70000000000000018
  /\ total [0.1; 0.2; 0.4] = 0.70000000000000007.
Proof. repeat split; vm_compute; reflexivity. Qed.

End Binary64.

(** * Least squares in exact arithmetic *)

Section ExactLemmas.
Local Open Scope R_scope.

Lemma ofNat_exact (i : nat) : ofNat i = Some (INR i) :> exact.
Proof. unfold ofNat; cbn. now rewrite INR_IZR_INZ. Qed.

Lemma get_reals (ys : list R) (i : nat) :
  (i < List.length ys)%nat -> get (reals ys) (Z.of_nat i) = Some (at_ ys i).
Proof.
  intros Hi. unfold get, reals, at_.
  destruct (Z.of_nat i <? 0)%Z eqn:E; [apply Z.ltb_lt in E; lia|].
  rewrite Nat2Z.id.
  rewrite nth_indep with (d' := Some 0); [| now rewrite length_map].
  now rewrite (map_nth Some ys 0 i).
Qed.

Lemma sumTo_ext (f g : nat -> R) (n : nat) :
  (forall i, (i < n)%nat -> f i = g i) -> sumTo f n = sumTo g n.
Proof.
  induction n as [|n IH]; intros E; [reflexivity|].
  simpl. rewrite IH by (intros; apply E; lia). now rewrite E by lia.
Qed.

Lemma sumTo_plus (f g : nat -> R) (n : nat) :
  sumTo (fun i => f i + g i) n = sumTo f n + sumTo g n.
Proof. induction n as [|n IH]; simpl; [lra | rewrite IH; lra]. Qed.

Lemma sumTo_scale (c : R) (f : nat -> R) (n : nat) :
  sumTo (fun i => c * f i) n = c * sumTo f n.
Proof. induction n as [|n IH]; simpl; [lra | rewrite IH; lra]. Qed.

Lemma sumTo_const (c : R) (n : nat) : sumTo (fun _ => c) n = INR n * c.
Proof.
  induction n as [|n IH]; [simpl; lra|].
  cbn [sumTo]. rewrite IH, S_INR. lra.
Qed.

(** The loop of [detectTrend] after [k] iterations. *)
Lemma sums_prefix (ys : list R) (k : nat) :
  (k <= List.length ys)%nat ->
  fold_left (sumsStep (reals ys)) (seq 0 k)
    {| sumX := ofZ 0; sumY := ofZ 0; sumXY := ofZ 0; sumXX := ofZ 0 |}
  = {| sumX := Some (sumTo INR k);
       sumY := Some (sumTo (at_ ys) k);
       sumXY := Some (sumTo (fun i => INR i * at_ ys i) k);
       sumXX := Some (sumTo (fun i => INR i * INR i) k) |}.
Proof.
  induction k as [|k IH]; intros Hk; [reflexivity|].
  rewrite seq_S, fold_left_app, IH by lia.
  cbn [fold_left Nat.add]. unfold sumsStep. cbn [sumX sumY sumXY sumXX].
  rewrite get_reals by lia. rewrite ofNat_exact. reflexivity.
Qed.

Lemma sums_reals (ys : list R) :
  sums (reals ys)
  = {| sumX := Some (SumI (List.length ys));
       sumY := Some (SumY ys);
       sumXY := Some (SumIY ys);
       sumXX := Some (SumII (List.length ys)) |}.
Proof.
  unfold sums. replace (List.length (reals ys)) with (List.length ys)
    by (unfold reals; now rewrite length_map).
  now rewrite sums_prefix.
Qed.

(** Closed forms of the sums over the indices. *)
Lemma SumI_closed (n : nat) : 2 * SumI n = INR n * (INR n - 1).
Proof.
  unfold SumI. induction n as [|n IH]; [simpl; lra|].
  cbn [sumTo]. rewrite S_INR. lra.
Qed.

Lemma SumII_closed (n : nat) :
  6 * SumII n = (INR n - 1) * INR n * (2 * INR n - 1).
Proof.
  unfold SumII. induction n as [|n IH]; [simpl; lra|].
  cbn [sumTo]. rewrite S_INR. lra.
Qed.

(** The denominator of the slope is positive from two points on. *)
Lemma denominator_closed (n : nat) :
  12 * (INR n * SumII n - SumI n * SumI n)
  = INR n * INR n * (INR n - 1) * (INR n + 1).
Proof.
  pose proof (SumI_closed n) as H1. pose proof (SumII_closed n) as H2.
  replace (SumI n) with (INR n * (INR n - 1) / 2) by lra.
  replace (SumII n) with ((INR n - 1) * INR n * (2 * INR n - 1) / 6) by lra.
  field.
Qed.

Lemma denominator_pos (n : nat) :
  (2 <= n)%nat -> 0 < INR n * SumII n - SumI n * SumI n.
Proof.
  intros Hn. pose proof (denominator_closed n) as H.
  assert (2 <= INR n) by (apply le_INR in Hn; simpl in Hn; lra).
  assert (0 < INR n * INR n * (INR n - 1) * (INR n + 1)).
  { repeat apply Rmult_lt_0_compat; lra. }
  lra.
Qed.

End ExactLemmas.

Section TrendExact.
Local Open Scope R_scope.

Lemma length_reals (ys : list R) : List.length (reals ys) = List.length ys.
Proof. unfold reals. apply length_map. Qed.

Lemma div_exact (a b : R) :
  b <> 0 -> Js.div (Some a) (Some b) = Some (a / b) :> exact.
Proof. intros Hb. cbn. destruct (Req_dec_T b 0); [contradiction | reflexivity]. Qed.

Lemma slopeOf_reals (ys : list R) :
  (2 <= List.length ys)%nat -> slopeOf (reals ys) = Some (olsSlope ys).
Proof.
  intros Hn. unfold slopeOf. rewrite sums_reals, length_reals, ofNat_exact.
  cbn [sumX sumY sumXY sumXX]. pose proof (denominator_pos Hn) as Hd.
  change (Js.div (Some (INR (List.length ys) * SumIY ys
                        - SumI (List.length ys) * SumY ys))
                 (Some (INR (List.length ys) * SumII (List.length ys)
                        - SumI (List.length ys) * SumI (List.length ys)))
          = Some (olsSlope ys)).
  rewrite div_exact by lra. reflexivity.
Qed.

Lemma interceptOf_reals (ys : list R) :
  (2 <= List.length ys)%nat -> interceptOf (reals ys) = Some (olsIntercept ys).
Proof.
  intros Hn. unfold interceptOf.
  rewrite slopeOf_reals, sums_reals, length_reals, ofNat_exact by assumption.
  cbn [sumX sumY sumXY sumXX].
  assert (2 <= INR (List.length ys)) by (apply le_INR in Hn; simpl in Hn; lra).
  change (Js.div (Some (SumY ys - olsSlope ys * SumI (List.length ys)))
                 (Some (INR (List.length ys)))
          = Some (olsIntercept ys)).
  rewrite div_exact by lra. reflexivity.
Qed.

Lemma line_reals (ys : list R) :
  (2 <= List.length ys)%nat ->
  line (detectTrend (reals ys))
  = map (fun i => Some (olsSlope ys * INR i + olsIntercept ys))
        (seq 0 (List.length ys)).
Proof.
  intros Hn. unfold detectTrend. cbn [line].
  rewrite slopeOf_reals, interceptOf_reals, length_reals by assumption.
  apply map_ext. intros i. now rewrite ofNat_exact.
Qed.

(** *** An exactly linear series *)

Lemma length_linearSeries (a b : R) (n : nat) :
  List.length (linearSeries a b n) = n.
Proof. unfold linearSeries. now rewrite length_map, length_seq. Qed.

Lemma at_linearSeries (a b : R) (n i : nat) :
  (i < n)%nat -> at_ (linearSeries a b n) i = a + b * INR i.
Proof.
  intros Hi. unfold at_, linearSeries.
  set (f := fun i => a + b * INR i).
  rewrite nth_indep with (d' := f O)
    by now rewrite length_map, length_seq.
  rewrite map_nth, seq_nth by assumption. reflexivity.
Qed.

Lemma SumY_linear (a b : R) (n : nat) :
  SumY (linearSeries a b n) = INR n * a + b * SumI n.
Proof.
  unfold SumY, SumI. rewrite length_linearSeries.
  rewrite (sumTo_ext (at_ (linearSeries a b n)) (fun i => a + b * INR i))
    by (intros; now apply at_linearSeries).
  rewrite (sumTo_plus (fun _ => a) (fun i => b * INR i)).
  now rewrite sumTo_const, sumTo_scale.
Qed.

Lemma SumIY_linear (a b : R) (n : nat) :
  SumIY (linearSeries a b n) = a * SumI n + b * SumII n.
Proof.
  unfold SumIY, SumI, SumII. rewrite length_linearSeries.
  rewrite (sumTo_ext (fun i => INR i * at_ (linearSeries a b n) i)
             (fun i => a * INR i + b * (INR i * INR i))).
  - rewrite (sumTo_plus (fun i => a * INR i) (fun i => b * (INR i * INR i))).
    now rewrite !sumTo_scale.
  - intros i Hi. rewrite at_linearSeries by assumption. ring.
Qed.

Lemma olsSlope_linear (a b : R) (n : nat) :
  (2 <= n)%nat -> olsSlope (linearSeries a b n) = b.
Proof.
  intros Hn. unfold olsSlope.
  rewrite SumIY_linear, SumY_linear, length_linearSeries.
  pose proof (denominator_pos Hn). field. lra.
Qed.

Lemma olsIntercept_linear (a b : R) (n : nat) :
  (2 <= n)%nat -> olsIntercept (linearSeries a b n) = a.
Proof.
  intros Hn. unfold olsIntercept.
  rewrite olsSlope_linear, SumY_linear, length_linearSeries by assumption.
  assert (2 <= INR n) by (apply le_INR in Hn; simpl in Hn; lra).
  field. lra.
Qed.

End TrendExact.

(** C1.  For a series of at least two real numbers, [detectTrend] computes
    the ordinary least-squares fit: its slope and intercept are the
    quotients the specification writes, and entry [i] of the line is
    [slope * i + intercept].  Hence, on an exactly linear series
    [a + b * i] the slope is [b] and the line is the series itself.  Exact
    arithmetic: no result is NaN. *)
Theorem detectTrend_least_squares (ys : list R) :
  (2 <= List.length ys)%nat ->
  slopeOf (reals ys) = Some (olsSlope ys)
  /\ interceptOf (reals ys) = Some (olsIntercept ys)
  /\ line (detectTrend (reals ys))
     = map (fun i => Some (olsSlope ys * INR i + olsIntercept ys)%R)
           (seq 0 (List.length ys))
  /\ (forall a b : R,
        ys = linearSeries a b (List.length ys) ->
        slopeOf (reals ys) = Some b
        /\ line (detectTrend (reals ys)) = reals ys).
Proof.
  intros Hn. split; [now apply slopeOf_reals|].
  split; [now apply interceptOf_reals|].
  split; [now apply line_reals|].
  intros a b E. remember (List.length ys) as n eqn:En. subst ys.
  split.
  - rewrite slopeOf_reals by now rewrite length_linearSeries.
    f_equal. now apply olsSlope_linear.
  - rewrite line_reals by now rewrite length_linearSeries.
    rewrite length_linearSeries.
    rewrite olsSlope_linear, olsIntercept_linear by assumption.
    unfold reals, linearSeries. rewrite map_map.
    apply map_ext. intros i. f_equal. ring.
Qed.

Lemma detectTrend_least_squares_witness :
  slopeOf (reals (linearSeries 1 2 3)) = Some 2%R
  /\ line (detectTrend (reals (linearSeries 1 2 3)))
     = reals (linearSeries 1 2 3).
Proof.
  assert (Hn : (2 <= List.length (linearSeries 1 2 3))%nat) by (simpl; lia).
  destruct (detectTrend_least_squares (linearSeries 1 2 3) Hn)
    as (_ & _ & _ & Hlinear).
  apply (Hlinear 1%R 2%R). reflexivity.
Defined.

Section TotalExact.
Local Open Scope R_scope.

Lemma reals_by_index (ys : list R) :
  reals ys = map (fun i => Some (at_ ys i)) (seq 0 (List.length ys)).
Proof.
  apply nth_ext with (d := None) (d' := None).
  - now rewrite length_reals, length_map, length_seq.
  - intros i Hi. rewrite length_reals in Hi.
    set (f := fun i => Some (at_ ys i)).
    rewrite nth_indep with (d' := Some 0) by now rewrite length_reals.
    rewrite nth_indep with (l := map f _) (d' := f O)
      by now rewrite length_map, length_seq.
    rewrite map_nth, seq_nth by assumption.
    unfold reals. now rewrite (map_nth Some ys 0 i).
Qed.

Lemma total_by_index (f : nat -> R) (n : nat) :
  total (map (fun i => Some (f i)) (seq 0 n)) = Some (sumTo f n) :> exact.
Proof.
  unfold total. induction n as [|n IH]; [reflexivity|].
  rewrite seq_S, map_app, fold_left_app, IH. reflexivity.
Qed.

Lemma total_reals (ys : list R) : total (reals ys) = Some (SumY ys).
Proof. rewrite reals_by_index. apply total_by_index. Qed.

Lemma sum_of_line (s c : R) (n : nat) :
  sumTo (fun i => s * INR i + c) n = s * SumI n + INR n * c.
Proof.
  rewrite (sumTo_plus (fun i => s * INR i) (fun _ => c)).
  now rewrite sumTo_scale, sumTo_const.
Qed.

End TotalExact.

(** C10.  In exact arithmetic, for a series of at least two real numbers
    the fitted line keeps the total of the series: the entries of [line]
    add up to what the entries of the series add up to (so the two have
    the same mean). *)
Theorem detectTrend_line_total (ys : list R) :
  (2 <= List.length ys)%nat ->
  total (line (detectTrend (reals ys))) = Some (SumY ys)
  /\ total (line (detectTrend (reals ys))) = total (reals ys)
  /\ List.length (line (detectTrend (reals ys))) = List.length (reals ys).
Proof.
  intros Hn.
  assert (E : total (line (detectTrend (reals ys))) = Some (SumY ys)).
  { rewrite line_reals by assumption.
    rewrite (total_by_index
               (fun i => olsSlope ys * INR i + olsIntercept ys)%R).
    f_equal. rewrite sum_of_line. unfold olsIntercept.
    assert (2 <= INR (List.length ys))%R
      by (apply le_INR in Hn; simpl in Hn; lra).
    field. lra. }
  split; [exact E|]. split.
  - now rewrite total_reals.
  - rewrite line_reals by assumption.
    now rewrite length_map, length_seq, length_reals.
Qed.

Lemma detectTrend_line_total_witness :
  total (line (detectTrend (reals [3; 1; 4; 1; 5]%R)))
  = total (reals [3; 1; 4; 1; 5]%R).
Proof.
  apply (detectTrend_line_total [3; 1; 4; 1; 5]%R). simpl. lia.
Defined.

Section TotalRuns.
Local Open Scope float_scope.
#[local] Set Warnings "-inexact-float".

(** At binary64 the total is not kept.  The line fitted to [1, 3, 3] has
    slope 1 and intercept 1.3333333333333333; its entries add up to
    6.9999999999999991, and the series adds up to 7. *)
Lemma detectTrend_line_total_at_binary64 :
  line (detectTrend [1; 3; 3])
  = [1.3333333333333333; 2.333333333333333; 3.333333333333333]
  /\ total (line (detectTrend [1; 3; 3])) = 6.9999999999999991
  /\ total [1; 3; 3] = 7
  /\ PrimFloat.eqb (total (line (detectTrend [1; 3; 3]))) (total [1; 3; 3])
     = false.
Proof. repeat split; vm_compute; reflexivity. Qed.

End TotalRuns.

Section LabelExact.
Local Open Scope R_scope.

Lemma lit_exact (p : Z) (q : positive) :
  lit (p # q) = Some (IZR p / IZR (Zpos q)) :> exact.
Proof.
  unfold lit. cbn [Qnum Qden]. apply div_exact.
  apply not_0_IZR. discriminate.
Qed.

Lemma ltb_exact (a b : R) :
  Js.ltb (Some a) (Some b) = (if Rlt_dec a b then true else false) :> bool.
Proof. reflexivity. Qed.

(** The four tests of [describe], on real numbers. *)
Lemma describe_exact (s y0 : R) :
  describe (Some s) (Some y0)
  = if Rlt_dec s (- y0 * (15 / 1000)) then strongDecline
    else if Rlt_dec s (- y0 * (5 / 1000)) then moderateDecline
    else if Rlt_dec (y0 * (15 / 1000)) s then strongGrowth
    else if Rlt_dec (y0 * (5 / 1000)) s then moderateGrowth
    else stable.
Proof.
  unfold describe. rewrite !lit_exact.
  change (Js.neg (Some y0)) with (Some (- y0) : exact).
  change (Js.mul (Some y0) (Some (5 / 1000))) with (Some (y0 * (5 / 1000)) : exact).
  change (Js.mul (Some y0) (Some (15 / 1000))) with (Some (y0 * (15 / 1000)) : exact).
  change (Js.mul (Some (- y0)) (Some (5 / 1000)))
    with (Some (- y0 * (5 / 1000)) : exact).
  change (Js.mul (Some (- y0)) (Some (15 / 1000)))
    with (Some (- y0 * (15 / 1000)) : exact).
  rewrite !ltb_exact.
  destruct (Rlt_dec s (- y0 * (15 / 1000)));
    destruct (Rlt_dec s (- y0 * (5 / 1000)));
    destruct (Rlt_dec (y0 * (15 / 1000)) s);
    destruct (Rlt_dec (y0 * (5 / 1000)) s); reflexivity.
Qed.

(** The bands, for a positive first value. *)
Lemma describe_bands (s y0 : R) :
  0 < y0 ->
  (y0 * (15 / 1000) < s -> describe (Some s) (Some y0) = strongGrowth)
  /\ (y0 * (5 / 1000) < s <= y0 * (15 / 1000) ->
      describe (Some s) (Some y0) = moderateGrowth)
  /\ (s < - y0 * (15 / 1000) -> describe (Some s) (Some y0) = strongDecline)
  /\ (- y0 * (15 / 1000) <= s < - y0 * (5 / 1000) ->
      describe (Some s) (Some y0) = moderateDecline)
  /\ (- y0 * (5 / 1000) <= s <= y0 * (5 / 1000) ->
      describe (Some s) (Some y0) = stable).
Proof.
  intros Hy. rewrite describe_exact.
  repeat split; intros Hs;
    destruct (Rlt_dec s (- y0 * (15 / 1000)));
    destruct (Rlt_dec s (- y0 * (5 / 1000)));
    destruct (Rlt_dec (y0 * (15 / 1000)) s);
    destruct (Rlt_dec (y0 * (5 / 1000)) s);
    try reflexivity; exfalso; lra.
Qed.

(** The strength of the label, by the magnitude of the slope. *)
Lemma strength_describe (s y0 : R) :
  0 < y0 ->
  strength (describe (Some s) (Some y0))
  = if Rlt_dec (y0 * (15 / 1000)) (Rabs s) then 2%nat
    else if Rlt_dec (y0 * (5 / 1000)) (Rabs s) then 1%nat
    else 0%nat.
Proof.
  intros Hy. rewrite describe_exact.
  destruct (Rlt_dec s (- y0 * (15 / 1000)));
    destruct (Rlt_dec s (- y0 * (5 / 1000)));
    destruct (Rlt_dec (y0 * (15 / 1000)) s);
    destruct (Rlt_dec (y0 * (5 / 1000)) s);
    destruct (Rlt_dec (y0 * (15 / 1000)) (Rabs s));
    destruct (Rlt_dec (y0 * (5 / 1000)) (Rabs s));
    try reflexivity; exfalso;
    unfold Rabs in *; destruct (Rcase_abs s); lra.
Qed.

Lemma strength_monotone (s1 s2 y0 : R) :
  0 < y0 -> Rabs s1 <= Rabs s2 ->
  (strength (describe (Some s1) (Some y0))
   <= strength (describe (Some s2) (Some y0)))%nat.
Proof.
  intros Hy Hs. rewrite !strength_describe by assumption.
  destruct (Rlt_dec (y0 * (15 / 1000)) (Rabs s1));
    destruct (Rlt_dec (y0 * (5 / 1000)) (Rabs s1));
    destruct (Rlt_dec (y0 * (15 / 1000)) (Rabs s2));
    destruct (Rlt_dec (y0 * (5 / 1000)) (Rabs s2));
    try lia; exfalso; lra.
Qed.

Lemma description_reals (ys : list R) :
  (2 <= List.length ys)%nat ->
  description (detectTrend (reals ys))
  = describe (Some (olsSlope ys)) (Some (at_ ys 0)).
Proof.
  intros Hn. unfold detectTrend. cbn [description].
  rewrite slopeOf_reals by assumption.
  change (get (reals ys) 0) with (get (reals ys) (Z.of_nat 0)).
  now rewrite get_reals by lia.
Qed.

End LabelExact.

(** The bands in exact arithmetic.  For a series of at least two real
    numbers whose first value [y0] is positive, the label is fixed by the
    band the least-squares slope falls in: above [0.015 * y0] strong
    growth, in [(0.005 * y0, 0.015 * y0]] moderate growth, below
    [-0.015 * y0] strong decline, in [[-0.015 * y0, -0.005 * y0)] moderate
    decline, stable otherwise.  For two such series with the same [y0],
    the one whose slope is larger in magnitude has a label at least as
    strong. *)
Lemma label_bands_in_exact_arithmetic (ys : list R) :
  (2 <= List.length ys)%nat -> (0 < at_ ys 0)%R ->
  let y0 := at_ ys 0 in
  let slope := olsSlope ys in
  let label := description (detectTrend (reals ys)) in
  ((y0 * (15 / 1000) < slope)%R -> label = strongGrowth)
  /\ ((y0 * (5 / 1000) < slope <= y0 * (15 / 1000))%R ->
      label = moderateGrowth)
  /\ ((slope < - y0 * (15 / 1000))%R -> label = strongDecline)
  /\ ((- y0 * (15 / 1000) <= slope < - y0 * (5 / 1000))%R ->
      label = moderateDecline)
  /\ ((- y0 * (5 / 1000) <= slope <= y0 * (5 / 1000))%R -> label = stable)
  /\ (forall zs : list R,
        (2 <= List.length zs)%nat -> at_ zs 0 = y0 ->
        (Rabs slope <= Rabs (olsSlope zs))%R ->
        (strength label
         <= strength (description (detectTrend (reals zs))))%nat).
Proof.
  intros Hn Hy y0 slope label. subst label.
  rewrite description_reals by assumption. fold y0 slope.
  destruct (describe_bands slope Hy) as (B1 & B2 & B3 & B4 & B5).
  repeat split; try assumption.
  intros zs Hz E Hs. rewrite description_reals by assumption. rewrite E.
  now apply strength_monotone.
Qed.

(** * The labels at binary64

    The tests of [describe] compare the slope with products of the first
    value.  What follows reads the comparisons and the products of
    binary64 off their specification: a product is rounded, so a bound is
    [y0 * 0.015] as the code computes it, not the real product. *)

(** ** Rounding keeps the sign

    [binary_round_aux] shifts and rounds a magnitude and then attaches the
    sign; the magnitude never turns negative on the way, so the result is
    not NaN and carries the sign it was given. *)

Section Rounding.
Variable prec : Z.
Variable emax : Z.

Lemma shr_1_nonneg (r : shr_record) :
  (0 <= shr_m r)%Z -> (0 <= shr_m (shr_1 r))%Z.
Proof.
  destruct r as [m r s]. cbn [shr_m]. intros Hm.
  destruct m as [|p|p]; [cbn; lia | | lia].
  destruct p; cbn; lia.
Qed.

Lemma iter_pos_nonneg (p : positive) (r : shr_record) :
  (0 <= shr_m r)%Z -> (0 <= shr_m (iter_pos shr_1 p r))%Z.
Proof.
  revert r. induction p as [p IH|p IH|]; intros r Hr; cbn [iter_pos].
  - apply IH, IH, shr_1_nonneg, Hr.
  - apply IH, IH, Hr.
  - apply shr_1_nonneg, Hr.
Qed.

Lemma shr_fexp_nonneg (m e : Z) (l : location) :
  (0 <= m)%Z -> (0 <= shr_m (fst (shr_fexp prec emax m e l)))%Z.
Proof.
  intros Hm. unfold shr_fexp, shr.
  assert (H0 : (0 <= shr_m (shr_record_of_loc m l))%Z).
  { destruct l as [|[]]; exact Hm. }
  destruct (fexp prec emax (Zdigits2 m + e) - e)%Z; cbn [fst]; try exact H0.
  now apply iter_pos_nonneg.
Qed.

Lemma round_nearest_even_nonneg (m : Z) (l : location) :
  (0 <= m)%Z -> (0 <= round_nearest_even m l)%Z.
Proof.
  intros Hm. destruct l as [|[]]; cbn; try lia.
  destruct (Z.even m); lia.
Qed.

Lemma binary_round_aux_sign (s : bool) (m e : Z) (l : location) :
  (0 <= m)%Z -> signOf (binary_round_aux prec emax s m e l) = Some s.
Proof.
  intros Hm. unfold binary_round_aux.
  pose proof (@shr_fexp_nonneg m e l Hm) as H1.
  destruct (shr_fexp prec emax m e l) as [r1 e1]. cbn [fst] in H1.
  pose proof (@shr_fexp_nonneg
                (round_nearest_even (shr_m r1) (loc_of_shr_record r1))
                e1 loc_Exact (@round_nearest_even_nonneg _ _ H1)) as H2.
  destruct (shr_fexp prec emax _ e1 loc_Exact) as [r2 e2]. cbn [fst] in H2.
  destruct (shr_m r2) as [|p|p]; [reflexivity| |lia].
  now destruct (e2 <=? emax - prec)%Z.
Qed.

Lemma binary_round_aux_opp (s : bool) (m e : Z) (l : location) :
  binary_round_aux prec emax (negb s) m e l
  = SFopp (binary_round_aux prec emax s m e l).
Proof.
  unfold binary_round_aux.
  destruct (shr_fexp prec emax m e l) as [r1 e1].
  destruct (shr_fexp prec emax _ e1 loc_Exact) as [r2 e2].
  destruct (shr_m r2); try reflexivity.
  now destruct (e2 <=? emax - prec)%Z.
Qed.

Lemma SFmul_opp (x y : spec_float) :
  SFmul prec emax (SFopp x) y = SFopp (SFmul prec emax x y).
Proof.
  destruct x as [sx|sx| |sx mx ex], y as [sy|sy| |sy my ey];
    cbn [SFmul SFopp]; try reflexivity;
    try (now destruct sx, sy).
  rewrite <- binary_round_aux_opp. now destruct sx, sy.
Qed.

Lemma SFmul_comm (x y : spec_float) :
  SFmul prec emax x y = SFmul prec emax y x.
Proof.
  destruct x as [sx|sx| |sx mx ex], y as [sy|sy| |sy my ey];
    cbn [SFmul]; try reflexivity; try (now rewrite xorb_comm).
  now rewrite xorb_comm, Pos.mul_comm, Z.add_comm.
Qed.

End Rounding.

(** ** The order of the doubles

    [SFcompare] answers [None] exactly when an argument is NaN, and is
    otherwise a total order in which [-0] and [+0] are equal. *)

Section Comparisons.

Lemma SFcompare_antisym (a b : spec_float) :
  SFcompare b a = option_map CompOpp (SFcompare a b).
Proof.
  destruct a as [sa|sa| |sa ma ea], b as [sb|sb| |sb mb eb];
    cbn [SFcompare option_map]; try reflexivity;
    try (now destruct sa); try (now destruct sb);
    try (now destruct sa, sb).
  f_equal.
  rewrite (Z.compare_antisym ea eb).
  assert (P : Pos.compare_cont Eq mb ma
              = CompOpp (Pos.compare_cont Eq ma mb))
    by (symmetry; apply (Pos.compare_cont_antisym ma mb Eq)).
  rewrite P.
  destruct sa, sb; try reflexivity;
    destruct (ea ?= eb)%Z; cbn [CompOpp]; try reflexivity.
Qed.

Lemma SFleb_not_gt (a b : spec_float) :
  SFleb a b = true -> SFltb b a = false.
Proof.
  unfold SFleb, SFltb. rewrite (SFcompare_antisym a b).
  now destruct (SFcompare a b) as [[]|].
Qed.

Lemma SFcompare_total (a b : spec_float) :
  signOf a <> None -> signOf b <> None ->
  SFltb a b = true \/ SFleb b a = true.
Proof.
  intros Ha Hb. unfold SFleb, SFltb. rewrite (SFcompare_antisym a b).
  destruct (SFcompare a b) as [[]|] eqn:E; cbn; try tauto.
  destruct a, b; cbn in *; congruence.
Qed.

Lemma SFltb_not_nan (a b : spec_float) :
  SFltb a b = true -> signOf a <> None /\ signOf b <> None.
Proof.
  unfold SFltb. destruct a, b; cbn; try discriminate; split; discriminate.
Qed.

(** Above a number that is not negative there is nothing negative. *)
Lemma SFltb_across_zero (t s m : spec_float) :
  signOf t = Some false -> signOf m = Some true ->
  SFltb t s = true -> SFltb s m = false.
Proof.
  unfold SFltb.
  destruct t as [st|st| |st mt et]; cbn [signOf]; try discriminate;
    intros [= ->];
    destruct m as [sm|sm| |sm mm em]; cbn [signOf]; try discriminate;
    intros [= ->];
    destruct s as [ss|ss| |ss ms es]; cbn [SFcompare];
    try discriminate; try reflexivity;
    destruct ss; try discriminate; try reflexivity.
Qed.

Lemma SFltb_abs (t s : spec_float) :
  signOf t = Some false ->
  SFltb t (SFabs s) = SFltb t s || SFltb s (SFopp t).
Proof.
  unfold SFltb.
  destruct t as [st|st| |st mt et]; cbn [signOf]; try discriminate;
    intros [= ->];
    destruct s as [ss|ss| |ss ms es]; cbn [SFabs SFopp SFcompare negb];
    try reflexivity; destruct ss; cbn [orb]; try reflexivity.
  - rewrite (Z.compare_antisym et es).
    assert (P : Pos.compare_cont Eq ms mt
                = CompOpp (Pos.compare_cont Eq mt ms))
      by (symmetry; apply (Pos.compare_cont_antisym mt ms Eq)).
    rewrite P.
    destruct (et ?= es)%Z; cbn [CompOpp]; try reflexivity.
    now destruct (Pos.compare_cont Eq mt ms).
  - destruct (et ?= es)%Z; try reflexivity.
    + now destruct (Pos.compare_cont Eq mt ms).
Qed.

Lemma SFltb_leb_trans (a b c : spec_float) :
  signOf a = Some false -> signOf b = Some false -> signOf c = Some false ->
  SFltb a b = true -> SFleb b c = true -> SFltb a c = true.
Proof.
  unfold SFltb, SFleb.
  destruct a as [sa|sa| |sa ma ea]; cbn [signOf]; try discriminate;
    intros [= ->];
    destruct b as [sb|sb| |sb mb eb]; cbn [signOf]; try discriminate;
    intros [= ->];
    destruct c as [sc|sc| |sc mc ec]; cbn [signOf]; try discriminate;
    intros [= ->]; cbn [SFcompare]; try discriminate; try reflexivity;
    try tauto.
  change (Pos.compare_cont Eq ma mb) with (Pos.compare ma mb).
  change (Pos.compare_cont Eq mb mc) with (Pos.compare mb mc).
  change (Pos.compare_cont Eq ma mc) with (Pos.compare ma mc).
  destruct (Z.compare_spec ea eb), (Z.compare_spec eb ec),
    (Z.compare_spec ea ec); try discriminate; try reflexivity; try lia;
    destruct (Pos.compare_spec ma mb), (Pos.compare_spec mb mc),
      (Pos.compare_spec ma mc); try discriminate; try reflexivity; lia.
Qed.

End Comparisons.

(** ** The tests of [describe] *)

Section LabelFloat.

Lemma mul_float_comm (a b : float) : PrimFloat.mul a b = PrimFloat.mul b a.
Proof.
  apply Prim2SF_inj. rewrite !mul_spec. apply SFmul_comm.
Qed.

Lemma mul_float_opp (a b : float) :
  PrimFloat.mul (PrimFloat.opp a) b = PrimFloat.opp (PrimFloat.mul a b).
Proof.
  apply Prim2SF_inj. rewrite opp_spec, !mul_spec, opp_spec. apply SFmul_opp.
Qed.

(** The product of two positive doubles is not NaN and not negative (it
    is [+0] when it underflows). *)
Lemma SFmul_positive (x c : spec_float) :
  SFltb (S754_zero false) x = true -> SFltb (S754_zero false) c = true ->
  signOf (SF64mul x c) = Some false.
Proof.
  unfold SFltb.
  destruct x as [sx|sx| |sx mx ex]; cbn [SFcompare]; try discriminate;
    destruct sx; try discriminate; intros _;
    destruct c as [sc|sc| |sc mc ec]; cbn [SFcompare]; try discriminate;
    destruct sc; try discriminate; intros _; try reflexivity.
  apply binary_round_aux_sign. lia.
Qed.

Lemma signOf_opp (f : spec_float) (s : bool) :
  signOf f = Some s -> signOf (SFopp f) = Some (negb s).
Proof. destruct f; cbn; congruence. Qed.

Lemma threshold_sign (y0 c : float) :
  PrimFloat.ltb 0 y0 = true -> PrimFloat.ltb 0 c = true ->
  signOf (Prim2SF (PrimFloat.mul y0 c)) = Some false.
Proof.
  intros Hy Hc. rewrite ltb_spec in Hy, Hc.
  rewrite mul_spec. now apply SFmul_positive.
Qed.

(** The four tests of [describe] at binary64, last test first. *)
Lemma describe_float (s y0 : float) :
  describe s y0
  = if PrimFloat.ltb s (PrimFloat.opp (PrimFloat.mul y0 (lit (15 # 1000))))
    then strongDecline
    else if PrimFloat.ltb s
              (PrimFloat.opp (PrimFloat.mul y0 (lit (5 # 1000))))
    then moderateDecline
    else if PrimFloat.ltb (PrimFloat.mul y0 (lit (15 # 1000))) s
    then strongGrowth
    else if PrimFloat.ltb (PrimFloat.mul y0 (lit (5 # 1000))) s
    then moderateGrowth
    else stable.
Proof.
  unfold describe.
  change (Js.neg y0) with (PrimFloat.opp y0).
  change (@Js.mul float _) with PrimFloat.mul.
  change (@Js.ltb float _) with PrimFloat.ltb.
  rewrite !mul_float_opp.
  set (lo := PrimFloat.mul y0 (lit (5 # 1000))).
  set (hi := PrimFloat.mul y0 (lit (15 # 1000))).
  destruct (PrimFloat.ltb s (PrimFloat.opp hi));
    destruct (PrimFloat.ltb s (PrimFloat.opp lo));
    destruct (PrimFloat.ltb hi s); destruct (PrimFloat.ltb lo s);
    reflexivity.
Qed.

(** A slope above a growth bound is below no decline bound. *)
Lemma growth_excludes_decline (s y0 c c' : float) :
  PrimFloat.ltb 0 y0 = true ->
  PrimFloat.ltb 0 c = true -> PrimFloat.ltb 0 c' = true ->
  PrimFloat.ltb (PrimFloat.mul y0 c) s = true ->
  PrimFloat.ltb s (PrimFloat.opp (PrimFloat.mul y0 c')) = false.
Proof.
  intros Hy Hc Hc' Hs. rewrite ltb_spec in Hs. rewrite ltb_spec, opp_spec.
  apply (@SFltb_across_zero (Prim2SF (PrimFloat.mul y0 c))); try assumption.
  - now apply threshold_sign.
  - apply (@signOf_opp _ false). now apply threshold_sign.
Qed.

Lemma leb_not_gt (a b : float) :
  PrimFloat.leb a b = true -> PrimFloat.ltb b a = false.
Proof. rewrite leb_spec, ltb_spec. apply SFleb_not_gt. Qed.

(** Two doubles that are not NaN compare one way or the other. *)
Lemma float_total (a b : float) :
  signOf (Prim2SF a) <> None -> signOf (Prim2SF b) <> None ->
  PrimFloat.ltb a b = true \/ PrimFloat.leb b a = true.
Proof. rewrite ltb_spec, leb_spec. apply SFcompare_total. Qed.

Lemma ltb_not_nan (a b : float) :
  PrimFloat.ltb a b = true ->
  signOf (Prim2SF a) <> None /\ signOf (Prim2SF b) <> None.
Proof. rewrite ltb_spec. apply SFltb_not_nan. Qed.

Lemma lit_5_positive : PrimFloat.ltb 0 (lit (5 # 1000)) = true.
Proof. vm_compute. reflexivity. Qed.

Lemma lit_15_positive : PrimFloat.ltb 0 (lit (15 # 1000)) = true.
Proof. vm_compute. reflexivity. Qed.

(** The bands at binary64, for a positive first value.  The last one is
    "otherwise": none of the four conditions above it holds. *)
Lemma describe_float_bands (s y0 : float) :
  PrimFloat.ltb 0 y0 = true ->
  let lo := PrimFloat.mul y0 (lit (5 # 1000)) in
  let hi := PrimFloat.mul y0 (lit (15 # 1000)) in
  let nlo := PrimFloat.mul (PrimFloat.opp y0) (lit (5 # 1000)) in
  let nhi := PrimFloat.mul (PrimFloat.opp y0) (lit (15 # 1000)) in
  (PrimFloat.ltb hi s = true -> describe s y0 = strongGrowth)
  /\ (PrimFloat.ltb lo s && PrimFloat.leb s hi = true ->
      describe s y0 = moderateGrowth)
  /\ (PrimFloat.ltb s nhi = true -> describe s y0 = strongDecline)
  /\ (PrimFloat.leb nhi s && PrimFloat.ltb s nlo = true ->
      describe s y0 = moderateDecline)
  /\ (PrimFloat.ltb hi s = false ->
      PrimFloat.ltb lo s && PrimFloat.leb s hi = false ->
      PrimFloat.ltb s nhi = false ->
      PrimFloat.leb nhi s && PrimFloat.ltb s nlo = false ->
      describe s y0 = stable).
Proof.
  intros Hy lo hi nlo nhi. subst nlo nhi. rewrite !mul_float_opp.
  fold lo hi. rewrite describe_float. fold lo hi.
  pose proof (@growth_excludes_decline s y0 (lit (5 # 1000)) (lit (5 # 1000))
                Hy lit_5_positive lit_5_positive) as G55.
  pose proof (@growth_excludes_decline s y0 (lit (5 # 1000)) (lit (15 # 1000))
                Hy lit_5_positive lit_15_positive) as G5F.
  pose proof (@growth_excludes_decline s y0 (lit (15 # 1000)) (lit (5 # 1000))
                Hy lit_15_positive lit_5_positive) as GF5.
  pose proof (@growth_excludes_decline s y0 (lit (15 # 1000)) (lit (15 # 1000))
                Hy lit_15_positive lit_15_positive) as GFF.
  fold lo hi in G55, G5F, GF5, GFF.
  pose proof (@threshold_sign y0 (lit (15 # 1000)) Hy lit_15_positive) as Shi.
  fold hi in Shi.
  assert (Nhi : signOf (Prim2SF hi) <> None) by congruence.
  assert (Nnhi : signOf (Prim2SF (PrimFloat.opp hi)) <> None).
  { rewrite opp_spec, (@signOf_opp _ false Shi). discriminate. }
  split; [|split; [|split; [|split]]].
  - intros B. rewrite B, (GF5 B), (GFF B). reflexivity.
  - intros B. apply andb_prop in B. destruct B as [B L].
    rewrite B, (G55 B), (G5F B), (@leb_not_gt _ _ L). reflexivity.
  - intros B. now rewrite B.
  - intros B. apply andb_prop in B. destruct B as [L B].
    rewrite B, (@leb_not_gt _ _ L). reflexivity.
  - intros B1 B2 B3 B4. rewrite B1, B3.
    destruct (PrimFloat.ltb s (PrimFloat.opp lo)) eqn:C.
    + exfalso. destruct (@ltb_not_nan _ _ C) as [Ns _].
      destruct (@float_total s (PrimFloat.opp hi) Ns Nnhi) as [T|T]; [congruence|].
      rewrite T in B4. discriminate.
    + destruct (PrimFloat.ltb lo s) eqn:A; [|reflexivity].
      exfalso. destruct (@ltb_not_nan _ _ A) as [_ Ns].
      destruct (@float_total hi s Nhi Ns) as [T|T]; [congruence|].
      rewrite T in B2. discriminate.
Qed.

Lemma ltb_abs (t s : float) :
  signOf (Prim2SF t) = Some false ->
  PrimFloat.ltb t (PrimFloat.abs s)
  = PrimFloat.ltb t s || PrimFloat.ltb s (PrimFloat.opp t).
Proof.
  intros St. rewrite !ltb_spec, abs_spec, opp_spec. now apply SFltb_abs.
Qed.

(** The strength of the label at binary64, by the magnitude of the
    slope. *)
Lemma strength_describe_float (s y0 : float) :
  PrimFloat.ltb 0 y0 = true ->
  strength (describe s y0)
  = if PrimFloat.ltb (PrimFloat.mul y0 (lit (15 # 1000))) (PrimFloat.abs s)
    then 2%nat
    else if PrimFloat.ltb (PrimFloat.mul y0 (lit (5 # 1000)))
              (PrimFloat.abs s)
    then 1%nat
    else 0%nat.
Proof.
  intros Hy.
  rewrite !ltb_abs by (apply threshold_sign;
                       [assumption | vm_compute; reflexivity]).
  rewrite describe_float.
  pose proof (@growth_excludes_decline s y0 (lit (5 # 1000)) (lit (5 # 1000))
                Hy lit_5_positive lit_5_positive) as G55.
  pose proof (@growth_excludes_decline s y0 (lit (5 # 1000)) (lit (15 # 1000))
                Hy lit_5_positive lit_15_positive) as G5F.
  pose proof (@growth_excludes_decline s y0 (lit (15 # 1000)) (lit (5 # 1000))
                Hy lit_15_positive lit_5_positive) as GF5.
  pose proof (@growth_excludes_decline s y0 (lit (15 # 1000)) (lit (15 # 1000))
                Hy lit_15_positive lit_15_positive) as GFF.
  set (lo := PrimFloat.mul y0 (lit (5 # 1000))) in *.
  set (hi := PrimFloat.mul y0 (lit (15 # 1000))) in *.
  destruct (PrimFloat.ltb hi s); destruct (PrimFloat.ltb lo s);
    destruct (PrimFloat.ltb s (PrimFloat.opp hi));
    destruct (PrimFloat.ltb s (PrimFloat.opp lo));
    try reflexivity;
    try (specialize (G55 eq_refl); discriminate);
    try (specialize (G5F eq_refl); discriminate);
    try (specialize (GF5 eq_refl); discriminate);
    try (specialize (GFF eq_refl); discriminate).
Qed.

Lemma SFleb_not_nan (a b : spec_float) :
  SFleb a b = true -> signOf a <> None /\ signOf b <> None.
Proof.
  unfold SFleb. destruct a, b; cbn; try discriminate; split; discriminate.
Qed.

Lemma above_bound_abs (t s1 s2 : float) :
  signOf (Prim2SF t) = Some false ->
  PrimFloat.ltb t (PrimFloat.abs s1) = true ->
  PrimFloat.leb (PrimFloat.abs s1) (PrimFloat.abs s2) = true ->
  PrimFloat.ltb t (PrimFloat.abs s2) = true.
Proof.
  rewrite !ltb_spec, leb_spec, !abs_spec. intros St L1 L2.
  destruct (@SFleb_not_nan _ _ L2) as [N1 N2].
  apply (@SFltb_leb_trans _ (SFabs (Prim2SF s1))); try assumption.
  - destruct (Prim2SF s1); cbn in *; congruence.
  - destruct (Prim2SF s2); cbn in *; congruence.
Qed.

Lemma strength_monotone_float (s1 s2 y0 : float) :
  PrimFloat.ltb 0 y0 = true ->
  PrimFloat.leb (PrimFloat.abs s1) (PrimFloat.abs s2) = true ->
  (strength (describe s1 y0) <= strength (describe s2 y0))%nat.
Proof.
  intros Hy Hs. rewrite !strength_describe_float by assumption.
  pose proof (@threshold_sign y0 (lit (5 # 1000)) Hy lit_5_positive) as Slo.
  pose proof (@threshold_sign y0 (lit (15 # 1000)) Hy lit_15_positive) as Shi.
  set (lo := PrimFloat.mul y0 (lit (5 # 1000))) in *.
  set (hi := PrimFloat.mul y0 (lit (15 # 1000))) in *.
  destruct (PrimFloat.ltb hi (PrimFloat.abs s1)) eqn:H1.
  - now rewrite (@above_bound_abs hi s1 s2 Shi H1 Hs).
  - destruct (PrimFloat.ltb lo (PrimFloat.abs s1)) eqn:L1.
    + rewrite (@above_bound_abs lo s1 s2 Slo L1 Hs).
      destruct (PrimFloat.ltb hi (PrimFloat.abs s2)); lia.
    + lia.
Qed.

End LabelFloat.

(** C3.  For a series of at least two doubles whose first value [y0] is
    positive, the label is fixed by the band the slope falls in.  The
    slope is the one [detectTrend] computes, and the bounds are the
    products the code compares it with.  Above [y0 * 0.015] the label is
    strong growth; above [y0 * 0.005] and not above [y0 * 0.015],
    moderate growth; below [-y0 * 0.015] strong decline; below
    [-y0 * 0.005] and not below [-y0 * 0.015], moderate decline; stable
    otherwise, which includes a slope that is NaN.  For two such series
    with the same [y0], the one whose slope is larger in magnitude has a
    label at least as strong. *)
Theorem detectTrend_label_bands (ys : list float) :
  (2 <= List.length ys)%nat ->
  PrimFloat.ltb 0 (get ys 0) = true ->
  let y0 := get ys 0 in
  let slope := slopeOf ys in
  let label := description (detectTrend ys) in
  let lo := (y0 * lit (5 # 1000))%js in
  let hi := (y0 * lit (15 # 1000))%js in
  let nlo := ((- y0) * lit (5 # 1000))%js in
  let nhi := ((- y0) * lit (15 # 1000))%js in
  let strong_growth := (slope >? hi)%js in
  let moderate_growth := (slope >? lo)%js && PrimFloat.leb slope hi in
  let strong_decline := (slope <? nhi)%js in
  let moderate_decline := PrimFloat.leb nhi slope && (slope <? nlo)%js in
  (strong_growth = true -> label = strongGrowth)
  /\ (moderate_growth = true -> label = moderateGrowth)
  /\ (strong_decline = true -> label = strongDecline)
  /\ (moderate_decline = true -> label = moderateDecline)
  /\ (strong_growth || moderate_growth
      || strong_decline || moderate_decline = false -> label = stable)
  /\ (forall zs : list float,
        (2 <= List.length zs)%nat -> get zs 0 = y0 ->
        PrimFloat.leb (PrimFloat.abs slope) (PrimFloat.abs (slopeOf zs))
        = true ->
        (strength label
         <= strength (description (detectTrend zs)))%nat).
Proof.
  intros Hn Hy y0 slope label lo hi nlo nhi sg mg sd md.
  change label with (describe slope y0).
  destruct (@describe_float_bands slope y0 Hy) as (B1 & B2 & B3 & B4 & B5).
  split; [exact B1|]. split; [exact B2|]. split; [exact B3|].
  split; [exact B4|]. split.
  - intros E.
    apply orb_false_elim in E. destruct E as [E Emd].
    apply orb_false_elim in E. destruct E as [E Esd].
    apply orb_false_elim in E. destruct E as [Esg Emg].
    now apply B5.
  - intros zs Hz E Hs.
    change (description (detectTrend zs))
      with (describe (slopeOf zs) (get zs 0)).
    rewrite E. now apply strength_monotone_float.
Qed.

Lemma detectTrend_label_bands_witness :
  description (detectTrend [60; 60; 60; 63]%float) = strongGrowth
  /\ description (detectTrend [60; 60; 60; 62]%float) = moderateGrowth.
Proof.
  assert (Hn : forall a : float,
             (2 <= List.length [60; 60; 60; a]%float)%nat)
    by (intros a; simpl; lia).
  assert (Hy : forall a : float,
             PrimFloat.ltb 0 (get [60; 60; 60; a]%float 0) = true)
    by (intros a; reflexivity).
  split.
  - destruct (detectTrend_label_bands [60; 60; 60; 63]%float
                (Hn _) (Hy _)) as (Hstrong & _).
    apply Hstrong. vm_compute. reflexivity.
  - destruct (detectTrend_label_bands [60; 60; 60; 62]%float
                (Hn _) (Hy _)) as (_ & Hmoderate & _).
    apply Hmoderate. vm_compute. reflexivity.
Defined.

Section CorrelationExact.
Local Open Scope R_scope.

Lemma sumTo_squares_nonneg (f : nat -> R) (n : nat) :
  0 <= sumTo (fun i => f i * f i) n.
Proof.
  induction n as [|n IH]; simpl; [lra|].
  pose proof (Rle_0_sqr (f n)) as Hs. unfold Rsqr in Hs. lra.
Qed.

Lemma sumTo_squares_zero (f : nat -> R) (n : nat) :
  sumTo (fun i => f i * f i) n = 0 -> forall i, (i < n)%nat -> f i = 0.
Proof.
  induction n as [|n IH]; intros Hz i Hi; [lia|].
  simpl in Hz. pose proof (sumTo_squares_nonneg f n) as Hp.
  pose proof (Rle_0_sqr (f n)) as Hs. unfold Rsqr in Hs.
  assert (Hn : f n * f n = 0) by lra.
  assert (Hrest : sumTo (fun i => f i * f i) n = 0) by lra.
  destruct (Nat.eq_dec i n) as [->|Hne].
  - now apply Rsqr_0_uniq.
  - apply IH; [assumption | lia].
Qed.

(** Cauchy-Schwarz, for the sums of the loop. *)
Lemma cauchy_schwarz (f g : nat -> R) (n : nat) :
  sumTo (fun i => f i * g i) n * sumTo (fun i => f i * g i) n
  <= sumTo (fun i => f i * f i) n * sumTo (fun i => g i * g i) n.
Proof.
  induction n as [|n IH]; [simpl; lra|].
  cbn [sumTo].
  pose proof (sumTo_squares_nonneg f n) as HX.
  pose proof (sumTo_squares_nonneg g n) as HY.
  set (A := sumTo (fun i => f i * g i) n) in *.
  set (X := sumTo (fun i => f i * f i) n) in *.
  set (Y := sumTo (fun i => g i * g i) n) in *.
  set (a := f n). set (b := g n).
  set (u := X * (b * b) + Y * (a * a)).
  set (v := 2 * A * (a * b)).
  assert (Hu : 0 <= u).
  { unfold u. pose proof (Rle_0_sqr a) as Ha. pose proof (Rle_0_sqr b) as Hb.
    unfold Rsqr in Ha, Hb.
    apply Rplus_le_le_0_compat; apply Rmult_le_pos; assumption. }
  assert (Hsq : v * v <= u * u).
  { assert (H1 : (A * A) * ((a * b) * (a * b))
                 <= (X * Y) * ((a * b) * (a * b))).
    { apply Rmult_le_compat_r; [|exact IH].
      pose proof (Rle_0_sqr (a * b)) as H. unfold Rsqr in H. exact H. }
    pose proof (Rle_0_sqr (X * (b * b) - Y * (a * a))) as H2.
    unfold Rsqr in H2. unfold u, v. lra. }
  assert (Hvu : v <= u).
  { destruct (Rle_dec v u) as [|Hn]; [assumption|]. exfalso.
    assert (u < v) by lra.
    assert (u * u < v * v) by (apply Rmult_le_0_lt_compat; lra).
    lra. }
  unfold u, v in Hvu. lra.
Qed.

Lemma at_firstn (xs : list R) (n i : nat) :
  (i < n)%nat -> at_ (firstn n xs) i = at_ xs i.
Proof.
  unfold at_. revert n i. induction xs as [|x xs IH]; intros n i Hi.
  - now rewrite firstn_nil.
  - destruct n as [|n]; [lia|]. destruct i as [|i]; [reflexivity|].
    cbn [firstn nth]. apply IH. lia.
Qed.

Lemma reduceAdd_reals (l : list R) :
  l <> [] -> reduceAdd (reals l) = Some (SumY l).
Proof.
  intros Hl. rewrite <- total_reals.
  destruct l as [|a rest]; [contradiction|].
  unfold reduceAdd, total. cbn [reals map fold_left].
  change (Js.add (ofZ 0) (Some a)) with (Some (0 + a) : exact).
  now rewrite Rplus_0_l.
Qed.

(** The mean the code computes over the first [n] values. *)
Lemma mean_reals (xs : list R) (n : nat) :
  (0 < n <= List.length xs)%nat ->
  Js.div (reduceAdd (firstn n (reals xs))) (ofNat n) = Some (meanR xs n).
Proof.
  intros Hn. unfold reals. rewrite firstn_map. fold (reals (firstn n xs)).
  assert (Hlen : List.length (firstn n xs) = n)
    by (rewrite length_firstn; lia).
  rewrite reduceAdd_reals
    by (intros E; rewrite E in Hlen; simpl in Hlen; lia).
  rewrite ofNat_exact, div_exact.
  - unfold meanR, SumY. rewrite Hlen.
    now rewrite (sumTo_ext (at_ (firstn n xs)) (at_ xs))
      by (intros; now apply at_firstn).
  - apply not_0_INR. lia.
Qed.

(** The loop of [calculateCorrelation] after [k] iterations. *)
Lemma corr_prefix (xs ys : list R) (mx my : R) (k : nat) :
  (k <= List.length xs)%nat -> (k <= List.length ys)%nat ->
  fold_left (corrStep (reals xs) (reals ys) (Some mx) (Some my)) (seq 0 k)
    {| numerator := ofZ 0; denomX := ofZ 0; denomY := ofZ 0 |}
  = {| numerator :=
         Some (sumTo (fun i => (at_ xs i - mx) * (at_ ys i - my)) k);
       denomX := Some (sumTo (fun i => (at_ xs i - mx) * (at_ xs i - mx)) k);
       denomY := Some (sumTo (fun i => (at_ ys i - my) * (at_ ys i - my)) k)
    |}.
Proof.
  induction k as [|k IH]; intros Hx Hy; [reflexivity|].
  rewrite seq_S, fold_left_app, IH by lia.
  cbn [fold_left Nat.add]. unfold corrStep.
  cbn [numerator denomX denomY]. rewrite !get_reals by lia. reflexivity.
Qed.

Lemma corrSums_reals (xs ys : list R) :
  let n := Nat.min (List.length xs) (List.length ys) in
  (0 < n)%nat ->
  corrSums (reals xs) (reals ys)
  = {| numerator := Some (covSum xs ys n);
       denomX := Some (sqDev xs n);
       denomY := Some (sqDev ys n) |}.
Proof.
  intros n Hn. unfold corrSums. rewrite !length_reals. fold n.
  rewrite !mean_reals by lia.
  now rewrite corr_prefix by lia.
Qed.

Lemma eqb_exact (a b : R) :
  Js.eqb (Some a) (Some b) = (if Req_dec_T a b then true else false) :> bool.
Proof. reflexivity. Qed.

Lemma sqrt_exact (a : R) :
  0 <= a -> Js.sqrt (Some a) = Some (R_sqrt.sqrt a) :> exact.
Proof.
  intros Ha. cbn. destruct (Rlt_dec a 0); [lra | reflexivity].
Qed.

Lemma sqDev_nonneg (xs : list R) (n : nat) : 0 <= sqDev xs n.
Proof.
  unfold sqDev.
  apply (sumTo_squares_nonneg (fun i => at_ xs i - meanR xs n)).
Qed.

(** On real numbers [calculateCorrelation] is [pearson], and never NaN. *)
Lemma calculateCorrelation_reals (xs ys : list R) :
  calculateCorrelation (reals xs) (reals ys) = Some (pearson xs ys).
Proof.
  unfold calculateCorrelation, pearson. rewrite !length_reals.
  set (n := Nat.min (List.length xs) (List.length ys)).
  destruct (n =? 0)%nat eqn:En; [reflexivity|].
  apply Nat.eqb_neq in En.
  rewrite corrSums_reals by (fold n; lia). fold n.
  cbn [numerator denomX denomY].
  change (ofZ 0 : exact) with (Some 0 : exact). rewrite !eqb_exact.
  pose proof (sqDev_nonneg xs n) as HX. pose proof (sqDev_nonneg ys n) as HY.
  destruct (Req_dec_T (sqDev xs n) 0) as [|Hx]; [reflexivity|].
  destruct (Req_dec_T (sqDev ys n) 0) as [|Hy]; [reflexivity|].
  cbn [orb].
  change (Js.mul (Some (sqDev xs n)) (Some (sqDev ys n)))
    with (Some (sqDev xs n * sqDev ys n) : exact).
  assert (Hp : 0 < sqDev xs n * sqDev ys n)
    by (apply Rmult_lt_0_compat; lra).
  rewrite sqrt_exact by lra.
  rewrite div_exact; [reflexivity|].
  pose proof (sqrt_lt_R0 _ Hp). lra.
Qed.

Lemma covSum_sym (xs ys : list R) (n : nat) : covSum xs ys n = covSum ys xs n.
Proof. unfold covSum. apply sumTo_ext. intros. ring. Qed.

Lemma pearson_sym (xs ys : list R) : pearson xs ys = pearson ys xs.
Proof.
  unfold pearson. rewrite (Nat.min_comm (List.length ys)).
  set (n := Nat.min (List.length xs) (List.length ys)).
  destruct (n =? 0)%nat; [reflexivity|].
  destruct (Req_dec_T (sqDev xs n) 0); destruct (Req_dec_T (sqDev ys n) 0);
    try reflexivity.
  now rewrite covSum_sym, Rmult_comm.
Qed.

Lemma pearson_bounds (xs ys : list R) : -1 <= pearson xs ys <= 1.
Proof.
  unfold pearson.
  set (n := Nat.min (List.length xs) (List.length ys)).
  destruct (n =? 0)%nat; [lra|].
  pose proof (sqDev_nonneg xs n) as HX. pose proof (sqDev_nonneg ys n) as HY.
  destruct (Req_dec_T (sqDev xs n) 0) as [|Hx]; [lra|].
  destruct (Req_dec_T (sqDev ys n) 0) as [|Hy]; [lra|].
  assert (Hp : 0 < sqDev xs n * sqDev ys n)
    by (apply Rmult_lt_0_compat; lra).
  pose proof (sqrt_lt_R0 _ Hp) as Hs.
  pose proof (cauchy_schwarz (fun i => at_ xs i - meanR xs n)
                (fun i => at_ ys i - meanR ys n) n) as CS.
  fold (covSum xs ys n) (sqDev xs n) (sqDev ys n) in CS.
  assert (Habs : Rabs (covSum xs ys n)
                 <= R_sqrt.sqrt (sqDev xs n * sqDev ys n)).
  { rewrite <- sqrt_Rsqr_abs. apply sqrt_le_1_alt. unfold Rsqr. exact CS. }
  assert (Hb : - R_sqrt.sqrt (sqDev xs n * sqDev ys n) <= covSum xs ys n
               <= R_sqrt.sqrt (sqDev xs n * sqDev ys n)).
  { unfold Rabs in Habs. destruct (Rcase_abs (covSum xs ys n)); lra. }
  split.
  - apply Rmult_le_reg_r with (r := R_sqrt.sqrt (sqDev xs n * sqDev ys n));
      [assumption|].
    unfold Rdiv. rewrite Rmult_assoc, Rinv_l by lra. lra.
  - apply Rmult_le_reg_r with (r := R_sqrt.sqrt (sqDev xs n * sqDev ys n));
      [assumption|].
    unfold Rdiv. rewrite Rmult_assoc, Rinv_l by lra. lra.
Qed.

(** A series that takes two different values has a positive [sqDev]. *)
Lemma sqDev_nonconstant (xs : list R) (i j : nat) :
  (i < List.length xs)%nat -> (j < List.length xs)%nat ->
  at_ xs i <> at_ xs j -> sqDev xs (List.length xs) <> 0.
Proof.
  intros Hi Hj Hne Hz. unfold sqDev in Hz.
  pose proof (@sumTo_squares_zero
                (fun k => at_ xs k - meanR xs (List.length xs)) _ Hz) as Hall.
  pose proof (Hall i Hi) as Ei. pose proof (Hall j Hj) as Ej.
  cbn beta in Ei, Ej. apply Hne. lra.
Qed.

Lemma pearson_self (xs : list R) (i j : nat) :
  (i < List.length xs)%nat -> (j < List.length xs)%nat ->
  at_ xs i <> at_ xs j -> pearson xs xs = 1.
Proof.
  intros Hi Hj Hne. unfold pearson. rewrite Nat.min_id.
  destruct (List.length xs =? 0)%nat eqn:En;
    [apply Nat.eqb_eq in En; lia|].
  pose proof (@sqDev_nonconstant xs i j Hi Hj Hne) as Hd.
  pose proof (sqDev_nonneg xs (List.length xs)) as Hp.
  destruct (Req_dec_T (sqDev xs (List.length xs)) 0); [contradiction|].
  change (covSum xs xs (List.length xs)) with (sqDev xs (List.length xs)).
  rewrite sqrt_square by assumption. field. assumption.
Qed.

Lemma pearson_degenerate (xs ys : list R) :
  let n := Nat.min (List.length xs) (List.length ys) in
  (n = 0%nat \/ sqDev xs n = 0 \/ sqDev ys n = 0) -> pearson xs ys = 0.
Proof.
  intros n H. unfold pearson. fold n.
  destruct (n =? 0)%nat eqn:En; [reflexivity|].
  destruct (Req_dec_T (sqDev xs n) 0); [reflexivity|].
  destruct (Req_dec_T (sqDev ys n) 0); [reflexivity|].
  apply Nat.eqb_neq in En. destruct H as [H | [H | H]]; contradiction.
Qed.

End CorrelationExact.

(** ** Swapping the arguments

    Swapping the arguments swaps [denomX] with [denomY] and each product
    [dx * dy] with [dy * dx]: the result is the same wherever
    multiplication commutes, whatever it rounds to. *)

Section CorrelationSymmetry.
Context {num : Type} `{Number num}.
Local Open Scope js_scope.
Hypothesis mul_commutes : forall a b : num, a * b = b * a.

Lemma corrStep_swap (x y : list num) (mX mY : num) (l : list nat) :
  forall s t : CorrSums num,
    numerator t = numerator s -> denomX t = denomY s ->
    denomY t = denomX s ->
    numerator (fold_left (corrStep y x mY mX) l t)
    = numerator (fold_left (corrStep x y mX mY) l s)
    /\ denomX (fold_left (corrStep y x mY mX) l t)
       = denomY (fold_left (corrStep x y mX mY) l s)
    /\ denomY (fold_left (corrStep y x mY mX) l t)
       = denomX (fold_left (corrStep x y mX mY) l s).
Proof.
  induction l as [|i l IH]; intros s t E1 E2 E3; [now cbn|].
  cbn [fold_left]. apply IH; unfold corrStep; cbn.
  - rewrite E1. f_equal. apply mul_commutes.
  - now rewrite E2.
  - now rewrite E3.
Qed.

Lemma corrSums_swap (x y : list num) :
  numerator (corrSums y x) = numerator (corrSums x y)
  /\ denomX (corrSums y x) = denomY (corrSums x y)
  /\ denomY (corrSums y x) = denomX (corrSums x y).
Proof.
  unfold corrSums. rewrite (Nat.min_comm (List.length y) (List.length x)).
  now apply corrStep_swap.
Qed.

Lemma calculateCorrelation_swap (x y : list num) :
  calculateCorrelation x y = calculateCorrelation y x.
Proof.
  unfold calculateCorrelation.
  rewrite (Nat.min_comm (List.length y) (List.length x)).
  destruct (Nat.min (List.length x) (List.length y) =? 0)%nat;
    [reflexivity|].
  destruct (corrSums_swap x y) as (E1 & E2 & E3). rewrite E1, E2, E3.
  rewrite (orb_comm (denomY (corrSums x y) === ofZ 0)).
  now rewrite (mul_commutes (denomY (corrSums x y))).
Qed.

End CorrelationSymmetry.

(** C4.  In exact arithmetic, on two sequences of real numbers,
    [calculateCorrelation] returns a number between -1 and 1; swapping the
    arguments gives the same number; a sequence that takes two different
    values has correlation exactly 1 with itself; and the result is 0 when
    the shorter length is 0 and when the sum of squared deviations of
    either sequence, over the first [min] values, is 0.

    At binary64, on every two sequences of doubles, swapping the arguments
    gives the same result, and the result is 0 when the shorter length is
    0 and when [denomX] or [denomY], as the loop computed it, is 0.  The
    bounds and the value 1 do not carry over: rounding and overflow break
    them. *)
Theorem calculateCorrelation_properties :
  (forall xs ys : list R,
     let n := Nat.min (List.length xs) (List.length ys) in
     exists r : R,
       calculateCorrelation (reals xs) (reals ys) = Some r
       /\ (-1 <= r <= 1)%R
       /\ calculateCorrelation (reals ys) (reals xs) = Some r
       /\ ((exists i j : nat,
              (i < List.length xs)%nat /\ (j < List.length xs)%nat
              /\ at_ xs i <> at_ xs j) ->
           calculateCorrelation (reals xs) (reals xs) = Some 1%R)
       /\ (n = 0%nat -> r = 0%R)
       /\ (sqDev xs n = 0%R \/ sqDev ys n = 0%R -> r = 0%R))
  /\ (forall x y : list float,
        calculateCorrelation x y = calculateCorrelation y x
        /\ (Nat.min (List.length x) (List.length y) = 0%nat ->
            calculateCorrelation x y = 0%float)
        /\ (PrimFloat.eqb (denomX (corrSums x y)) 0
            || PrimFloat.eqb (denomY (corrSums x y)) 0 = true ->
            calculateCorrelation x y = 0%float)).
Proof.
  split.
  - intros xs ys n. exists (pearson xs ys).
    split; [apply calculateCorrelation_reals|].
    split; [apply pearson_bounds|].
    split; [rewrite calculateCorrelation_reals; f_equal; apply pearson_sym|].
    split.
    + intros (i & j & Hi & Hj & Hne).
      rewrite calculateCorrelation_reals. f_equal.
      exact (@pearson_self xs i j Hi Hj Hne).
    + split; intros Hz; apply pearson_degenerate; fold n; tauto.
  - intros x y. split; [|split].
    + apply calculateCorrelation_swap.
      intros a b. exact (mul_float_comm a b).
    + intros E. unfold calculateCorrelation. now rewrite E.
    + intros E. unfold calculateCorrelation.
      destruct (Nat.min (List.length x) (List.length y) =? 0)%nat;
        [reflexivity|].
      change (@Js.eqb float _) with PrimFloat.eqb.
      change (@Js.ofZ float _ 0) with 0%float.
      now rewrite E.
Qed.

Section CorrelationRuns.
Local Open Scope float_scope.
#[local] Set Warnings "-inexact-float".

(** On doubles the coefficient can leave [[-1, 1]] and a series need not
    have correlation 1 with itself: [0, 0, 5] against [0, 0, 15] gives a
    number above 1, [1e200, 0] against itself gives NaN (its squares
    overflow), [1e-170, 0, 3e-170] against itself gives 0 (its squares
    underflow), and the constant series [0.1, 0.1, 0.1] against itself
    gives 1, not 0 (its rounded mean is not 0.1). *)
Lemma calculateCorrelation_at_binary64 :
  PrimFloat.ltb 1 (calculateCorrelation [0; 0; 5] [0; 0; 15]) = true
  /\ calculateCorrelation [1e200; 0] [1e200; 0] = PrimFloat.nan
  /\ calculateCorrelation [1e-170; 0; 3e-170] [1e-170; 0; 3e-170] = 0
  /\ calculateCorrelation [0.1; 0.1; 0.1] [0.1; 0.1; 0.1] = 1.
Proof. repeat split; vm_compute; reflexivity. Qed.

End CorrelationRuns.

(** * Lengths *)

Lemma length_steps (periods : Z) :
  List.length (steps periods) = Z.to_nat periods.
Proof. unfold steps. now rewrite length_map, length_seq. Qed.

Lemma length_line {num : Type} `{Number num} (data : list num) :
  List.length (line (detectTrend data)) = List.length data.
Proof. unfold detectTrend. cbn [line]. now rewrite length_map, length_seq. Qed.

Lemma length_values {num : Type} `{Number num}
  (data trendLine : list num) (periods : Z) :
  List.length (values (createForecast data trendLine periods))
  = Z.to_nat periods.
Proof.
  unfold createForecast. cbn [values]. now rewrite length_map, length_steps.
Qed.

(** C6.  At every instance of the numbers: the line of [detectTrend] is as
    long as the series, and the values of [createForecast] are as many as
    the horizon asks for, 7 for the default horizon. *)
Theorem trend_and_forecast_lengths
  (num : Type) (N : Number num) (data : list num) :
  (2 <= List.length data)%nat ->
  List.length (line (detectTrend data)) = List.length data
  /\ (forall (trendLine : list num) (horizon : Z),
        (1 <= horizon)%Z ->
        Z.of_nat (List.length (values (createForecast data trendLine horizon)))
        = horizon)
  /\ (forall trendLine : list num,
        List.length (values (createForecast data trendLine defaultPeriods))
        = 7%nat).
Proof.
  intros _. split; [apply length_line|]. split.
  - intros trendLine horizon Hh. rewrite length_values. lia.
  - intros trendLine. rewrite length_values. reflexivity.
Qed.

Lemma trend_and_forecast_lengths_witness :
  List.length (line (detectTrend [100; 110; 105]%float)) = 3%nat
  /\ List.length
       (values (createForecast [100; 110; 105]%float
                  (line (detectTrend [100; 110; 105]%float)) 2)) = 2%nat.
Proof.
  assert (Hn : (2 <= List.length [100; 110; 105]%float)%nat) by (simpl; lia).
  destruct (trend_and_forecast_lengths float_Number [100; 110; 105]%float Hn)
    as (Hline & Hvalues & _).
  split; [exact Hline|].
  apply Nat2Z.inj. apply Hvalues. lia.
Defined.

(** * Series statistics *)

Lemma change_formula {num : Type} `{Number num} (series : list num) :
  change (seriesStats series)
  = if (1 <? List.length series)%nat then
      Js.mul
        (Js.div
           (Js.sub (get series (Z.of_nat (List.length series) - 1))
                   (get series 0))
           (orElse (get series 0) (ofZ 1)))
        (ofZ 100)
    else ofZ 0.
Proof.
  unfold seriesStats, stats. cbn [historyOf history].
  destruct series as [|a rest]; reflexivity.
Qed.

Lemma change_0_5_10_exact :
  change (seriesStats (reals [0; 5; 10]%R)) = Some 1000%R.
Proof.
  rewrite change_formula, length_reals. cbn [List.length Nat.ltb Nat.leb].
  change (Z.of_nat 3 - 1)%Z with (Z.of_nat 2).
  change 0%Z with (Z.of_nat 0).
  rewrite !get_reals by (simpl; lia).
  unfold orElse. cbn.
  destruct (Req_dec_T 0 0) as [_|Hne]; [|exfalso; apply Hne; reflexivity].
  destruct (Req_dec_T 1 0) as [H1|_]; [exfalso; lra|].
  cbn. f_equal. field.
Qed.

Section StatisticsRuns.
Local Open Scope float_scope.

(** C7, as the specification states it, fails: on [0, 5, 10] the change is
    1000 percent, not 10. *)
Lemma changePercent_zero_guard_is_not_10 :
  change (seriesStats [0; 5; 10]) = 1000
  /\ PrimFloat.eqb (change (seriesStats [0; 5; 10])) 10 = false
  /\ change (seriesStats (reals [0; 5; 10]%R)) = Some 1000%R
  /\ 1000%R <> 10%R.
Proof.
  split; [vm_compute; reflexivity|].
  split; [vm_compute; reflexivity|].
  split; [apply change_0_5_10_exact | lra].
Qed.

(** C7, amended.  On [0, 5, 10] the change is 1000: the first value is 0,
    so the divisor is the guard 1, and [(10 - 0) / 1 * 100] is 1000.  At
    every instance of the numbers, the change of a series is
    [(last - first) / (first || 1) * 100] when the series has more than
    one value, and 0 otherwise. *)
Theorem changePercent_zero_guard :
  change (seriesStats [0; 5; 10]) = 1000
  /\ orElse (get [0; 5; 10] 0) (ofZ 1) = 1
  /\ change (seriesStats (reals [0; 5; 10]%R)) = Some 1000%R
  /\ (forall (num : Type) (N : Number num) (series : list num),
        change (seriesStats series)
        = if (1 <? List.length series)%nat then
            Js.mul
              (Js.div
                 (Js.sub (get series (Z.of_nat (List.length series) - 1))
                         (get series 0))
                 (orElse (get series 0) (ofZ 1)))
              (ofZ 100)
          else ofZ 0).
Proof.
  split; [vm_compute; reflexivity|].
  split; [vm_compute; reflexivity|].
  split.
  - apply change_0_5_10_exact.
  - intros num N series. apply change_formula.
Qed.

End StatisticsRuns.

(** * The flat series *)

Section FlatExact.
Local Open Scope R_scope.

Lemma at_repeat (c : R) (n i : nat) : (i < n)%nat -> at_ (repeat c n) i = c.
Proof.
  intros Hi. unfold at_.
  rewrite nth_indep with (d' := c) by now rewrite repeat_length.
  apply nth_repeat.
Qed.

Lemma repeat_linear (c : R) (n : nat) : repeat c n = linearSeries c 0 n.
Proof.
  apply nth_ext with (d := 0) (d' := 0).
  - now rewrite repeat_length, length_linearSeries.
  - intros i Hi. rewrite repeat_length in Hi.
    change (at_ (repeat c n) i = at_ (linearSeries c 0 n) i).
    rewrite at_repeat, at_linearSeries by assumption. ring.
Qed.

Lemma meanR_repeat (c : R) (n : nat) : (0 < n)%nat -> meanR (repeat c n) n = c.
Proof.
  intros Hn. unfold meanR.
  rewrite (sumTo_ext (at_ (repeat c n)) (fun _ => c))
    by (intros; now apply at_repeat).
  rewrite sumTo_const. field. apply not_0_INR. lia.
Qed.

Lemma sqDev_repeat (c : R) (n : nat) : (0 < n)%nat -> sqDev (repeat c n) n = 0.
Proof.
  intros Hn. unfold sqDev. rewrite meanR_repeat by assumption.
  rewrite (sumTo_ext _ (fun _ => 0)).
  - rewrite sumTo_const. ring.
  - intros i Hi. rewrite at_repeat by assumption. ring.
Qed.

(** A constant positive series of real numbers: stable, no change, and a
    correlation of 0 with itself. *)
Lemma flat_exact (c : R) (n : nat) :
  0 < c -> (2 <= n)%nat ->
  description (detectTrend (reals (repeat c n))) = stable
  /\ change (seriesStats (reals (repeat c n))) = Some 0
  /\ calculateCorrelation (reals (repeat c n)) (reals (repeat c n)) = Some 0.
Proof.
  intros Hc Hn. split; [|split].
  - rewrite description_reals by now rewrite repeat_length.
    rewrite at_repeat by lia.
    rewrite repeat_linear, olsSlope_linear by assumption.
    apply describe_bands; lra.
  - rewrite change_formula, length_reals, repeat_length.
    destruct (1 <? n)%nat eqn:E; [|apply Nat.ltb_ge in E; lia].
    replace (Z.of_nat n - 1)%Z with (Z.of_nat (n - 1)) by lia.
    change 0%Z with (Z.of_nat 0).
    rewrite !get_reals by (rewrite repeat_length; lia).
    rewrite !at_repeat by lia.
    unfold orElse. cbn.
    destruct (Req_dec_T c 0) as [E0|_]; [exfalso; lra|].
    destruct (Req_dec_T c 0) as [E0|_]; [exfalso; lra|].
    cbn. f_equal. field. lra.
  - rewrite calculateCorrelation_reals. f_equal.
    apply pearson_degenerate. rewrite repeat_length, Nat.min_id.
    right. left. apply sqDev_repeat. lia.
Qed.

End FlatExact.

Section FlatRuns.
Local Open Scope float_scope.

(** C8, as the specification states it, fails in its last part:
    [calculateCorrelation] of the flat series with itself is 0, the value
    of its zero-variance guard, not 1. *)
Lemma flat_correlation_is_not_1 :
  calculateCorrelation flat30 flat30 = 0
  /\ PrimFloat.eqb (calculateCorrelation flat30 flat30) 1 = false
  /\ calculateCorrelation (reals (repeat 100%R 30)) (reals (repeat 100%R 30))
     = Some 0%R
  /\ 0%R <> 1%R.
Proof.
  split; [vm_compute; reflexivity|].
  split; [vm_compute; reflexivity|].
  split; [apply flat_exact; [lra | lia] | lra].
Qed.

(** C8, amended.  For thirty copies of 100: the label is stable, the
    change is 0 percent, and [calculateCorrelation] of the series with
    itself is 0.  The 1 is the answer of the [correlation] memo of the
    component when the two selected KPIs have the same id, which does not
    call [calculateCorrelation]; for two KPIs with different ids and this
    same series the memo gives 0.  The same holds in exact arithmetic. *)
Theorem flat_series_scenario :
  description (detectTrend flat30) = stable
  /\ change (seriesStats flat30) = 0
  /\ calculateCorrelation flat30 flat30 = 0
  /\ correlation (Some (kpiOf "revenue" flat30))
                 (Some (kpiOf "revenue" flat30)) = 1
  /\ correlation (Some (kpiOf "revenue" flat30))
                 (Some (kpiOf "sales" flat30)) = 0
  /\ description (detectTrend (reals (repeat 100%R 30))) = stable
  /\ change (seriesStats (reals (repeat 100%R 30))) = Some 0%R
  /\ calculateCorrelation (reals (repeat 100%R 30)) (reals (repeat 100%R 30))
     = Some 0%R.
Proof.
  repeat (split; [vm_compute; reflexivity|]).
  apply flat_exact; [lra | lia].
Qed.

End FlatRuns.

(** * The forecast *)

Lemma nth_steps (periods : Z) (i : nat) (d : Z) :
  (i < Z.to_nat periods)%nat -> nth i (steps periods) d = Z.of_nat (S i).
Proof.
  intros Hi. unfold steps.
  rewrite nth_indep with (d' := Z.of_nat O)
    by now rewrite length_map, length_seq.
  rewrite map_nth, seq_nth by assumption. reflexivity.
Qed.

(** X1.  Step [k] of the forecast, at every instance of the numbers: the trend
    value, plus [k] slopes, plus the residual at [n - horizon + k - 1];
    that index is inside the series when the series has at least
    [horizon] values. *)
Theorem createForecast_step {num : Type} `{Number num}
  (data trendLine : list num) (horizon k : Z) :
  (1 <= k <= horizon)%Z ->
  let n := Z.of_nat (List.length data) in
  let idx := (n - horizon + k - 1)%Z in
  get (values (createForecast data trendLine horizon)) (k - 1)
  = Js.add
      (Js.add (get trendLine (n - 1))
              (Js.mul (Js.sub (get trendLine (n - 1)) (get trendLine (n - 2)))
                      (ofZ k)))
      (Js.sub (get data idx) (get trendLine idx))
  /\ ((horizon <= n)%Z -> (0 <= idx < n)%Z).
Proof.
  intros Hk n idx. split; [|intros Hn; unfold idx; lia].
  unfold get at 1.
  destruct (k - 1 <? 0)%Z eqn:E; [apply Z.ltb_lt in E; lia|].
  unfold createForecast. cbn [values].
  set (f := fun i : Z => _).
  rewrite nth_indep with (d' := f 0%Z)
    by (rewrite length_map, length_steps; lia).
  rewrite map_nth, nth_steps by lia.
  unfold f. fold n.
  replace (Z.of_nat (S (Z.to_nat (k - 1)))) with k by lia.
  unfold seasonalIndex.
  replace (n - (horizon - k) - 1)%Z with idx by (unfold idx; lia).
  reflexivity.
Qed.

Lemma createForecast_step_witness :
  get (values (createForecast [1; 2; 4; 8]%float [1; 3; 5; 7]%float 3))
      (2 - 1)
  = Js.add
      (Js.add (get [1; 3; 5; 7]%float (4 - 1))
              (Js.mul (Js.sub (get [1; 3; 5; 7]%float (4 - 1))
                              (get [1; 3; 5; 7]%float (4 - 2)))
                      (ofZ 2)))
      (Js.sub (get [1; 2; 4; 8]%float (4 - 3 + 2 - 1))
              (get [1; 3; 5; 7]%float (4 - 3 + 2 - 1))).
Proof.
  assert (Hk : (1 <= 2 <= 3)%Z) by lia.
  exact (proj1 (@createForecast_step float float_Number [1; 2; 4; 8]%float
                  [1; 3; 5; 7]%float 3 2 Hk)).
Defined.

Section ForecastRuns.
Local Open Scope float_scope.

(** C2, at [series = [1, 2, 3]] and the default horizon 7, which is the
    call [performAiAnalysis] makes on that series: the fitted line is the
    series, the indices of the residuals are -4, ..., 2, and the four
    values read through a negative index are NaN.  With the index wrapped
    to 0 they would be 4, 5, 6 and 7. *)
Theorem createForecast_short_series :
  line (detectTrend [1; 2; 3]) = [1; 2; 3]
  /\ map (seasonalIndex 3 defaultPeriods) (steps defaultPeriods)
     = [-4; -3; -2; -1; 0; 1; 2]%Z
  /\ values (createForecast [1; 2; 3] (line (detectTrend [1; 2; 3]))
               defaultPeriods)
     = [PrimFloat.nan; PrimFloat.nan; PrimFloat.nan; PrimFloat.nan; 8; 9; 10]
  /\ map (fun k => 3 + 1 * Float64.ofZ k + (1 - 1)) [1; 2; 3; 4]%Z
     = [4; 5; 6; 7].
Proof. repeat split; vm_compute; reflexivity. Qed.

End ForecastRuns.

(** * No input is rejected *)

Section ShortExact.
Local Open Scope R_scope.

Lemma add_nan_r (a : exact) : Js.add a None = None.
Proof. destruct a; reflexivity. Qed.

Lemma sub_nan_r (a : exact) : Js.sub a None = None.
Proof. destruct a; reflexivity. Qed.







Lemma createForecast_short (data trendLine : list exact) (periods : Z) :
  (List.length data < 2)%nat ->
  values (createForecast data trendLine periods)
  = repeat None (Z.to_nat periods).
Proof.
  intros Hn. unfold createForecast. cbn [values].
  assert (Hget : get trendLine (Z.of_nat (List.length data) - 2) = None).
  { unfold get.
    destruct (Z.of_nat (List.length data) - 2 <? 0)%Z eqn:E; [reflexivity|].
    apply Z.ltb_ge in E. lia. }
  rewrite Hget, sub_nan_r. unfold steps. rewrite map_map.
  generalize 1%nat. induction (Z.to_nat periods) as [|m IH]; intros s.
  - reflexivity.
  - cbn [seq map repeat]. rewrite IH. f_equal.
    change (Js.mul None (ofZ (Z.of_nat s))) with (None : exact).
    rewrite add_nan_r. reflexivity.
Qed.

End ShortExact.


(** * The shuffle and the drivers *)

Lemma extract_Permutation {A : Type} (k : nat) (l : list A) (a : A)
  (rest : list A) :
  extract k l = Some (a, rest) ->
  Permutation l (a :: rest) /\ List.length l = S (List.length rest).
Proof.
  revert k a rest. induction l as [|x l IH]; intros k a rest E.
  - destruct k; discriminate.
  - destruct k as [|k]; cbn in E.
    + injection E as <- <-. split; [apply Permutation_refl | reflexivity].
    + destruct (extract k l) as [[b rest']|] eqn:Ek; [|discriminate].
      injection E as <- <-. destruct (IH _ _ _ Ek) as [P L]. split.
      * apply perm_trans with (x :: b :: rest');
          [now apply perm_skip | apply perm_swap].
      * cbn. now rewrite L.
Qed.

Lemma extract_in_range {A : Type} (k : nat) (l : list A) :
  (k < List.length l)%nat -> exists a rest, extract k l = Some (a, rest).
Proof.
  revert k. induction l as [|x l IH]; intros k Hk; [simpl in Hk; lia|].
  destruct k as [|k]; [now exists x, l|].
  destruct (IH k) as (a & rest & E); [simpl in Hk; lia|].
  exists a, (x :: rest). cbn. now rewrite E.
Qed.

Lemma extract_member {A : Type} (a : A) (l : list A) :
  In a l ->
  exists k rest, (k < List.length l)%nat /\ extract k l = Some (a, rest).
Proof.
  induction l as [|x l IH]; intros Hin; [contradiction|].
  destruct Hin as [->|Hin].
  - exists 0%nat, l. split; [simpl; lia | reflexivity].
  - destruct (IH Hin) as (k & rest & Hk & E).
    exists (S k), (x :: rest). split; [simpl; lia|]. cbn. now rewrite E.
Qed.

Lemma shuffleN_Permutation {A : Type} (fuel : nat) (rnd : list nat)
  (l : list A) :
  List.length l = fuel -> Permutation l (shuffleN fuel rnd l).
Proof.
  revert rnd l. induction fuel as [|fuel IH]; intros rnd l Hl.
  - destruct l; [apply perm_nil | discriminate].
  - cbn [shuffleN].
    destruct (@extract_in_range A (hd 0%nat rnd mod List.length l) l)
      as (a & rest & E).
    { apply Nat.mod_upper_bound. lia. }
    rewrite E. destruct (@extract_Permutation A _ _ _ _ E) as [P L].
    apply perm_trans with (a :: rest); [exact P|].
    apply perm_skip. apply IH. lia.
Qed.

(** Every result of the shuffle is a permutation of the array. *)
Lemma shuffle_Permutation {A : Type} (rnd : list nat) (l : list A) :
  Permutation l (shuffle rnd l).
Proof. unfold shuffle. now apply shuffleN_Permutation. Qed.

(** Every permutation of the array is a result of the shuffle. *)
Lemma shuffle_complete {A : Type} (l p : list A) :
  Permutation l p -> exists rnd, shuffle rnd l = p.
Proof.
  revert l. induction p as [|a p IH]; intros l P.
  - apply Permutation_sym, Permutation_nil in P. subst l. now exists [].
  - assert (Hin : In a l).
    { apply Permutation_in with (a :: p);
        [now apply Permutation_sym | now left]. }
    destruct (@extract_member A a l Hin) as (k & rest & Hk & E).
    destruct (@extract_Permutation A _ _ _ _ E) as [P' L].
    assert (Prest : Permutation rest p).
    { apply Permutation_cons_inv with a.
      apply perm_trans with l; [now apply Permutation_sym | exact P]. }
    destruct (IH rest Prest) as (rnd & Hrnd).
    exists (k :: rnd). unfold shuffle. rewrite L. cbn [shuffleN hd tl].
    rewrite Nat.mod_small by assumption. rewrite E. f_equal. exact Hrnd.
Qed.

(** Two entries taken off the front of a shuffled array without repeats. *)
Lemma two_of_shuffle (rnd : list nat) (pool : list string) :
  (2 <= List.length pool)%nat -> NoDup pool ->
  exists d1 d2,
    firstn 2 (shuffle rnd pool) = [d1; d2]
    /\ d1 <> d2 /\ In d1 pool /\ In d2 pool.
Proof.
  intros Hlen Hnd. pose proof (shuffle_Permutation rnd pool) as P.
  pose proof (Permutation_length P) as L.
  pose proof (Permutation_NoDup P Hnd) as Hnd'.
  destruct (shuffle rnd pool) as [|d1 [|d2 rest]];
    [simpl in L; lia | simpl in L; lia |].
  exists d1, d2. split; [reflexivity|]. split; [|split].
  - inversion Hnd' as [|? ? Hnot _]. intros ->. apply Hnot. now left.
  - apply Permutation_in with (d1 :: d2 :: rest);
      [now apply Permutation_sym | now left].
  - apply Permutation_in with (d1 :: d2 :: rest);
      [now apply Permutation_sym | right; now left].
Qed.

Ltac nodup_strings :=
  repeat (apply NoDup_cons; [cbn; intuition discriminate|]); apply NoDup_nil.

(** The pool of a registered category: the positive one, the negative one
    or both, with at least two entries and no repeat. *)
Lemma driverPool_registered (kpiId trendDescription : string) :
  In kpiId registered ->
  exists pos neg,
    lookup kpiId positiveDrivers = Some pos
    /\ lookup kpiId negativeDrivers = Some neg
    /\ driverPool kpiId trendDescription
       = Normal (if includes trendDescription "рост" then pos
                 else if includes trendDescription "снижение" then neg
                 else (pos ++ neg)%list)
    /\ (2 <= List.length pos)%nat /\ (2 <= List.length neg)%nat
    /\ NoDup (pos ++ neg)%list.
Proof.
  intros Hin. unfold registered in Hin. cbn [In] in Hin. unfold driverPool.
  destruct Hin as [<-|[<-|[<-|[<-|[]]]]];
    (eexists; eexists;
     split; [reflexivity|]; split; [reflexivity|];
     split; [destruct (includes trendDescription "рост");
             [reflexivity|];
             destruct (includes trendDescription "снижение"); reflexivity|];
     split; [cbn; lia|]; split; [cbn; lia|]; cbn [app]; nodup_strings).
Qed.

(** C9.  For a registered category, any description and any draws,
    [identifyDrivers] returns two different strings of the pool the
    description selects: the positive pool when the description contains
    "рост", otherwise the negative pool when it contains "снижение",
    otherwise both pools together.  The two strings are the front of a
    permutation of that pool. *)
Theorem identifyDrivers_two_distinct
  (kpiId trendDescription : string) (rnd : list nat) :
  In kpiId registered ->
  exists pos neg pool d1 d2,
    lookup kpiId positiveDrivers = Some pos
    /\ lookup kpiId negativeDrivers = Some neg
    /\ pool = (if includes trendDescription "рост" then pos
               else if includes trendDescription "снижение" then neg
               else (pos ++ neg)%list)
    /\ identifyDrivers kpiId trendDescription rnd = Normal [d1; d2]
    /\ d1 <> d2 /\ In d1 pool /\ In d2 pool
    /\ (exists p, Permutation pool p /\ [d1; d2] = firstn 2 p).
Proof.
  intros Hin.
  destruct (@driverPool_registered kpiId trendDescription Hin)
    as (pos & neg & Hpos & Hneg & Hpool & Lpos & Lneg & Hnd).
  set (pool := if includes trendDescription "рост" then pos
               else if includes trendDescription "снижение" then neg
               else (pos ++ neg)%list) in *.
  assert (Hlen : (2 <= List.length pool)%nat).
  { unfold pool. destruct (includes trendDescription "рост"); [assumption|].
    destruct (includes trendDescription "снижение"); [assumption|].
    rewrite length_app. lia. }
  assert (Hnd' : NoDup pool).
  { unfold pool. destruct (includes trendDescription "рост");
      [now apply NoDup_app_remove_r in Hnd|].
    destruct (includes trendDescription "снижение");
      [now apply NoDup_app_remove_l in Hnd | assumption]. }
  destruct (@two_of_shuffle rnd pool Hlen Hnd') as (d1 & d2 & E & Hne & H1 & H2).
  exists pos, neg, pool, d1, d2.
  repeat (split; [first [assumption | reflexivity]|]).
  split.
  - unfold identifyDrivers. rewrite Hpool. cbn [bind]. now rewrite E.
  - repeat (split; [assumption|]).
    exists (shuffle rnd pool). split; [apply shuffle_Permutation | now rewrite E].
Qed.

Lemma identifyDrivers_two_distinct_witness :
  exists pos neg pool d1 d2,
    lookup "sales" positiveDrivers = Some pos
    /\ lookup "sales" negativeDrivers = Some neg
    /\ pool = (if includes strongDecline "рост" then pos
               else if includes strongDecline "снижение" then neg
               else (pos ++ neg)%list)
    /\ identifyDrivers "sales" strongDecline [1%nat; 0%nat] = Normal [d1; d2]
    /\ d1 <> d2 /\ In d1 pool /\ In d2 pool
    /\ (exists p, Permutation pool p /\ [d1; d2] = firstn 2 p).
Proof.
  apply (@identifyDrivers_two_distinct "sales" strongDecline [1%nat; 0%nat]).
  unfold registered. cbn. tauto.
Defined.

(** The pipeline on a registered category returns, whatever the series. *)
Lemma performAiAnalysis_returns {num : Type} `{Number num}
  (data : list num) (kpiId : string) (rnd : list nat) :
  In kpiId registered ->
  exists drivers,
    performAiAnalysis data kpiId rnd
    = Normal {| data := data;
                trend := detectTrend data;
                forecast :=
                  createForecast data (line (detectTrend data)) defaultPeriods;
                drivers := drivers |}.
Proof.
  intros Hin. unfold performAiAnalysis, identifyDrivers.
  destruct (@driverPool_registered kpiId (description (detectTrend data)) Hin)
    as (pos & neg & _ & _ & Hpool & _).
  rewrite Hpool. cbn [bind]. eexists. reflexivity.
Qed.

Section ShortRuns.
Local Open Scope float_scope.


End ShortRuns.


(** * Beyond the numbers of the specification *)

(** ** Unknown categories *)

Lemma lookup_registered (kpiId : string) :
  (exists pos, lookup kpiId positiveDrivers = Some pos)
  <-> In kpiId registered.
Proof.
  unfold registered, positiveDrivers. cbn [lookup In]. split.
  - intros [pos E].
    destruct (String.eqb_spec "revenue" kpiId) as [->|_]; [tauto|].
    destruct (String.eqb_spec "sales" kpiId) as [->|_]; [tauto|].
    destruct (String.eqb_spec "new_clients" kpiId) as [->|_]; [tauto|].
    destruct (String.eqb_spec "conversion" kpiId) as [->|_]; [tauto|].
    discriminate.
  - intros [<-|[<-|[<-|[<-|[]]]]]; eexists; reflexivity.
Qed.

Lemma lookup_negative_registered (kpiId : string) :
  (exists neg, lookup kpiId negativeDrivers = Some neg)
  <-> In kpiId registered.
Proof.
  unfold registered, negativeDrivers. cbn [lookup In]. split.
  - intros [neg E].
    destruct (String.eqb_spec "revenue" kpiId) as [->|_]; [tauto|].
    destruct (String.eqb_spec "sales" kpiId) as [->|_]; [tauto|].
    destruct (String.eqb_spec "new_clients" kpiId) as [->|_]; [tauto|].
    destruct (String.eqb_spec "conversion" kpiId) as [->|_]; [tauto|].
    discriminate.
  - intros [<-|[<-|[<-|[<-|[]]]]]; eexists; reflexivity.
Qed.

Lemma driverPool_unregistered (kpiId trendDescription : string) :
  ~ In kpiId registered -> driverPool kpiId trendDescription = Throw TypeError.
Proof.
  intros Hnot. unfold driverPool.
  destruct (lookup kpiId positiveDrivers) as [pos|] eqn:Ep.
  { exfalso. apply Hnot. apply lookup_registered. now exists pos. }
  destruct (lookup kpiId negativeDrivers) as [neg|] eqn:En.
  { exfalso. apply Hnot. apply lookup_negative_registered. now exists neg. }
  destruct (includes trendDescription "рост"); [reflexivity|].
  destruct (includes trendDescription "снижение"); reflexivity.
Qed.

(** X3.  At every instance of the numbers, [performAiAnalysis] throws a
    [TypeError] exactly when the category has no pool of drivers: for any
    other [kpiId] than the four registered ones it throws, whatever the
    series and the draws, and for the four it returns. *)
Theorem performAiAnalysis_throws_iff_unregistered
  (num : Type) (N : Number num) (data : list num) (kpiId : string)
  (rnd : list nat) :
  (performAiAnalysis data kpiId rnd = Throw TypeError
   <-> ~ In kpiId registered)
  /\ ((exists r, performAiAnalysis data kpiId rnd = Normal r)
      <-> In kpiId registered).
Proof.
  assert (Hyes : In kpiId registered ->
                 exists r, performAiAnalysis data kpiId rnd = Normal r).
  { intros Hin.
    destruct (@performAiAnalysis_returns num N data kpiId rnd Hin) as [d E].
    eexists. exact E. }
  assert (Hno : ~ In kpiId registered ->
                performAiAnalysis data kpiId rnd = Throw TypeError).
  { intros Hnot. unfold performAiAnalysis, identifyDrivers.
    now rewrite driverPool_unregistered. }
  assert (Hdec : In kpiId registered \/ ~ In kpiId registered).
  { destruct (in_dec string_dec kpiId registered); [now left | now right]. }
  split; split.
  - intros E Hin. destruct (Hyes Hin) as [r Er]. congruence.
  - exact Hno.
  - intros [r Er]. destruct Hdec as [Hin|Hnot]; [assumption|].
    rewrite (Hno Hnot) in Er. discriminate.
  - exact Hyes.
Qed.

(** ** The selection of KPIs *)

Lemma includes_id (kpiId : string) (l : list string) :
  existsb (String.eqb kpiId) l = true <-> In kpiId l.
Proof.
  rewrite existsb_exists. split.
  - intros (x & Hx & E). apply String.eqb_eq in E. now subst.
  - intros Hin. exists kpiId. split; [assumption | apply String.eqb_refl].
Qed.

Lemma filter_out_absent (kpiId : string) (l : list string) :
  ~ In kpiId l -> filter (fun id => negb (String.eqb id kpiId)) l = l.
Proof.
  induction l as [|x l IH]; intros Hnot; [reflexivity|].
  cbn [filter]. destruct (String.eqb_spec x kpiId) as [->|Hne].
  - exfalso. apply Hnot. now left.
  - cbn [negb]. rewrite IH; [reflexivity|]. intros Hin. apply Hnot. now right.
Qed.

(** One click, from any selection. *)
Lemma selection_step (prev : list string) (kpiId : string) :
  ((List.length prev <= MAX_SELECTED_KPIS)%nat ->
   (List.length (handleSelectionChange prev kpiId) <= MAX_SELECTED_KPIS)%nat)
  /\ (NoDup prev -> NoDup (handleSelectionChange prev kpiId))
  /\ (forall other : string,
        other <> kpiId ->
        (In other (handleSelectionChange prev kpiId) <-> In other prev))
  /\ (In kpiId prev -> ~ In kpiId (handleSelectionChange prev kpiId))
  /\ (~ In kpiId prev -> (List.length prev < MAX_SELECTED_KPIS)%nat ->
      handleSelectionChange prev kpiId = (prev ++ [kpiId])%list
      /\ handleSelectionChange (handleSelectionChange prev kpiId) kpiId
         = prev)
  /\ (~ In kpiId prev -> (MAX_SELECTED_KPIS <= List.length prev)%nat ->
      handleSelectionChange prev kpiId = prev).
Proof.
  unfold handleSelectionChange.
  destruct (existsb (String.eqb kpiId) prev) eqn:E.
  - apply includes_id in E.
    split; [|split; [|split; [|split; [|split]]]].
    + intros Hlen.
      pose proof (filter_length_le
                    (fun id => negb (String.eqb id kpiId)) prev). lia.
    + intros Hnd. now apply NoDup_filter.
    + intros other Hne. rewrite filter_In. split; [tauto|].
      intros Hin. split; [assumption|].
      destruct (String.eqb_spec other kpiId); [contradiction | reflexivity].
    + intros _ Hin. apply filter_In in Hin. destruct Hin as [_ Hin].
      rewrite String.eqb_refl in Hin. discriminate.
    + intros Hnot. contradiction.
    + intros Hnot. contradiction.
  - assert (Hnot : ~ In kpiId prev).
    { intros Hin. apply includes_id in Hin. congruence. }
    destruct (List.length prev <? MAX_SELECTED_KPIS)%nat eqn:L.
    + apply Nat.ltb_lt in L.
      split; [|split; [|split; [|split; [|split]]]].
      * intros _. rewrite length_app. cbn [List.length]. lia.
      * intros Hnd. apply NoDup_app; [assumption | | ].
        -- constructor; [intros [] | constructor].
        -- intros x Hx [<-|[]]. contradiction.
      * intros other Hne. rewrite in_app_iff. cbn [In]. split; [|tauto].
        intros [Hin|[E'|[]]]; [assumption | congruence].
      * intros Hin. contradiction.
      * intros _ _. split; [reflexivity|].
        assert (Ein : existsb (String.eqb kpiId) (prev ++ [kpiId]) = true).
        { apply includes_id. apply in_or_app. right. now left. }
        rewrite Ein, filter_app. cbn [filter].
        rewrite String.eqb_refl. cbn [negb].
        rewrite filter_out_absent by assumption. apply app_nil_r.
      * intros _ Hge. lia.
    + apply Nat.ltb_ge in L.
      split; [|split; [|split; [|split; [|split]]]]; try tauto.
      intros _ Hlt. lia.
Qed.

(** X4.  One click on a KPI, from any selection: the selection never grows
    beyond four (when it had at most four), keeps having no repeated id,
    and the clicked id leaves when it was selected and enters, last, when
    it was not and fewer than four were; every other id stays as it was.
    A click that adds an id is undone by a second click on it. *)
Theorem handleSelectionChange_invariants (prev : list string)
  (kpiId : string) :
  ((List.length prev <= MAX_SELECTED_KPIS)%nat ->
   (List.length (handleSelectionChange prev kpiId) <= MAX_SELECTED_KPIS)%nat)
  /\ (NoDup prev -> NoDup (handleSelectionChange prev kpiId))
  /\ (forall other : string,
        other <> kpiId ->
        (In other (handleSelectionChange prev kpiId) <-> In other prev))
  /\ (In kpiId prev -> ~ In kpiId (handleSelectionChange prev kpiId))
  /\ (~ In kpiId prev -> (List.length prev < MAX_SELECTED_KPIS)%nat ->
      handleSelectionChange prev kpiId = (prev ++ [kpiId])%list
      /\ handleSelectionChange (handleSelectionChange prev kpiId) kpiId
         = prev)
  /\ (~ In kpiId prev -> (MAX_SELECTED_KPIS <= List.length prev)%nat ->
      handleSelectionChange prev kpiId = prev).
Proof. exact (selection_step prev kpiId). Qed.

(** X5.  Whatever sequence of KPIs is clicked, a selection that starts with
    at most four ids never holds more than four. *)
Theorem selection_never_exceeds_limit (clicks initial : list string) :
  (List.length initial <= MAX_SELECTED_KPIS)%nat ->
  (List.length (fold_left handleSelectionChange clicks initial)
   <= MAX_SELECTED_KPIS)%nat
  /\ (NoDup initial ->
      NoDup (fold_left handleSelectionChange clicks initial)).
Proof.
  revert initial. induction clicks as [|c clicks IH]; intros initial Hlen.
  - split; [exact Hlen | tauto].
  - cbn [fold_left].
    destruct (selection_step initial c) as (Hl & Hn & _).
    destruct (IH (handleSelectionChange initial c) (Hl Hlen)) as [IH1 IH2].
    split; [exact IH1|]. intros Hnd. apply IH2, Hn, Hnd.
Qed.

Lemma selection_never_exceeds_limit_witness :
  (List.length
     (fold_left handleSelectionChange
        ["a"; "b"; "c"; "d"; "e"; "a"; "e"] ["a"; "b"]) <= 4)%nat.
Proof.
  apply (@selection_never_exceeds_limit
           ["a"; "b"; "c"; "d"; "e"; "a"; "e"] ["a"; "b"]).
  unfold MAX_SELECTED_KPIS. simpl. lia.
Defined.

(** ** The KPI calculator *)

Lemma mapOption_Some {A B : Type} (f : A -> option B) (l : list A) :
  (forall a, In a l -> exists b, f a = Some b) ->
  exists bs,
    mapOption f l = Some bs
    /\ List.length bs = List.length l
    /\ (forall b, In b bs -> exists a, In a l /\ f a = Some b)
    /\ (forall (g : B -> string) (h : A -> string),
          (forall a b, f a = Some b -> g b = h a) -> map g bs = map h l).
Proof.
  induction l as [|a l IH]; intros Hall.
  - exists []. repeat split; try reflexivity. intros b [].
  - destruct (Hall a (or_introl eq_refl)) as [b Eb].
    destruct IH as (bs & E & L & Hin & Hmap).
    { intros a' Ha'. apply Hall. now right. }
    exists (b :: bs). cbn [mapOption]. rewrite Eb, E.
    split; [reflexivity|]. split; [cbn; now rewrite L|]. split.
    + intros b' [<-|Hb'].
      * exists a. split; [now left | assumption].
      * destruct (Hin b' Hb') as (a' & Ha' & Ea'). exists a'.
        split; [now right | assumption].
    + intros g h Hgh. cbn [map]. rewrite (Hgh a b Eb). f_equal.
      now apply Hmap.
Qed.

Lemma ownProperty_known {num : Type} `{Number num} (k : string) :
  (exists f, ownProperty k kpiFormulas = Some f) <-> In k knownKpis.
Proof.
  unfold knownKpis, kpiFormulas. cbn [ownProperty In]. split.
  - intros [f E].
    destruct (String.eqb_spec "revenue" k) as [->|_]; [tauto|].
    destruct (String.eqb_spec "salesCount" k) as [->|_]; [tauto|].
    destruct (String.eqb_spec "profit" k) as [->|_]; [tauto|].
    destruct (String.eqb_spec "roi" k) as [->|_]; [tauto|].
    destruct (String.eqb_spec "cpa" k) as [->|_]; [tauto|].
    discriminate.
  - intros [<-|[<-|[<-|[<-|[<-|[]]]]]]; eexists; reflexivity.
Qed.

Lemma nameOf_unknown (k : string) : ~ In k knownKpis -> nameOf k = k.
Proof.
  intros Hnot. unfold nameOf, kpiNames. cbn [ownProperty].
  unfold knownKpis in Hnot. cbn [In] in Hnot.
  destruct (String.eqb_spec "revenue" k) as [E|_]; [tauto|].
  destruct (String.eqb_spec "salesCount" k) as [E|_]; [tauto|].
  destruct (String.eqb_spec "profit" k) as [E|_]; [tauto|].
  destruct (String.eqb_spec "roi" k) as [E|_]; [tauto|].
  destruct (String.eqb_spec "cpa" k) as [E|_]; [tauto|].
  reflexivity.
Qed.

Lemma kpiResult_defined {num : Type} `{Number num}
  (base alt : BaseMetrics num) (k : string) :
  inherited k = false ->
  exists r,
    kpiResult base alt k = Some r /\ key r = k
    /\ (~ In k knownKpis ->
        name r = k /\ baseValue r = ofZ 0 /\ alternativeValue r = ofZ 0)
    /\ (alt = base -> alternativeValue r = baseValue r).
Proof.
  intros Hinh. unfold kpiResult. rewrite Hinh.
  destruct (ownProperty k kpiFormulas) as [f|] eqn:E.
  - eexists. split; [reflexivity|]. split; [reflexivity|]. split.
    + intros Hnot. exfalso. apply Hnot. apply ownProperty_known. now exists f.
    + intros ->. reflexivity.
  - eexists. split; [reflexivity|]. split; [reflexivity|]. split.
    + intros Hnot. cbn [name baseValue alternativeValue].
      now rewrite nameOf_unknown.
    + intros _. reflexivity.
Qed.

(** X6.  At every instance of the numbers, for keys that are not members
    of [Object.prototype]: [calculateKpis] returns one entry per requested
    key, in the order of the request and under that key; a key with no
    formula gets an entry named after the key with both values 0; and
    with a scenario that has no key every alternative value is the base
    value. *)
Theorem calculateKpis_entries
  (num : Type) (N : Number num) (baseMetrics : BaseMetrics num)
  (scenario : Scenario num) (kpiKeys : list string) :
  (forall k, In k kpiKeys -> inherited k = false) ->
  exists results,
    calculateKpis baseMetrics scenario kpiKeys = Some results
    /\ map (@key num) results = kpiKeys
    /\ (forall r, In r results -> ~ In (key r) knownKpis ->
        name r = key r /\ baseValue r = ofZ 0 /\ alternativeValue r = ofZ 0)
    /\ (scenario = emptyScenario num ->
        forall r, In r results -> alternativeValue r = baseValue r).
Proof.
  intros Hkeys. unfold calculateKpis.
  set (alt := alternativeMetrics baseMetrics scenario).
  destruct (@mapOption_Some string (KpiResult num)
              (kpiResult baseMetrics alt) kpiKeys)
    as (results & E & L & Hin & Hmap).
  { intros k Hk.
    destruct (@kpiResult_defined num N baseMetrics alt k (Hkeys k Hk))
      as (r & Er & _). now exists r. }
  exists results. split; [exact E|]. split.
  - rewrite (Hmap (@key num) (fun k => k)); [apply map_id|].
    intros k r Er.
    destruct (inherited k) eqn:Hi;
      [unfold kpiResult in Er; rewrite Hi in Er; discriminate|].
    destruct (@kpiResult_defined num N baseMetrics alt k Hi)
      as (r' & Er' & Ek & _). congruence.
  - split.
    + intros r Hr Hnot. destruct (Hin r Hr) as (k & Hk & Er).
      destruct (@kpiResult_defined num N baseMetrics alt k (Hkeys k Hk))
        as (r' & Er' & Ek & Hzero & _).
      assert (r' = r) by congruence. subst r'. rewrite Ek in *.
      now apply Hzero.
    + intros Hsc r Hr. destruct (Hin r Hr) as (k & Hk & Er).
      destruct (@kpiResult_defined num N baseMetrics alt k (Hkeys k Hk))
        as (r' & Er' & _ & _ & Hsame).
      assert (r' = r) by congruence. subst r'. apply Hsame.
      unfold alt. rewrite Hsc. destruct baseMetrics. reflexivity.
Qed.

Lemma calculateKpis_entries_witness :
  exists results,
    calculateKpis (realMetrics 10000 (5 / 100) 1500 200000)
      (emptyScenario exact) ["revenue"; "oee"]
    = Some results
    /\ map (@key exact) results = ["revenue"; "oee"].
Proof.
  destruct (@calculateKpis_entries exact exact_Number
              (realMetrics 10000 (5 / 100) 1500 200000)
              (emptyScenario exact) ["revenue"; "oee"])
    as (results & E & K & _).
  - intros k [<-|[<-|[]]]; reflexivity.
  - exists results. split; assumption.
Defined.

Section KpisExact.
Local Open Scope R_scope.

Lemma alternative_real (t c a k : R) (ft fc fa fk : option R) :
  alternativeMetrics (realMetrics t c a k) (realScenario ft fc fa fk)
  = realMetrics (t * factorR ft) (c * factorR fc) (a * factorR fa)
                (k * factorR fk).
Proof.
  unfold alternativeMetrics, realMetrics, realScenario.
  cbn [traffic conversionRate avgOrderValue costs trafficFactor
       conversionRateFactor avgOrderValueFactor costsFactor].
  destruct ft, fc, fa, fk; cbn; rewrite ?Rmult_1_r; reflexivity.
Qed.

Lemma revenue_real (t c a k : R) :
  revenueFormula (realMetrics t c a k) = Some (t * c * a).
Proof. reflexivity. Qed.

Lemma salesCount_real (t c a k : R) :
  salesCountFormula (realMetrics t c a k) = Some (t * c).
Proof. reflexivity. Qed.

Lemma profit_real (t c a k : R) :
  profitFormula (realMetrics t c a k) = Some (t * c * a - k).
Proof. reflexivity. Qed.

Lemma roi_real (t c a k : R) :
  roiFormula (realMetrics t c a k) = Some (roiR t c a k).
Proof.
  unfold roiFormula, roiR. rewrite profit_real. cbn [costs realMetrics].
  change (ofZ 0 : exact) with (Some 0 : exact). rewrite eqb_exact.
  destruct (Req_dec_T k 0) as [E|Hne]; [reflexivity|].
  now rewrite div_exact.
Qed.

Lemma cpa_real (t c a k : R) :
  cpaFormula (realMetrics t c a k) = Some (cpaR t c k).
Proof.
  unfold cpaFormula, cpaR. rewrite salesCount_real. cbn [costs realMetrics].
  change (ofZ 0 : exact) with (Some 0 : exact). rewrite eqb_exact.
  destruct (Req_dec_T (t * c) 0) as [E|Hne]; [reflexivity|].
  now rewrite div_exact.
Qed.

Lemma kpiResult_real (t c a k t' c' a' k' : R) (key0 : string) :
  inherited key0 = false ->
  exists r,
    kpiResult (realMetrics t c a k) (realMetrics t' c' a' k') key0 = Some r
    /\ realEntry r.
Proof.
  intros Hinh. unfold kpiResult. rewrite Hinh.
  unfold kpiFormulas. cbn [ownProperty].
  destruct (String.eqb "revenue" key0);
    [eexists; split; [reflexivity|]; do 2 eexists; split; reflexivity|].
  destruct (String.eqb "salesCount" key0);
    [eexists; split; [reflexivity|]; do 2 eexists; split; reflexivity|].
  destruct (String.eqb "profit" key0);
    [eexists; split; [reflexivity|]; do 2 eexists; split; reflexivity|].
  destruct (String.eqb "roi" key0);
    [eexists; split; [reflexivity|]; do 2 eexists;
     cbn [baseValue alternativeValue]; split; apply roi_real|].
  destruct (String.eqb "cpa" key0);
    [eexists; split; [reflexivity|]; do 2 eexists;
     cbn [baseValue alternativeValue]; split; apply cpa_real|].
  eexists; split; [reflexivity|]; do 2 eexists; split; reflexivity.
Qed.

End KpisExact.

(** X7.  In exact arithmetic [calculateKpis] never returns NaN: for
    metrics and multipliers that are real numbers, and keys that are not
    members of [Object.prototype], both values of every entry are real
    numbers.  The two quotients are guarded: the return on investment is 0
    when the costs are 0 and the cost per acquisition is 0 when there is
    no sale. *)
Theorem calculateKpis_never_nan
  (t c a k : R) (ft fc fa fk : option R) (kpiKeys : list string) :
  (forall key0, In key0 kpiKeys -> inherited key0 = false) ->
  exists results,
    calculateKpis (realMetrics t c a k) (realScenario ft fc fa fk) kpiKeys
    = Some results
    /\ List.length results = List.length kpiKeys
    /\ (forall r, In r results -> realEntry r)
    /\ roiFormula (realMetrics t c a 0) = Some 0%R
    /\ ((t * c)%R = 0%R -> cpaFormula (realMetrics t c a k) = Some 0%R).
Proof.
  intros Hkeys. unfold calculateKpis. rewrite alternative_real.
  destruct (@mapOption_Some string (KpiResult exact)
              (kpiResult (realMetrics t c a k)
                 (realMetrics (t * factorR ft) (c * factorR fc)
                    (a * factorR fa) (k * factorR fk))) kpiKeys)
    as (results & E & L & Hin & _).
  { intros key0 Hk.
    destruct (@kpiResult_real t c a k (t * factorR ft)%R (c * factorR fc)%R
                (a * factorR fa)%R (k * factorR fk)%R key0 (Hkeys key0 Hk))
      as (r & Er & _). now exists r. }
  exists results. split; [exact E|]. split; [exact L|]. split.
  - intros r Hr. destruct (Hin r Hr) as (key0 & Hk & Er).
    destruct (@kpiResult_real t c a k (t * factorR ft)%R (c * factorR fc)%R
                (a * factorR fa)%R (k * factorR fk)%R key0 (Hkeys key0 Hk))
      as (r' & Er' & Hreal).
    assert (r' = r) by congruence. now subst r'.
  - split.
    + rewrite roi_real. unfold roiR.
      destruct (Req_dec_T 0 0) as [_|Hne]; [reflexivity|].
      exfalso. apply Hne. reflexivity.
    + intros Hz. rewrite cpa_real. unfold cpaR.
      destruct (Req_dec_T (t * c) 0); [reflexivity | contradiction].
Qed.

Lemma calculateKpis_never_nan_witness :
  exists results,
    calculateKpis (realMetrics 10000 (5 / 100) 1500 200000)
      (realScenario (Some (12 / 10)%R) None None (Some (9 / 10)%R))
      ["revenue"; "profit"; "roi"; "cpa"]
    = Some results
    /\ (forall r, In r results -> realEntry r).
Proof.
  destruct (@calculateKpis_never_nan 10000 (5 / 100) 1500 200000
              (Some (12 / 10)%R) None None (Some (9 / 10)%R)
              ["revenue"; "profit"; "roi"; "cpa"])
    as (results & E & _ & Hreal & _).
  - intros key0 [<-|[<-|[<-|[<-|[]]]]]; reflexivity.
  - exists results. split; assumption.
Defined.

(** X8.  In exact arithmetic, how a scenario moves the five KPIs.  With
    multipliers [ft], [fc], [fa] and [fk] for traffic, conversion, order
    value and costs (1 for a metric the scenario leaves out): the revenue
    is multiplied by [ft * fc * fa], the number of sales by [ft * fc], the
    alternative profit is the alternative revenue minus [fk] times the
    costs, and, the quotients being defined, the return on investment
    times the costs is the profit and the cost per acquisition times the
    sales is the costs. *)
Theorem calculateKpis_scenario_laws
  (t c a k : R) (ft fc fa fk : option R) :
  exists rev sales profit roi cpa rev' sales' profit' roi' cpa' : R,
    calculateKpis (realMetrics t c a k) (realScenario ft fc fa fk) knownKpis
    = Some
        [ {| key := "revenue"; name := "Выручка";
             baseValue := Some rev; alternativeValue := Some rev' |};
          {| key := "salesCount"; name := "Кол-во продаж";
             baseValue := Some sales; alternativeValue := Some sales' |};
          {| key := "profit"; name := "Прибыль";
             baseValue := Some profit; alternativeValue := Some profit' |};
          {| key := "roi"; name := "ROI";
             baseValue := Some roi; alternativeValue := Some roi' |};
          {| key := "cpa"; name := "CPA (Стоимость привлечения)";
             baseValue := Some cpa; alternativeValue := Some cpa' |} ]
    /\ rev = (sales * a)%R
    /\ profit = (rev - k)%R
    /\ (k <> 0%R -> (roi * k)%R = profit)
    /\ (sales <> 0%R -> (cpa * sales)%R = k)
    /\ rev' = (factorR ft * factorR fc * factorR fa * rev)%R
    /\ sales' = (factorR ft * factorR fc * sales)%R
    /\ profit' = (rev' - factorR fk * k)%R
    /\ ((k * factorR fk)%R <> 0%R -> (roi' * (k * factorR fk))%R = profit')
    /\ (sales' <> 0%R -> (cpa' * sales')%R = (k * factorR fk)%R).
Proof.
  set (t' := (t * factorR ft)%R). set (c' := (c * factorR fc)%R).
  set (a' := (a * factorR fa)%R). set (k' := (k * factorR fk)%R).
  exists (t * c * a)%R, (t * c)%R, (t * c * a - k)%R, (roiR t c a k),
    (cpaR t c k), (t' * c' * a')%R, (t' * c')%R, (t' * c' * a' - k')%R,
    (roiR t' c' a' k'), (cpaR t' c' k').
  split.
  - unfold calculateKpis. rewrite alternative_real. fold t' c' a' k'.
    unfold knownKpis. cbn [mapOption].
    unfold kpiResult. cbn [inherited existsb objectPrototypeKeys].
    cbn -[roiFormula cpaFormula realMetrics].
    rewrite !roi_real, !cpa_real. reflexivity.
  - unfold roiR, cpaR, t', c', a', k'.
    repeat split; try ring.
    + intros Hk. destruct (Req_dec_T k 0); [contradiction|].
      unfold Rdiv. rewrite Rmult_assoc, Rinv_l by assumption. ring.
    + intros Hs. destruct (Req_dec_T (t * c) 0); [contradiction|].
      unfold Rdiv. rewrite Rmult_assoc, Rinv_l by assumption. ring.
    + intros Hk. destruct (Req_dec_T (k * factorR fk) 0); [contradiction|].
      unfold Rdiv. rewrite Rmult_assoc, Rinv_l by assumption. ring.
    + intros Hs.
      destruct (Req_dec_T (t * factorR ft * (c * factorR fc)) 0) as [E|Hne].
      * exfalso. apply Hs. rewrite <- E. ring.
      * unfold Rdiv. rewrite Rmult_assoc, Rinv_l by assumption. ring.
Qed.

(** ** Where the forecast is NaN *)

Section ForecastExact.
Local Open Scope R_scope.

Lemma get_reals_Z (ys : list R) (z : Z) :
  get (reals ys) z
  = if (z <? 0)%Z then None
    else if (z <? Z.of_nat (List.length ys))%Z
         then Some (at_ ys (Z.to_nat z)) else None.
Proof.
  destruct (z <? 0)%Z eqn:E0; [unfold get; now rewrite E0|].
  apply Z.ltb_ge in E0.
  destruct (z <? Z.of_nat (List.length ys))%Z eqn:E1.
  - apply Z.ltb_lt in E1. rewrite <- (Z2Nat.id z) at 1 by assumption.
    apply get_reals. lia.
  - apply Z.ltb_ge in E1. unfold get.
    destruct (z <? 0)%Z eqn:E2; [reflexivity|].
    apply nth_overflow. rewrite length_reals. lia.
Qed.

(** Step [k] of [createForecast], at every instance: the entry of
    [values] is the sum the loop pushes. *)
Lemma values_at {num : Type} `{Number num}
  (data trendLine : list num) (horizon k : Z) :
  (1 <= k <= horizon)%Z ->
  get (values (createForecast data trendLine horizon)) (k - 1)
  = Js.add
      (Js.add (get trendLine (Z.of_nat (List.length data) - 1))
              (Js.mul (Js.sub (get trendLine (Z.of_nat (List.length data) - 1))
                              (get trendLine (Z.of_nat (List.length data) - 2)))
                      (ofZ k)))
      (Js.sub
         (get data (seasonalIndex (Z.of_nat (List.length data)) horizon k))
         (get trendLine
            (seasonalIndex (Z.of_nat (List.length data)) horizon k))).
Proof.
  intros Hk. unfold get at 1.
  destruct (k - 1 <? 0)%Z eqn:E; [apply Z.ltb_lt in E; lia|].
  unfold createForecast. cbn [values].
  set (f := fun i : Z => _).
  rewrite nth_indep with (d' := f 0%Z)
    by (rewrite length_map, length_steps; lia).
  rewrite map_nth, nth_steps by lia.
  unfold f. replace (Z.of_nat (S (Z.to_nat (k - 1)))) with k by lia.
  reflexivity.
Qed.

Lemma forecast_value_real (ds ls : list R) (h k : Z) :
  List.length ls = List.length ds -> (2 <= List.length ds)%nat ->
  (1 <= k <= h)%Z ->
  get (values (createForecast (reals ds) (reals ls) h)) (k - 1)
  = if (k <=? h - Z.of_nat (List.length ds))%Z then None
    else Some (forecastR ds ls h k).
Proof.
  intros Hlen Hn Hk. rewrite values_at by assumption.
  rewrite length_reals. unfold seasonalIndex.
  set (n := Z.of_nat (List.length ds)).
  assert (Hn' : (2 <= n)%Z) by (unfold n; lia).
  rewrite !get_reals_Z. rewrite Hlen. fold n.
  destruct (n - 1 <? 0)%Z eqn:E1; [apply Z.ltb_lt in E1; lia|].
  destruct (n - 1 <? n)%Z eqn:E2; [|apply Z.ltb_ge in E2; lia].
  destruct (n - 2 <? 0)%Z eqn:E3; [apply Z.ltb_lt in E3; lia|].
  destruct (n - 2 <? n)%Z eqn:E4; [|apply Z.ltb_ge in E4; lia].
  destruct (k <=? h - n)%Z eqn:E5.
  - apply Z.leb_le in E5.
    destruct (n - (h - k) - 1 <? 0)%Z eqn:E6; [|apply Z.ltb_ge in E6; lia].
    reflexivity.
  - apply Z.leb_gt in E5.
    destruct (n - (h - k) - 1 <? 0)%Z eqn:E6; [apply Z.ltb_lt in E6; lia|].
    destruct (n - (h - k) - 1 <? n)%Z eqn:E7; [|apply Z.ltb_ge in E7; lia].
    unfold forecastR. fold n.
    replace (n - h + k - 1)%Z with (n - (h - k) - 1)%Z by lia.
    reflexivity.
Qed.

Lemma values_by_step (ds ls : list R) (h : Z) :
  List.length ls = List.length ds -> (2 <= List.length ds)%nat ->
  values (createForecast (reals ds) (reals ls) h)
  = map (fun k => if (k <=? h - Z.of_nat (List.length ds))%Z then None
                  else Some (forecastR ds ls h k))
        (steps h).
Proof.
  intros Hlen Hn.
  apply nth_ext with (d := None) (d' := None).
  - now rewrite length_values, length_map, length_steps.
  - intros i Hi. rewrite length_values in Hi.
    pose proof (@forecast_value_real ds ls h (Z.of_nat (S i)) Hlen Hn) as V.
    unfold get in V at 1.
    replace (Z.of_nat (S i) - 1)%Z with (Z.of_nat i) in V by lia.
    destruct (Z.of_nat i <? 0)%Z eqn:E; [apply Z.ltb_lt in E; lia|].
    rewrite Nat2Z.id in V.
    change (@Js.nan exact exact_Number) with (@None R) in V.
    rewrite V by lia.
    set (f := fun k : Z => _).
    rewrite nth_indep with (d' := f 0%Z)
      by (rewrite length_map, length_steps; lia).
    rewrite map_nth, nth_steps by lia. reflexivity.
Qed.

End ForecastExact.

(** X9.  In exact arithmetic, for a series and a trend line of [n >= 2]
    real numbers and a horizon [h >= 1]: forecast step [k] is NaN exactly
    when [k <= h - n], and otherwise it is the real number
    [line[n-1] + (line[n-1] - line[n-2]) * k + (series[j] - line[j])] with
    [j = n - h + k - 1].  So the forecast holds [h - n] values NaN at its
    front when the series is shorter than the horizon, and none when it
    is not. *)
Theorem createForecast_nan_positions (ds ls : list R) (h : Z) :
  List.length ls = List.length ds -> (2 <= List.length ds)%nat ->
  (1 <= h)%Z ->
  values (createForecast (reals ds) (reals ls) h)
  = map (fun k => if (k <=? h - Z.of_nat (List.length ds))%Z then None
                  else Some (forecastR ds ls h k))
        (steps h)
  /\ ((h <= Z.of_nat (List.length ds))%Z ->
      values (createForecast (reals ds) (reals ls) h)
      = reals (map (forecastR ds ls h) (steps h)))
  /\ ((Z.of_nat (List.length ds) < h)%Z ->
      get (values (createForecast (reals ds) (reals ls) h)) 0 = None).
Proof.
  intros Hlen Hn Hh. split; [now apply values_by_step|]. split.
  - intros Hle. rewrite values_by_step by assumption.
    unfold reals. rewrite map_map. apply map_ext_in.
    intros k Hk. unfold steps in Hk. apply in_map_iff in Hk.
    destruct Hk as (i & <- & Hi). apply in_seq in Hi.
    destruct (Z.of_nat i <=? h - Z.of_nat (List.length ds))%Z eqn:E;
      [apply Z.leb_le in E; lia | reflexivity].
  - intros Hlt.
    pose proof (@forecast_value_real ds ls h 1 Hlen Hn) as V.
    change (1 - 1)%Z with 0%Z in V. rewrite V by lia.
    destruct (1 <=? h - Z.of_nat (List.length ds))%Z eqn:E;
      [reflexivity | apply Z.leb_gt in E; lia].
Qed.

Lemma createForecast_nan_positions_witness :
  values (createForecast (reals [1; 2; 4; 8]%R) (reals [1; 3; 5; 7]%R) 3)
  = reals (map (forecastR [1; 2; 4; 8]%R [1; 3; 5; 7]%R 3) (steps 3)).
Proof.
  apply (@createForecast_nan_positions [1; 2; 4; 8]%R [1; 3; 5; 7]%R 3);
    simpl; lia.
Defined.

(** ** The pipeline on real numbers *)

Section PipelineExact.
Local Open Scope R_scope.

Lemma length_fitted (ds : list R) : List.length (fitted ds) = List.length ds.
Proof. unfold fitted. now rewrite length_map, length_seq. Qed.

Lemma detectTrend_reals (ds : list R) :
  (2 <= List.length ds)%nat ->
  detectTrend (reals ds)
  = {| line := reals (fitted ds);
       description := describe (Some (olsSlope ds)) (Some (at_ ds 0)) |}.
Proof.
  intros Hn.
  pose proof (line_reals ds Hn) as L.
  pose proof (description_reals ds Hn) as D.
  destruct (detectTrend (reals ds)) as [l d]. cbn [line description] in L, D.
  subst l d. f_equal. unfold reals, fitted. now rewrite map_map.
Qed.

Lemma fitted_linear (a b : R) (n : nat) :
  (2 <= n)%nat -> fitted (linearSeries a b n) = linearSeries a b n.
Proof.
  intros Hn. unfold fitted. rewrite length_linearSeries.
  rewrite olsSlope_linear, olsIntercept_linear by assumption.
  unfold linearSeries. apply map_ext. intros i. ring.
Qed.

Lemma createForecast_reals (ds ls : list R) (h : Z) :
  List.length ls = List.length ds -> (2 <= List.length ds)%nat ->
  (1 <= h <= Z.of_nat (List.length ds))%Z ->
  createForecast (reals ds) (reals ls) h
  = {| values := reals (map (forecastR ds ls h) (steps h));
       avgForecast :=
         Some ((forecastR ds ls h 1 + forecastR ds ls h h) / 2) |}.
Proof.
  intros Hlen Hn Hh.
  assert (V : values (createForecast (reals ds) (reals ls) h)
              = reals (map (forecastR ds ls h) (steps h))).
  { rewrite values_by_step by assumption.
    unfold reals. rewrite map_map. apply map_ext_in.
    intros k Hk. unfold steps in Hk. apply in_map_iff in Hk.
    destruct Hk as (i & <- & Hi). apply in_seq in Hi.
    destruct (Z.of_nat i <=? h - Z.of_nat (List.length ds))%Z eqn:E;
      [apply Z.leb_le in E; lia | reflexivity]. }
  assert (F1 : get (values (createForecast (reals ds) (reals ls) h)) 0
               = Some (forecastR ds ls h 1)).
  { pose proof (@forecast_value_real ds ls h 1 Hlen Hn) as W.
    change (1 - 1)%Z with 0%Z in W. rewrite W by lia.
    destruct (1 <=? h - Z.of_nat (List.length ds))%Z eqn:E;
      [apply Z.leb_le in E; lia | reflexivity]. }
  assert (F2 : get (values (createForecast (reals ds) (reals ls) h)) (h - 1)
               = Some (forecastR ds ls h h)).
  { rewrite (@forecast_value_real ds ls h h Hlen Hn) by lia.
    destruct (h <=? h - Z.of_nat (List.length ds))%Z eqn:E;
      [apply Z.leb_le in E; lia | reflexivity]. }
  assert (A : avgForecast (createForecast (reals ds) (reals ls) h)
              = Some ((forecastR ds ls h 1 + forecastR ds ls h h) / 2)).
  { unfold createForecast at 1. cbn [avgForecast].
    fold (createForecast (reals ds) (reals ls) h).
    change (map _ (steps h))
      with (values (createForecast (reals ds) (reals ls) h)).
    rewrite length_values.
    replace (Z.of_nat (Z.to_nat h) - 1)%Z with (h - 1)%Z by lia.
    rewrite F1, F2.
    change (Js.add (Some (forecastR ds ls h 1)) (Some (forecastR ds ls h h)))
      with (Some (forecastR ds ls h 1 + forecastR ds ls h h) : exact).
    change (ofZ 2 : exact) with (Some 2 : exact).
    rewrite div_exact by lra. reflexivity. }
  destruct (createForecast (reals ds) (reals ls) h) as [v av].
  cbn [values avgForecast] in V, A. now subst.
Qed.

Lemma identifyDrivers_two (kpiId trendDescription : string) (rnd : list nat) :
  In kpiId registered ->
  exists d1 d2,
    identifyDrivers kpiId trendDescription rnd = Normal [d1; d2] /\ d1 <> d2.
Proof.
  intros Hin.
  destruct (@driverPool_registered kpiId trendDescription Hin)
    as (pos & neg & _ & _ & Hpool & Lpos & Lneg & Hnd).
  set (pool := if includes trendDescription "рост" then pos
               else if includes trendDescription "снижение" then neg
               else (pos ++ neg)%list) in *.
  assert (Hlen : (2 <= List.length pool)%nat).
  { unfold pool. destruct (includes trendDescription "рост"); [assumption|].
    destruct (includes trendDescription "снижение"); [assumption|].
    rewrite length_app. lia. }
  assert (Hnd' : NoDup pool).
  { unfold pool. destruct (includes trendDescription "рост");
      [now apply NoDup_app_remove_r in Hnd|].
    destruct (includes trendDescription "снижение");
      [now apply NoDup_app_remove_l in Hnd | assumption]. }
  destruct (@two_of_shuffle rnd pool Hlen Hnd') as (d1 & d2 & E & Hne & _).
  exists d1, d2. split; [|assumption].
  unfold identifyDrivers. rewrite Hpool. cbn [bind]. now rewrite E.
Qed.

Lemma pipeline_reals (ds : list R) (kpiId : string) (rnd : list nat) :
  (7 <= List.length ds)%nat -> In kpiId registered ->
  exists d1 d2,
    d1 <> d2
    /\ performAiAnalysis (reals ds) kpiId rnd
       = Normal
           {| data := reals ds;
              trend :=
                {| line := reals (fitted ds);
                   description :=
                     describe (Some (olsSlope ds)) (Some (at_ ds 0)) |};
              forecast :=
                {| values :=
                     reals (map (forecastR ds (fitted ds) 7) (steps 7));
                   avgForecast :=
                     Some ((forecastR ds (fitted ds) 7 1
                            + forecastR ds (fitted ds) 7 7) / 2) |};
              drivers := [d1; d2] |}.
Proof.
  intros Hn Hin. unfold performAiAnalysis.
  rewrite detectTrend_reals by lia. cbn [line description].
  unfold defaultPeriods.
  rewrite createForecast_reals by (rewrite ?length_fitted; lia).
  destruct (@identifyDrivers_two kpiId
              (describe (Some (olsSlope ds)) (Some (at_ ds 0))) rnd Hin)
    as (d1 & d2 & E & Hne).
  exists d1, d2. split; [assumption|]. rewrite E. reflexivity.
Qed.

End PipelineExact.

(** X10.  In exact arithmetic the pipeline never produces NaN on a series
    of at least seven real numbers: for a registered category
    [performAiAnalysis] returns the fitted line as real numbers, seven
    forecast values that are real numbers, a real forecast average, and
    two different drivers. *)
Theorem performAiAnalysis_never_nan
  (ds : list R) (kpiId : string) (rnd : list nat) :
  (7 <= List.length ds)%nat -> In kpiId registered ->
  exists r d1 d2 avg,
    performAiAnalysis (reals ds) kpiId rnd = Normal r
    /\ data r = reals ds
    /\ line (trend r) = reals (fitted ds)
    /\ values (forecast r) = reals (map (forecastR ds (fitted ds) 7) (steps 7))
    /\ List.length (values (forecast r)) = 7%nat
    /\ avgForecast (forecast r) = Some avg
    /\ drivers r = [d1; d2] /\ d1 <> d2.
Proof.
  intros Hn Hin.
  destruct (@pipeline_reals ds kpiId rnd Hn Hin) as (d1 & d2 & Hne & E).
  eexists. exists d1, d2. eexists. split; [exact E|].
  cbn [data trend forecast drivers line values avgForecast].
  repeat split; try reflexivity. assumption.
Qed.

Lemma performAiAnalysis_never_nan_witness :
  exists r d1 d2 avg,
    performAiAnalysis (reals [1; 2; 3; 4; 5; 6; 7; 8]%R) "revenue" [] = Normal r
    /\ data r = reals [1; 2; 3; 4; 5; 6; 7; 8]%R
    /\ line (trend r) = reals (fitted [1; 2; 3; 4; 5; 6; 7; 8]%R)
    /\ values (forecast r)
       = reals (map (forecastR [1; 2; 3; 4; 5; 6; 7; 8]%R
                       (fitted [1; 2; 3; 4; 5; 6; 7; 8]%R) 7) (steps 7))
    /\ List.length (values (forecast r)) = 7%nat
    /\ avgForecast (forecast r) = Some avg
    /\ drivers r = [d1; d2] /\ d1 <> d2.
Proof.
  apply (@performAiAnalysis_never_nan [1; 2; 3; 4; 5; 6; 7; 8]%R "revenue" []).
  - simpl. lia.
  - unfold registered. cbn. tauto.
Defined.

(** X11.  In exact arithmetic, on an exactly linear series [a + b * i] of
    [n >= 2] values the forecast continues the line: with a horizon
    [h <= n], step [k] of the forecast of the fitted line is
    [a + b * (n - 1 + k)]. *)
Theorem createForecast_extends_a_line (a b : R) (n : nat) (h : Z) :
  (2 <= n)%nat -> (1 <= h <= Z.of_nat n)%Z ->
  values (createForecast (reals (linearSeries a b n))
            (line (detectTrend (reals (linearSeries a b n)))) h)
  = reals (map (fun k => a + b * (INR n - 1 + IZR k))%R (steps h)).
Proof.
  intros Hn Hh.
  rewrite detectTrend_reals by now rewrite length_linearSeries.
  cbn [line]. rewrite fitted_linear by assumption.
  rewrite createForecast_reals
    by (rewrite ?length_linearSeries; first [reflexivity | lia]).
  cbn [values]. f_equal. apply map_ext_in. intros k Hk.
  unfold steps in Hk. apply in_map_iff in Hk.
  destruct Hk as (i & <- & Hi). apply in_seq in Hi.
  unfold forecastR. rewrite length_linearSeries.
  rewrite !at_linearSeries by lia.
  replace (Z.to_nat (Z.of_nat n - 1)) with (n - 1)%nat by lia.
  replace (Z.to_nat (Z.of_nat n - 2)) with (n - 2)%nat by lia.
  rewrite !minus_INR by lia. cbn [INR]. ring.
Qed.

Lemma createForecast_extends_a_line_witness :
  values (createForecast (reals (linearSeries 1 2 5))
            (line (detectTrend (reals (linearSeries 1 2 5)))) 3)
  = reals (map (fun k => 1 + 2 * (INR 5 - 1 + IZR k))%R (steps 3)).
Proof.
  apply (@createForecast_extends_a_line 1 2 5 3); lia.
Defined.

(** ** The fitted line is the least-squares line *)

Section LeastSquares.
Local Open Scope R_scope.

Lemma sumTo_affine (f g : nat -> R) (alpha beta gamma : R) (n : nat) :
  sumTo (fun i => alpha * f i + beta * g i + gamma) n
  = alpha * sumTo f n + beta * sumTo g n + INR n * gamma.
Proof.
  induction n as [|n IH]; [simpl; lra|].
  cbn [sumTo]. rewrite IH, S_INR. lra.
Qed.

(** The two normal equations: the residuals add up to 0, and so do the
    residuals weighted by the index. *)
Lemma normal_equations (ys : list R) :
  (2 <= List.length ys)%nat ->
  sumTo (fun i => at_ ys i - (olsSlope ys * INR i + olsIntercept ys))
        (List.length ys) = 0
  /\ sumTo (fun i => INR i
                     * (at_ ys i - (olsSlope ys * INR i + olsIntercept ys)))
           (List.length ys) = 0.
Proof.
  intros Hn. set (n := List.length ys) in *.
  set (s := olsSlope ys). set (c := olsIntercept ys).
  assert (Hn2 : 2 <= INR n) by (apply le_INR in Hn; simpl in Hn; lra).
  pose proof (denominator_pos Hn) as Hd.
  assert (Es : s * (INR n * SumII n - SumI n * SumI n)
               = INR n * SumIY ys - SumI n * SumY ys).
  { unfold s, olsSlope. fold n. field. lra. }
  assert (Ec : INR n * c = SumY ys - s * SumI n).
  { unfold c, olsIntercept. fold n s. field. lra. }
  assert (R1 : sumTo (fun i => at_ ys i - (s * INR i + c)) n
               = SumY ys - s * SumI n - INR n * c).
  { rewrite (sumTo_ext _ (fun i => 1 * at_ ys i + (- s) * INR i + (- c)))
      by (intros; ring).
    rewrite sumTo_affine. unfold SumY, SumI. fold n. ring. }
  assert (R2 : sumTo (fun i => INR i * (at_ ys i - (s * INR i + c))) n
               = SumIY ys - s * SumII n - c * SumI n).
  { rewrite (sumTo_ext _ (fun i => 1 * (INR i * at_ ys i)
                                   + (- s) * (INR i * INR i)
                                   + (- c) * INR i + 0)).
    - rewrite (sumTo_plus (fun i => 1 * (INR i * at_ ys i)
                                    + - s * (INR i * INR i) + - c * INR i)
                          (fun _ => 0)).
      rewrite sumTo_const.
      rewrite (sumTo_plus (fun i => 1 * (INR i * at_ ys i)
                                    + - s * (INR i * INR i))
                          (fun i => - c * INR i)).
      rewrite (sumTo_plus (fun i => 1 * (INR i * at_ ys i))
                          (fun i => - s * (INR i * INR i))).
      rewrite !sumTo_scale. unfold SumIY, SumII, SumI. fold n. ring.
    - intros. ring. }
  split.
  - rewrite R1. lra.
  - rewrite R2.
    assert (INR n * (SumIY ys - s * SumII n - c * SumI n) = 0).
    { replace (INR n * (SumIY ys - s * SumII n - c * SumI n))
        with (INR n * SumIY ys - s * (INR n * SumII n)
              - (INR n * c) * SumI n) by ring.
      rewrite Ec. lra. }
    apply Rmult_integral in H. destruct H; lra.
Qed.

Lemma sse_decomposition (ys : list R) (s c : R) :
  (2 <= List.length ys)%nat ->
  sse ys s c
  = sse ys (olsSlope ys) (olsIntercept ys)
    + sumTo (fun i => ((olsSlope ys - s) * INR i + (olsIntercept ys - c))
                      * ((olsSlope ys - s) * INR i + (olsIntercept ys - c)))
            (List.length ys).
Proof.
  intros Hn. destruct (normal_equations ys Hn) as [N1 N2].
  unfold sse. set (n := List.length ys) in *.
  set (s0 := olsSlope ys) in *. set (c0 := olsIntercept ys) in *.
  pose (r := fun i => at_ ys i - (s0 * INR i + c0)).
  pose (e := fun i => (s0 - s) * INR i + (c0 - c)).
  assert (N1' : sumTo r n = 0) by exact N1.
  assert (N2' : sumTo (fun i => INR i * r i) n = 0) by exact N2.
  rewrite (sumTo_ext _ (fun i => (r i * r i + e i * e i)
                                 + (2 * (s0 - s)) * (INR i * r i)
                                 + (2 * (c0 - c)) * r i))
    by (intros; unfold r, e; ring).
  rewrite (sumTo_plus (fun i => (r i * r i + e i * e i)
                                + (2 * (s0 - s)) * (INR i * r i))
                      (fun i => (2 * (c0 - c)) * r i)).
  rewrite (sumTo_plus (fun i => r i * r i + e i * e i)
                      (fun i => (2 * (s0 - s)) * (INR i * r i))).
  rewrite (sumTo_plus (fun i => r i * r i) (fun i => e i * e i)).
  rewrite (sumTo_scale (2 * (s0 - s)) (fun i => INR i * r i)).
  rewrite (sumTo_scale (2 * (c0 - c)) r).
  rewrite N1', N2'. unfold r, e. ring.
Qed.

End LeastSquares.

(** X12.  In exact arithmetic the line [detectTrend] fits is the
    least-squares line: for a series of at least two real numbers, no
    line [s * i + c] has a smaller sum of squared residuals than the one
    with the slope and the intercept the code computes, and a line with
    the same sum is that line. *)
Theorem detectTrend_minimises_squares (ys : list R) :
  (2 <= List.length ys)%nat ->
  exists slope intercept : R,
    slopeOf (reals ys) = Some slope
    /\ interceptOf (reals ys) = Some intercept
    /\ line (detectTrend (reals ys))
       = reals (map (fun i => slope * INR i + intercept)%R
                    (seq 0 (List.length ys)))
    /\ (forall s c : R, (sse ys slope intercept <= sse ys s c)%R)
    /\ (forall s c : R,
          sse ys s c = sse ys slope intercept -> s = slope /\ c = intercept).
Proof.
  intros Hn. exists (olsSlope ys), (olsIntercept ys).
  split; [now apply slopeOf_reals|].
  split; [now apply interceptOf_reals|].
  split.
  { rewrite line_reals by assumption. unfold reals. now rewrite map_map. }
  split.
  - intros s c. rewrite (@sse_decomposition ys s c Hn).
    pose proof (sumTo_squares_nonneg
                  (fun i => (olsSlope ys - s) * INR i
                            + (olsIntercept ys - c))%R (List.length ys)).
    lra.
  - intros s c E. rewrite (@sse_decomposition ys s c Hn) in E.
    assert (Hz : sumTo (fun i => ((olsSlope ys - s) * INR i
                                  + (olsIntercept ys - c))
                                 * ((olsSlope ys - s) * INR i
                                    + (olsIntercept ys - c)))%R
                       (List.length ys) = 0%R) by lra.
    pose proof (@sumTo_squares_zero
                  (fun i => (olsSlope ys - s) * INR i
                            + (olsIntercept ys - c))%R _ Hz) as Hall.
    pose proof (Hall 0%nat ltac:(lia)) as H0.
    pose proof (Hall 1%nat ltac:(lia)) as H1.
    cbn [INR] in H0, H1. split; lra.
Qed.

Lemma detectTrend_minimises_squares_witness :
  exists slope intercept : R,
    slopeOf (reals [3; 1; 4; 1; 5]%R) = Some slope
    /\ interceptOf (reals [3; 1; 4; 1; 5]%R) = Some intercept
    /\ (forall s c : R,
          (sse [3; 1; 4; 1; 5]%R slope intercept
           <= sse [3; 1; 4; 1; 5]%R s c)%R).
Proof.
  destruct (@detectTrend_minimises_squares [3; 1; 4; 1; 5]%R)
    as (slope & intercept & Hs & Hi & _ & Hmin & _).
  - simpl. lia.
  - exists slope, intercept. repeat split; assumption.
Defined.

(** ** Correlation of a series with a linear image of itself *)

Section CorrelationLinear.
Local Open Scope R_scope.

Lemma at_map_affine (alpha beta : R) (xs : list R) (i : nat) :
  (i < List.length xs)%nat ->
  at_ (map (fun x => alpha * x + beta) xs) i = alpha * at_ xs i + beta.
Proof.
  intros Hi. unfold at_. set (f := fun x => alpha * x + beta).
  rewrite nth_indep with (d' := f 0) by now rewrite length_map.
  apply map_nth.
Qed.

Lemma meanR_affine (alpha beta : R) (xs : list R) :
  xs <> [] ->
  meanR (map (fun x => alpha * x + beta) xs) (List.length xs)
  = alpha * meanR xs (List.length xs) + beta.
Proof.
  intros Hne. unfold meanR.
  rewrite (sumTo_ext _ (fun i => alpha * at_ xs i + 0 * 0 + beta))
    by (intros; rewrite at_map_affine by assumption; ring).
  rewrite sumTo_affine.
  assert (INR (List.length xs) <> 0).
  { apply not_0_INR. destruct xs; [contradiction | discriminate]. }
  field. assumption.
Qed.

Lemma covSum_affine (alpha beta : R) (xs : list R) :
  xs <> [] ->
  covSum xs (map (fun x => alpha * x + beta) xs) (List.length xs)
  = alpha * sqDev xs (List.length xs).
Proof.
  intros Hne. unfold covSum, sqDev. rewrite meanR_affine by assumption.
  rewrite <- sumTo_scale. apply sumTo_ext. intros i Hi.
  rewrite at_map_affine by assumption. ring.
Qed.

Lemma sqDev_affine (alpha beta : R) (xs : list R) :
  xs <> [] ->
  sqDev (map (fun x => alpha * x + beta) xs) (List.length xs)
  = alpha * alpha * sqDev xs (List.length xs).
Proof.
  intros Hne. unfold sqDev. rewrite meanR_affine by assumption.
  rewrite <- sumTo_scale. apply sumTo_ext. intros i Hi.
  rewrite at_map_affine by assumption. ring.
Qed.

Lemma pearson_affine (alpha beta : R) (xs : list R) (i j : nat) :
  (i < List.length xs)%nat -> (j < List.length xs)%nat ->
  at_ xs i <> at_ xs j -> alpha <> 0 ->
  pearson xs (map (fun x => alpha * x + beta) xs)
  = if Rlt_dec 0 alpha then 1 else -1.
Proof.
  intros Hi Hj Hne Ha.
  assert (Hxs : xs <> []) by (intros ->; simpl in Hi; lia).
  unfold pearson. rewrite length_map, Nat.min_id.
  destruct (List.length xs =? 0)%nat eqn:En;
    [apply Nat.eqb_eq in En; lia|].
  pose proof (@sqDev_nonconstant xs i j Hi Hj Hne) as Hd.
  pose proof (sqDev_nonneg xs (List.length xs)) as Hp.
  set (D := sqDev xs (List.length xs)) in *.
  rewrite covSum_affine, sqDev_affine by assumption. fold D.
  destruct (Req_dec_T D 0); [contradiction|].
  destruct (Req_dec_T (alpha * alpha * D) 0) as [E|_].
  { exfalso. apply Rmult_integral in E. destruct E as [E|E]; [|contradiction].
    apply Rmult_integral in E. destruct E; contradiction. }
  replace (D * (alpha * alpha * D)) with ((Rabs alpha * D) * (Rabs alpha * D)).
  - rewrite sqrt_square.
    + destruct (Rlt_dec 0 alpha) as [Hpos|Hneg].
      * rewrite Rabs_right by lra. field. lra.
      * rewrite Rabs_left by lra. field. split; lra.
    + apply Rmult_le_pos; [apply Rabs_pos | assumption].
  - replace (Rabs alpha * D * (Rabs alpha * D))
      with ((Rabs alpha * Rabs alpha) * (D * D)) by ring.
    fold (Rsqr (Rabs alpha)). rewrite <- Rsqr_abs. unfold Rsqr. ring.
Qed.

End CorrelationLinear.

(** X13.  In exact arithmetic, a series of real numbers that takes two
    different values has correlation exactly 1 with every increasing
    linear image [alpha * x + beta] of itself ([alpha > 0]) and exactly -1
    with every decreasing one ([alpha < 0]). *)
Theorem calculateCorrelation_of_linear_image
  (alpha beta : R) (xs : list R) (i j : nat) :
  (i < List.length xs)%nat -> (j < List.length xs)%nat ->
  at_ xs i <> at_ xs j ->
  ((0 < alpha)%R ->
   calculateCorrelation (reals xs)
     (reals (map (fun x => alpha * x + beta)%R xs)) = Some 1%R)
  /\ ((alpha < 0)%R ->
      calculateCorrelation (reals xs)
        (reals (map (fun x => alpha * x + beta)%R xs)) = Some (-1)%R).
Proof.
  intros Hi Hj Hne. split; intros Ha;
    rewrite calculateCorrelation_reals; f_equal;
    rewrite (@pearson_affine alpha beta xs i j Hi Hj Hne) by lra;
    destruct (Rlt_dec 0 alpha); first [reflexivity | lra].
Qed.

Lemma calculateCorrelation_of_linear_image_witness :
  calculateCorrelation (reals [0; 0; 5]%R)
    (reals (map (fun x => 3 * x + 0)%R [0; 0; 5]%R)) = Some 1%R.
Proof.
  apply (@calculateCorrelation_of_linear_image 3 0 [0; 0; 5]%R 0 2);
    first [simpl; lia | cbn; lra | lra].
Defined.

(** ** A first value that is not positive *)

(** X14.  In exact arithmetic, for a series of at least two real numbers:
    when the first value is 0 the label is strong growth for every
    positive slope, strong decline for every negative slope and stable
    for slope 0, never moderate; when the first value [y0] is negative
    the label is strong decline for every slope below [0.015 * |y0|],
    slope 0 included, and strong growth for every other slope. *)
Theorem detectTrend_label_without_positive_baseline (ys : list R) :
  (2 <= List.length ys)%nat ->
  let y0 := at_ ys 0 in
  let slope := olsSlope ys in
  let label := description (detectTrend (reals ys)) in
  (y0 = 0%R ->
   ((0 < slope)%R -> label = strongGrowth)
   /\ ((slope < 0)%R -> label = strongDecline)
   /\ (slope = 0%R -> label = stable))
  /\ ((y0 < 0)%R ->
      ((slope < - y0 * (15 / 1000))%R -> label = strongDecline)
      /\ ((- y0 * (15 / 1000) <= slope)%R -> label = strongGrowth)).
Proof.
  intros Hn y0 slope label. subst label.
  rewrite description_reals by assumption. fold y0 slope.
  rewrite describe_exact. split.
  - intros E. rewrite E.
    repeat split; intros Hs;
      destruct (Rlt_dec slope (- 0 * (15 / 1000)));
      destruct (Rlt_dec slope (- 0 * (5 / 1000)));
      destruct (Rlt_dec (0 * (15 / 1000)) slope);
      destruct (Rlt_dec (0 * (5 / 1000)) slope);
      try reflexivity; exfalso; lra.
  - intros Hy.
    repeat split; intros Hs;
      destruct (Rlt_dec slope (- y0 * (15 / 1000)));
      destruct (Rlt_dec slope (- y0 * (5 / 1000)));
      destruct (Rlt_dec (y0 * (15 / 1000)) slope);
      destruct (Rlt_dec (y0 * (5 / 1000)) slope);
      try reflexivity; exfalso; lra.
Qed.

Lemma detectTrend_label_without_positive_baseline_witness :
  description (detectTrend (reals (linearSeries 0 2 3))) = strongGrowth.
Proof.
  assert (Hn : (2 <= List.length (linearSeries 0 2 3))%nat) by (simpl; lia).
  destruct (detectTrend_label_without_positive_baseline
              (linearSeries 0 2 3) Hn) as (Hzero & _).
  destruct Hzero as (Hup & _); [cbn; lra|].
  apply Hup. rewrite (olsSlope_linear 0 2 (n := 3)) by lia. lra.
Defined.

(** ** Extrema, statistics and the sparkline *)

Section ExtremaExact.
Local Open Scope R_scope.

Lemma fold_Rmin (l : list R) (a : R) :
  fold_left Rmin l a <= a
  /\ (forall x, In x l -> fold_left Rmin l a <= x)
  /\ (fold_left Rmin l a = a \/ In (fold_left Rmin l a) l).
Proof.
  revert a. induction l as [|b l IH]; intros a.
  - cbn. split; [lra|]. split; [intros x []|now left].
  - cbn [fold_left]. destruct (IH (Rmin a b)) as (H1 & H2 & H3).
    pose proof (Rmin_l a b). pose proof (Rmin_r a b).
    split; [lra|]. split.
    + intros x [<-|Hx]; [lra | now apply H2].
    + destruct H3 as [E|Hin]; [|right; now right].
      rewrite E. unfold Rmin. destruct (Rle_dec a b);
        [now left | right; now left].
Qed.

Lemma fold_Rmax (l : list R) (a : R) :
  a <= fold_left Rmax l a
  /\ (forall x, In x l -> x <= fold_left Rmax l a)
  /\ (fold_left Rmax l a = a \/ In (fold_left Rmax l a) l).
Proof.
  revert a. induction l as [|b l IH]; intros a.
  - cbn. split; [lra|]. split; [intros x []|now left].
  - cbn [fold_left]. destruct (IH (Rmax a b)) as (H1 & H2 & H3).
    pose proof (Rmax_l a b). pose proof (Rmax_r a b).
    split; [lra|]. split.
    + intros x [<-|Hx]; [lra | now apply H2].
    + destruct H3 as [E|Hin]; [|right; now right].
      rewrite E. unfold Rmax. destruct (Rle_dec a b);
        [right; now left | now left].
Qed.

Lemma minR_spec (xs : list R) :
  xs <> [] -> In (minR xs) xs /\ (forall x, In x xs -> minR xs <= x).
Proof.
  destruct xs as [|a l]; [contradiction|]. intros _. unfold minR. cbn [hd tl].
  destruct (fold_Rmin l a) as (H1 & H2 & H3). split.
  - destruct H3 as [->|Hin]; [now left | now right].
  - intros x [<-|Hx]; [assumption | now apply H2].
Qed.

Lemma maxR_spec (xs : list R) :
  xs <> [] -> In (maxR xs) xs /\ (forall x, In x xs -> x <= maxR xs).
Proof.
  destruct xs as [|a l]; [contradiction|]. intros _. unfold maxR. cbn [hd tl].
  destruct (fold_Rmax l a) as (H1 & H2 & H3). split.
  - destruct H3 as [->|Hin]; [now left | now right].
  - intros x [<-|Hx]; [assumption | now apply H2].
Qed.

Lemma fold_min_reals (l : list R) (a : R) :
  fold_left Js.min (reals l) (Some a) = Some (fold_left Rmin l a).
Proof.
  revert a. induction l as [|b l IH]; intros a; [reflexivity|].
  cbn [reals map fold_left]. apply IH.
Qed.

Lemma fold_max_reals (l : list R) (a : R) :
  fold_left Js.max (reals l) (Some a) = Some (fold_left Rmax l a).
Proof.
  revert a. induction l as [|b l IH]; intros a; [reflexivity|].
  cbn [reals map fold_left]. apply IH.
Qed.

Lemma minOf_reals (xs : list R) :
  xs <> [] -> minOf (reals xs) = Some (minR xs).
Proof.
  destruct xs as [|a l]; [contradiction|]. intros _.
  unfold minOf, minR. cbn [reals map hd tl]. apply fold_min_reals.
Qed.

Lemma maxOf_reals (xs : list R) :
  xs <> [] -> maxOf (reals xs) = Some (maxR xs).
Proof.
  destruct xs as [|a l]; [contradiction|]. intros _.
  unfold maxOf, maxR. cbn [reals map hd tl]. apply fold_max_reals.
Qed.

Lemma sumTo_bounds (f : nat -> R) (lo hi : R) (n : nat) :
  (forall i, (i < n)%nat -> lo <= f i <= hi) ->
  INR n * lo <= sumTo f n <= INR n * hi.
Proof.
  induction n as [|n IH]; intros Hb; [simpl; lra|].
  cbn [sumTo]. rewrite S_INR.
  destruct IH as [I1 I2]; [intros; apply Hb; lia|].
  destruct (Hb n) as [B1 B2]; [lia|]. lra.
Qed.

Lemma at_In (xs : list R) (i : nat) :
  (i < List.length xs)%nat -> In (at_ xs i) xs.
Proof. intros Hi. unfold at_. now apply nth_In. Qed.

Lemma orElse_exact (f : R) :
  exists d : R, @orElse exact _ (Some f) (ofZ 1) = Some d /\ d <> 0.
Proof.
  unfold orElse. cbn.
  destruct (Req_dec_T f 0); eexists; (split; [reflexivity|]); lra.
Qed.

End ExtremaExact.

(** X15.  In exact arithmetic the statistics of a KPI with a non-empty
    history of real numbers are real numbers, never NaN: the minimum and
    the maximum are values of the series that bound every value, the
    average lies between them, and the change is a real number, the
    divisor [first || 1] never being 0. *)
Theorem stats_bounds (name0 : string) (xs : list R) :
  xs <> [] ->
  exists av mn mx ch : R,
    stats (Some (realKpi name0 xs))
    = {| avg := Some av; min := Some mn; max := Some mx; change := Some ch |}
    /\ In mn xs /\ In mx xs
    /\ (forall x, In x xs -> (mn <= x <= mx)%R)
    /\ (mn <= av <= mx)%R.
Proof.
  intros Hne.
  assert (Hlen : (0 < List.length xs)%nat)
    by (destruct xs; [contradiction | simpl; lia]).
  assert (Hn0 : INR (List.length xs) <> 0%R) by (apply not_0_INR; lia).
  assert (Hch : exists ch : R,
             change (stats (Some (realKpi name0 xs))) = Some ch).
  { unfold stats. cbn [historyOf realKpi history]. rewrite length_reals.
    destruct (List.length xs =? 0)%nat eqn:E0;
      [apply Nat.eqb_eq in E0; lia|].
    cbn [change].
    destruct (1 <? List.length xs)%nat eqn:E1; [|eexists; reflexivity].
    apply Nat.ltb_lt in E1.
    replace (Z.of_nat (List.length xs) - 1)%Z
      with (Z.of_nat (List.length xs - 1)) by lia.
    change 0%Z with (Z.of_nat 0).
    rewrite !get_reals by lia.
    destruct (orElse_exact (at_ xs 0)) as (d & Ed & Hd). rewrite Ed.
    change (Js.sub (Some (at_ xs (List.length xs - 1))) (Some (at_ xs 0)))
      with (Some (at_ xs (List.length xs - 1) - at_ xs 0)%R : exact).
    rewrite div_exact by assumption. eexists. reflexivity. }
  destruct Hch as [ch Ech].
  destruct (minR_spec Hne) as [Hmin1 Hmin2].
  destruct (maxR_spec Hne) as [Hmax1 Hmax2].
  exists (SumY xs / INR (List.length xs))%R, (minR xs), (maxR xs), ch.
  split.
  - revert Ech. unfold stats. cbn [historyOf realKpi history].
    rewrite length_reals.
    destruct (List.length xs =? 0)%nat eqn:E0;
      [apply Nat.eqb_eq in E0; lia|].
    cbn [change]. intros ->.
    rewrite total_reals, ofNat_exact, div_exact by assumption.
    rewrite minOf_reals, maxOf_reals by assumption. reflexivity.
  - split; [assumption|]. split; [assumption|]. split.
    + intros x Hx. split; [now apply Hmin2 | now apply Hmax2].
    + assert (B : (INR (List.length xs) * minR xs <= SumY xs
                   <= INR (List.length xs) * maxR xs)%R).
      { unfold SumY. apply sumTo_bounds. intros i Hi.
        pose proof (at_In xs Hi) as Hin.
        split; [now apply Hmin2 | now apply Hmax2]. }
      assert (Hpos : (0 < INR (List.length xs))%R) by (apply lt_0_INR; lia).
      split.
      * apply Rmult_le_reg_l with (r := INR (List.length xs)); [assumption|].
        replace (INR (List.length xs) * (SumY xs / INR (List.length xs)))%R
          with (SumY xs) by (field; assumption). lra.
      * apply Rmult_le_reg_l with (r := INR (List.length xs)); [assumption|].
        replace (INR (List.length xs) * (SumY xs / INR (List.length xs)))%R
          with (SumY xs) by (field; assumption). lra.
Qed.

Lemma stats_bounds_witness :
  exists av mn mx ch : R,
    stats (Some (realKpi "sales" [3; 1; 4]%R))
    = {| avg := Some av; min := Some mn; max := Some mx; change := Some ch |}
    /\ In mn [3; 1; 4]%R /\ In mx [3; 1; 4]%R
    /\ (forall x, In x [3; 1; 4]%R -> (mn <= x <= mx)%R)
    /\ (mn <= av <= mx)%R.
Proof.
  apply (@stats_bounds "sales" [3; 1; 4]%R). discriminate.
Defined.

Section SparklineExact.
Local Open Scope R_scope.

Lemma sparkline_points (D : nat) (ns : list nat) (hs : list R) :
  D <> 0%nat ->
  map (fun id : nat * exact =>
         {| px := Js.mul (Js.div (ofNat (fst id)) (ofNat D)) (ofZ 100);
            py := snd id |})
      (combine ns (reals hs))
  = map realPoint (combine (map (fun i => INR i / INR D * 100) ns) hs).
Proof.
  intros HD. revert hs. induction ns as [|i ns IH]; intros hs; [reflexivity|].
  destruct hs as [|y hs]; [reflexivity|].
  cbn [reals map combine fst snd]. rewrite <- (IH hs). f_equal.
  unfold realPoint. cbn [fst snd]. f_equal.
  rewrite !ofNat_exact, div_exact by now apply not_0_INR. reflexivity.
Qed.

Lemma normalised_exact (d mn r : R) :
  r <> 0 ->
  Js.sub (ofZ 40)
    (Js.mul (Js.div (Js.sub (Some d) (Some mn)) (Some r)) (ofZ 35))
  = Some (40 - (d - mn) / r * 35) :> exact.
Proof.
  intros Hr. cbn. destruct (Req_dec_T r 0); [contradiction | reflexivity].
Qed.

Lemma sparkline_reals (xs : list R) :
  (2 <= List.length xs)%nat ->
  sparkline (reals xs)
  = Some (map realPoint
            (combine (sparkAbscissas (List.length xs)) (sparkHeights xs))).
Proof.
  intros Hn. assert (Hne : xs <> []) by (intros ->; simpl in Hn; lia).
  unfold sparkline. rewrite length_reals.
  destruct (List.length xs <? 2)%nat eqn:E; [apply Nat.ltb_lt in E; lia|].
  rewrite maxOf_reals, minOf_reals by assumption.
  change (Js.sub (Some (maxR xs)) (Some (minR xs)))
    with (Some (maxR xs - minR xs) : exact).
  change (ofZ 0 : exact) with (Some 0 : exact). rewrite ltb_exact.
  unfold sparkAbscissas, sparkHeights. f_equal.
  destruct (Rlt_dec 0 (maxR xs - minR xs)) as [Hpos|Hflat].
  - rewrite <- sparkline_points by lia. f_equal. f_equal.
    unfold reals. rewrite !map_map. apply map_ext. intros d.
    apply normalised_exact. lra.
  - rewrite <- sparkline_points by lia. f_equal. f_equal.
    unfold reals. rewrite !map_map. reflexivity.
Qed.

Lemma sparkHeights_bounds (xs : list R) (y : R) :
  xs <> [] -> In y (sparkHeights xs) -> 5 <= y <= 40.
Proof.
  intros Hne Hin. unfold sparkHeights in Hin.
  destruct (minR_spec Hne) as [_ Hmin]. destruct (maxR_spec Hne) as [_ Hmax].
  destruct (Rlt_dec 0 (maxR xs - minR xs)) as [Hpos|Hflat].
  - apply in_map_iff in Hin. destruct Hin as (d & <- & Hd).
    pose proof (Hmin d Hd) as Hlo. pose proof (Hmax d Hd) as Hhi.
    set (r := maxR xs - minR xs) in *.
    assert (T0 : 0 <= (d - minR xs) / r).
    { apply Rmult_le_pos; [lra|]. left. now apply Rinv_0_lt_compat. }
    assert (T1 : (d - minR xs) / r <= 1).
    { apply Rmult_le_reg_r with (r := r); [assumption|].
      unfold Rdiv. rewrite Rmult_assoc, Rinv_l by lra. unfold r. lra. }
    lra.
  - apply in_map_iff in Hin. destruct Hin as (d & <- & _). lra.
Qed.

Lemma sparkAbscissas_bounds (n : nat) (x : R) :
  (2 <= n)%nat -> In x (sparkAbscissas n) -> 0 <= x <= 100.
Proof.
  intros Hn Hin. unfold sparkAbscissas in Hin.
  apply in_map_iff in Hin. destruct Hin as (i & <- & Hi).
  apply in_seq in Hi.
  assert (Hd : 0 < INR (n - 1)) by (apply lt_0_INR; lia).
  assert (Hi0 : 0 <= INR i) by apply pos_INR.
  assert (Hi1 : INR i <= INR (n - 1)) by (apply le_INR; lia).
  assert (H0 : 0 <= INR i / INR (n - 1)).
  { apply Rmult_le_pos; [assumption|]. left. now apply Rinv_0_lt_compat. }
  assert (H1 : INR i / INR (n - 1) <= 1).
  { apply Rmult_le_reg_r with (r := INR (n - 1)); [assumption|].
    unfold Rdiv. rewrite Rmult_assoc, Rinv_l by lra. lra. }
  lra.
Qed.

End SparklineExact.

(** X16.  The sparkline of a KPI card.  At every instance of the numbers a
    series of fewer than two values draws the empty box.  In exact
    arithmetic a series of [n >= 2] real numbers draws [n] points, all of
    them real and inside the view box: every abscissa between 0 and 100,
    every height between 5 and 40; a flat series draws every height
    at 20. *)
Theorem sparkline_fits_the_box (xs : list R) :
  (2 <= List.length xs)%nat ->
  (forall (num : Type) (N : Number num) (data : list num),
      (List.length data < 2)%nat -> sparkline data = None)
  /\ exists points : list (R * R),
       sparkline (reals xs) = Some (map realPoint points)
       /\ List.length points = List.length xs
       /\ (forall p, In p points ->
           (0 <= fst p <= 100)%R /\ (5 <= snd p <= 40)%R)
       /\ (minR xs = maxR xs -> forall p, In p points -> snd p = 20%R).
Proof.
  intros Hn. assert (Hne : xs <> []) by (intros ->; simpl in Hn; lia).
  split.
  { intros num N data Hlt. unfold sparkline.
    destruct (List.length data <? 2)%nat eqn:E; [reflexivity|].
    apply Nat.ltb_ge in E. lia. }
  exists (combine (sparkAbscissas (List.length xs)) (sparkHeights xs)).
  assert (Lh : List.length (sparkHeights xs) = List.length xs).
  { unfold sparkHeights. destruct (Rlt_dec 0 (maxR xs - minR xs));
      now rewrite length_map. }
  assert (La : List.length (sparkAbscissas (List.length xs))
               = List.length xs).
  { unfold sparkAbscissas. now rewrite length_map, length_seq. }
  split; [now apply sparkline_reals|]. split.
  - rewrite length_combine, La, Lh. apply Nat.min_id.
  - split.
    + intros [x y] Hp. cbn [fst snd]. split.
      * apply in_combine_l in Hp.
        now apply (@sparkAbscissas_bounds (List.length xs) x).
      * apply in_combine_r in Hp. now apply (@sparkHeights_bounds xs y).
    + intros Hflat [x y] Hp. cbn [snd]. apply in_combine_r in Hp.
      unfold sparkHeights in Hp.
      destruct (Rlt_dec 0 (maxR xs - minR xs)) as [Hpos|_];
        [exfalso; lra|].
      apply in_map_iff in Hp. destruct Hp as (d & E & _). now symmetry.
Qed.

Lemma sparkline_fits_the_box_witness :
  exists points : list (R * R),
    sparkline (reals [3; 1; 4]%R) = Some (map realPoint points)
    /\ List.length points = List.length [3; 1; 4]%R
    /\ (forall p, In p points ->
        (0 <= fst p <= 100)%R /\ (5 <= snd p <= 40)%R).
Proof.
  destruct (@sparkline_fits_the_box [3; 1; 4]%R)
    as (_ & points & E & L & B & _); [simpl; lia|].
  exists points. repeat split; try assumption; now apply B.
Defined.

(** ** The scatter plot *)

Section ScatterExact.
Local Open Scope R_scope.

Lemma axis_positive (xs : list R) :
  xs <> [] -> (forall x, In x xs -> 0 < x) ->
  0 < maxR xs * (105 / 100) - minR xs * (95 / 100)
  /\ (forall x, In x xs -> 0 < axisShare xs x < 1).
Proof.
  intros Hne Hpos.
  destruct (minR_spec Hne) as [Hmin1 Hmin2].
  destruct (maxR_spec Hne) as [Hmax1 Hmax2].
  pose proof (Hpos _ Hmin1) as Pmin. pose proof (Hpos _ Hmax1) as Pmax.
  pose proof (Hmin2 _ Hmax1) as Hle.
  set (den := maxR xs * (105 / 100) - minR xs * (95 / 100)).
  assert (Hden : 0 < den) by (unfold den; lra).
  split; [exact Hden|]. intros x Hx.
  pose proof (Hmin2 x Hx) as Hlo. pose proof (Hmax2 x Hx) as Hhi.
  unfold axisShare. fold den. split.
  - apply Rmult_lt_0_compat; [lra | now apply Rinv_0_lt_compat].
  - apply Rmult_lt_reg_r with (r := den); [assumption|].
    unfold Rdiv. rewrite Rmult_assoc, Rinv_l by lra. unfold den. lra.
Qed.

Lemma scatter_point_exact (x mnx mxx y mny mxy : R) :
  mxx * (105 / 100) - mnx * (95 / 100) <> 0 ->
  mxy * (105 / 100) - mny * (95 / 100) <> 0 ->
  {| px := Js.add PADDING_left
             (Js.mul
                (Js.div
                   (Js.sub (Some x) (Js.mul (Some mnx) (Some (95 / 100))))
                   (Js.sub (Js.mul (Some mxx) (Some (105 / 100)))
                           (Js.mul (Some mnx) (Some (95 / 100)))))
                chartWidth);
     py := Js.sub (Js.add PADDING_top chartHeight)
             (Js.mul
                (Js.div
                   (Js.sub (Some y) (Js.mul (Some mny) (Some (95 / 100))))
                   (Js.sub (Js.mul (Some mxy) (Some (105 / 100)))
                           (Js.mul (Some mny) (Some (95 / 100)))))
                chartHeight) |}
  = realPoint
      (60 + (x - mnx * (95 / 100))
            / (mxx * (105 / 100) - mnx * (95 / 100)) * 420,
       270 - (y - mny * (95 / 100))
             / (mxy * (105 / 100) - mny * (95 / 100)) * 250).
Proof.
  intros Hx Hy. unfold realPoint, PADDING_left, PADDING_top, chartWidth,
    chartHeight, WIDTH, HEIGHT, PADDING_right, PADDING_bottom.
  cbn. destruct (Req_dec_T _ 0); [contradiction|].
  destruct (Req_dec_T _ 0); [contradiction|].
  cbn. f_equal; f_equal; unfold Rdiv; ring.
Qed.

End ScatterExact.

(** X17.  The scatter plot of two series.  At every instance of the
    numbers it has as many points as the shorter series.  In exact
    arithmetic, when every value of both series is positive, every point
    is real and strictly inside the plot area: abscissa between 60 and
    480, ordinate between 20 and 270. *)
Theorem scatterPoints_inside_the_plot (xs ys : list R) :
  (forall x, In x xs -> (0 < x)%R) -> (forall y, In y ys -> (0 < y)%R) ->
  (forall (num : Type) (N : Number num) (data1 data2 : list num),
      List.length (scatterPoints data1 data2)
      = Nat.min (List.length data1) (List.length data2))
  /\ exists points : list (R * R),
       scatterPoints (reals xs) (reals ys) = map realPoint points
       /\ points
          = map (fun i => (60 + axisShare xs (at_ xs i) * 420,
                           270 - axisShare ys (at_ ys i) * 250)%R)
                (seq 0 (Nat.min (List.length xs) (List.length ys)))
       /\ (forall p, In p points ->
           (60 < fst p < 480)%R /\ (20 < snd p < 270)%R).
Proof.
  intros Hx Hy. split.
  { intros num N data1 data2. unfold scatterPoints.
    now rewrite length_map, length_seq. }
  eexists. split; [|split; [reflexivity|]].
  - unfold scatterPoints. rewrite !length_reals.
    set (n := Nat.min (List.length xs) (List.length ys)).
    rewrite map_map. apply map_ext_in. intros i Hi. apply in_seq in Hi.
    assert (Hxs : xs <> []) by (intros ->; simpl in n; lia).
    assert (Hys : ys <> [])
      by (intros ->; unfold n in Hi; rewrite Nat.min_0_r in Hi; lia).
    rewrite !minOf_reals, !maxOf_reals by assumption.
    rewrite !lit_exact. rewrite !get_reals by lia.
    destruct (axis_positive Hxs Hx) as [Dx _].
    destruct (axis_positive Hys Hy) as [Dy _].
    rewrite scatter_point_exact by lra. reflexivity.
  - intros p Hp. apply in_map_iff in Hp. destruct Hp as (i & <- & Hi).
    apply in_seq in Hi. cbn [fst snd].
    assert (Hxs : xs <> []) by (intros ->; simpl in Hi; lia).
    assert (Hys : ys <> [])
      by (intros ->; rewrite Nat.min_0_r in Hi; lia).
    destruct (axis_positive Hxs Hx) as [_ Sx].
    destruct (axis_positive Hys Hy) as [_ Sy].
    assert (Ix : In (at_ xs i) xs) by (apply at_In; lia).
    assert (Iy : In (at_ ys i) ys) by (apply at_In; lia).
    pose proof (Sx _ Ix). pose proof (Sy _ Iy). lra.
Qed.

Lemma scatterPoints_inside_the_plot_witness :
  exists points : list (R * R),
    scatterPoints (reals [1; 2; 4]%R) (reals [5; 3]%R) = map realPoint points
    /\ (forall p, In p points ->
        (60 < fst p < 480)%R /\ (20 < snd p < 270)%R).
Proof.
  destruct (@scatterPoints_inside_the_plot [1; 2; 4]%R [5; 3]%R)
    as (_ & points & E & _ & B).
  - intros x [<-|[<-|[<-|[]]]]; lra.
  - intros y [<-|[<-|[]]]; lra.
  - exists points. split; assumption.
Defined.

(** ** The mock series and the analysis of a KPI *)

Section MockExact.
Local Open Scope R_scope.

Lemma mockBaseValue_real (kpiId : string) :
  exists B : R, @mockBaseValue exact _ kpiId = Some B.
Proof.
  unfold mockBaseValue.
  destruct (String.eqb kpiId "revenue"); [eexists; reflexivity|].
  destruct (String.eqb kpiId "sales"); [eexists; reflexivity|].
  destruct (String.eqb kpiId "new_clients"); [eexists; reflexivity|].
  destruct (String.eqb kpiId "conversion");
    [rewrite lit_exact; eexists; reflexivity|].
  eexists; reflexivity.
Qed.

Lemma mockTrend_real (kpiId : string) :
  exists T : R, @mockTrend exact _ kpiId = Some T.
Proof.
  unfold mockTrend.
  destruct (String.eqb kpiId "revenue"); [eexists; reflexivity|].
  destruct (String.eqb kpiId "sales"); [eexists; reflexivity|].
  destruct (String.eqb kpiId "new_clients");
    [rewrite lit_exact; eexists; reflexivity|].
  destruct (String.eqb kpiId "conversion");
    [rewrite lit_exact; eexists; reflexivity|].
  rewrite lit_exact. eexists; reflexivity.
Qed.

Lemma weekly_real (i : nat) :
  exists w : R, @weekly exact _ _ i = Some w.
Proof.
  unfold weekly. rewrite lit_exact, ofNat_exact.
  change (@pi exact exact_Trig) with (Some PI : exact).
  rewrite div_exact by (intros E; lra). eexists. reflexivity.
Qed.

Lemma mockValue_real (random : nat -> exact) (kpiId : string) (i : nat) :
  realDraws random ->
  exists v : R,
    mockValue random kpiId i = Some v
    /\ 0 <= v
    /\ (kpiId = "conversion"%string -> 2 <= v).
Proof.
  intros Hr. destruct (Hr i) as [u Eu].
  destruct (mockBaseValue_real kpiId) as [B EB].
  destruct (mockTrend_real kpiId) as [T ET].
  destruct (weekly_real i) as [w Ew].
  unfold mockValue. rewrite EB, ET, Ew, Eu, !lit_exact, ofNat_exact.
  destruct (String.eqb_spec kpiId "conversion") as [E|Hne].
  - eexists. split; [reflexivity|].
    pose proof (Rmax_l (20 / 10)
                  (B + INR i * T + w * (2 / 10) + (u - 5 / 10) * (1 / 10))).
    split; [lra | intros _; lra].
  - eexists. split; [reflexivity|].
    split; [apply Rmax_l | intros E; contradiction].
Qed.

Lemma mock_series_real (random : nat -> exact) (kpiId : string)
  (l : list nat) :
  realDraws random ->
  exists vs : list R,
    map (mockValue random kpiId) l = reals vs
    /\ List.length vs = List.length l
    /\ (forall v, In v vs -> 0 <= v)
    /\ (kpiId = "conversion"%string -> forall v, In v vs -> 2 <= v).
Proof.
  intros Hr. induction l as [|i l (vs & E & L & P0 & P2)].
  - exists []. repeat split; try reflexivity; intros; contradiction.
  - destruct (mockValue_real kpiId i Hr) as (v & Ev & V0 & V2).
    exists (v :: vs). cbn [map reals]. rewrite Ev. fold (reals vs).
    rewrite E. split; [reflexivity|]. split; [cbn; now rewrite L|]. split.
    + intros x [<-|Hx]; [assumption | now apply P0].
    + intros Ec x [<-|Hx]; [now apply V2 | now apply P2].
Qed.

End MockExact.

Lemma generateMockKpiData_real_series
  (random : nat -> exact) (kpiId : string) (days : Z) :
  realDraws random ->
  exists vs : list R,
    generateMockKpiData random kpiId days = reals vs
    /\ List.length vs = Z.to_nat days.
Proof.
  intros Hr. unfold generateMockKpiData.
  destruct (@mock_series_real random kpiId (seq 0 (Z.to_nat days)) Hr)
    as (vs & E & L & _).
  exists vs. rewrite length_seq in L. split; assumption.
Qed.

(** X18.  In exact arithmetic, with draws of [Math.random()] that are real
    numbers, [generateMockKpiData] returns exactly [days] values (none for
    a negative [days]), all of them real and none negative; for the
    category "conversion" none is below 2. *)
Theorem generateMockKpiData_floor
  (random : nat -> exact) (kpiId : string) (days : Z) :
  realDraws random ->
  exists vs : list R,
    generateMockKpiData random kpiId days = reals vs
    /\ List.length vs = Z.to_nat days
    /\ (forall v, In v vs -> (0 <= v)%R)
    /\ (kpiId = "conversion" -> forall v, In v vs -> (2 <= v)%R).
Proof.
  intros Hr. unfold generateMockKpiData.
  destruct (@mock_series_real random kpiId (seq 0 (Z.to_nat days)) Hr)
    as (vs & E & L & P0 & P2).
  exists vs. rewrite length_seq in L. repeat split; assumption.
Qed.

Lemma generateMockKpiData_floor_witness :
  exists vs : list R,
    generateMockKpiData (fun _ => Some (1 / 4)%R) "conversion" 30 = reals vs
    /\ List.length vs = Z.to_nat 30
    /\ (forall v, In v vs -> (0 <= v)%R)
    /\ ("conversion" = "conversion" -> forall v, In v vs -> (2 <= v)%R).
Proof.
  apply (@generateMockKpiData_floor (fun _ => Some (1 / 4)%R) "conversion" 30).
  intros i. eexists. reflexivity.
Defined.

Section OpenAnalysisExact.
Local Open Scope R_scope.

Lemma historyLength_pos {num : Type} (kpi : Kpi num) :
  (1 <= historyLength kpi)%Z.
Proof.
  unfold historyLength. destruct (history kpi) as [h|]; [|lia].
  destruct (List.length h =? 0)%nat eqn:E; [lia|].
  apply Nat.eqb_neq in E. lia.
Qed.

Lemma first_forecast_nan (ds : list R) :
  (1 <= List.length ds < 7)%nat ->
  get (values (createForecast (reals ds)
                 (line (detectTrend (reals ds))) defaultPeriods)) 0
  = None.
Proof.
  intros Hn. destruct (Nat.le_gt_cases 2 (List.length ds)) as [H2|H1].
  - rewrite detectTrend_reals by assumption. cbn [line].
    pose proof (@forecast_value_real ds (fitted ds) defaultPeriods 1
                  (length_fitted ds) H2) as V.
    change (1 - 1)%Z with 0%Z in V. unfold defaultPeriods in *.
    rewrite V by lia.
    destruct (1 <=? 7 - Z.of_nat (List.length ds))%Z eqn:E;
      [reflexivity | apply Z.leb_gt in E; lia].
  - rewrite createForecast_short by (rewrite length_reals; lia).
    reflexivity.
Qed.

End OpenAnalysisExact.

(** X19.  Opening the analysis of a KPI of a registered category, in exact
    arithmetic and with real draws.  When the KPI has no history, an
    empty one, or one of at least seven points, the analysis returns
    with a mock series as long as the history (90 without one), a fitted
    line and seven forecast values, all real numbers.  When the history
    has one to six points the analysis returns too, and its first
    forecast value is NaN. *)
Theorem openAnalysis_by_history_length
  (random : nat -> exact) (rnd : list nat) (kpi : Kpi exact) :
  realDraws random -> In (id kpi) registered ->
  exists r,
    openAnalysis random rnd kpi = Normal r
    /\ allReal (data r)
    /\ Z.of_nat (List.length (data r)) = historyLength kpi
    /\ List.length (values (forecast r)) = 7%nat
    /\ ((7 <= historyLength kpi)%Z ->
        allReal (line (trend r)) /\ allReal (values (forecast r)))
    /\ ((historyLength kpi < 7)%Z -> get (values (forecast r)) 0 = Js.nan)
    /\ (history kpi = None -> historyLength kpi = 90%Z)
    /\ (history kpi = Some [] -> historyLength kpi = 90%Z).
Proof.
  intros Hr Hin. unfold openAnalysis.
  destruct (@generateMockKpiData_real_series random (id kpi)
              (historyLength kpi) Hr) as (vs & E & L).
  rewrite E.
  destruct (@performAiAnalysis_returns exact exact_Number (reals vs)
              (id kpi) rnd Hin) as (ds & Er).
  eexists. split; [exact Er|]. cbn [data trend forecast].
  pose proof (historyLength_pos kpi) as Hpos.
  split; [now exists vs|].
  split; [rewrite length_reals, L; lia|].
  split; [now rewrite length_values|].
  split; [|split; [|split]].
  - intros H7.
    assert (Hn : (7 <= List.length vs)%nat) by lia.
    rewrite detectTrend_reals by lia. cbn [line].
    unfold defaultPeriods.
    rewrite createForecast_reals by (rewrite ?length_fitted; lia).
    cbn [values]. split; eexists; reflexivity.
  - intros Hlt. apply first_forecast_nan. lia.
  - intros Hh. unfold historyLength. now rewrite Hh.
  - intros Hh. unfold historyLength. now rewrite Hh.
Qed.

Lemma openAnalysis_by_history_length_witness :
  exists r,
    openAnalysis (fun _ => Some (1 / 4)%R) [] (realKpi "sales" [1; 2; 3]%R)
    = Normal r
    /\ get (values (forecast r)) 0 = Js.nan.
Proof.
  destruct (@openAnalysis_by_history_length (fun _ => Some (1 / 4)%R) []
              (realKpi "sales" [1; 2; 3]%R))
    as (r & E & _ & _ & _ & _ & Hnan & _).
  - intros i. eexists. reflexivity.
  - unfold registered. cbn. tauto.
  - exists r. split; [exact E|]. apply Hnan. cbn. lia.
Defined.

(** ** The correlation shown by the component *)

Lemma sameId_sym (a b : option string) : sameId a b = sameId b a.
Proof.
  destruct a as [s|], b as [t|]; cbn; try reflexivity. apply String.eqb_sym.
Qed.

(** X20.  The coefficient the correlation component shows, in exact
    arithmetic, for two selected KPIs whose histories, when they have
    one, are real numbers: it is a real number between -1 and 1, the same
    when the two KPIs are swapped; it is 1 when the two have the same id
    (both missing counts as the same), whatever their histories; and it
    is 0 when the ids differ and one of the two has no history. *)
Theorem correlation_memo_properties (kpi1 kpi2 : option (Kpi exact)) :
  (forall h, historyOf kpi1 = Some h -> allReal h) ->
  (forall h, historyOf kpi2 = Some h -> allReal h) ->
  exists r : R,
    correlation kpi1 kpi2 = Some r
    /\ (-1 <= r <= 1)%R
    /\ correlation kpi2 kpi1 = Some r
    /\ (sameId (idOf kpi1) (idOf kpi2) = true -> r = 1%R)
    /\ (sameId (idOf kpi1) (idOf kpi2) = false ->
        historyOf kpi1 = None \/ historyOf kpi2 = None -> r = 0%R).
Proof.
  intros H1 H2. unfold correlation.
  rewrite (sameId_sym (idOf kpi2) (idOf kpi1)).
  destruct (sameId (idOf kpi1) (idOf kpi2)) eqn:Eid.
  - exists 1%R.
    assert (E : forall a b : option (list exact),
               match a, b with
               | Some _, Some _ => (ofZ 1 : exact)
               | _, _ => ofZ 1
               end = Some 1%R).
    { intros [a|] [b|]; reflexivity. }
    split; [apply E|]. split; [lra|]. split; [apply E|].
    split; [reflexivity | discriminate].
  - destruct (historyOf kpi1) as [h1|] eqn:E1.
    + destruct (historyOf kpi2) as [h2|] eqn:E2.
      * destruct (H1 h1 eq_refl) as [xs ->].
        destruct (H2 h2 eq_refl) as [ys ->].
        exists (pearson xs ys).
        split; [apply calculateCorrelation_reals|].
        split; [apply pearson_bounds|].
        split; [rewrite calculateCorrelation_reals; f_equal;
                apply pearson_sym|].
        split; [discriminate|]. intros _ [E|E]; discriminate.
      * exists 0%R. split; [reflexivity|]. split; [lra|].
        split; [reflexivity|]. split; [discriminate | reflexivity].
    + exists 0%R.
      split; [reflexivity|]. split; [lra|].
      split; [destruct (historyOf kpi2); reflexivity|].
      split; [discriminate | reflexivity].
Qed.

Lemma correlation_memo_properties_witness :
  exists r : R,
    correlation (Some (realKpi "revenue" [1; 2; 4]%R))
                (Some (realKpi "sales" [3; 1; 4; 1]%R)) = Some r
    /\ (-1 <= r <= 1)%R.
Proof.
  destruct (@correlation_memo_properties
              (Some (realKpi "revenue" [1; 2; 4]%R))
              (Some (realKpi "sales" [3; 1; 4; 1]%R)))
    as (r & E & B & _).
  - intros h Eh. injection Eh as <-. now exists [1; 2; 4]%R.
  - intros h Eh. injection Eh as <-. now exists [3; 1; 4; 1]%R.
  - exists r. split; assumption.
Defined.

(** ** The drivers follow the trend *)

Lemma In_firstn {A : Type} (n : nat) (l : list A) (x : A) :
  In x (firstn n l) -> In x l.
Proof.
  revert l. induction n as [|n IH]; intros l Hx; [contradiction|].
  destruct l as [|a l]; [contradiction|]. cbn [firstn] in Hx.
  destruct Hx as [<-|Hx]; [now left | right; now apply IH].
Qed.

Lemma identifyDrivers_in_pool (kpiId trendDescription : string)
  (rnd : list nat) (pool : list string) :
  driverPool kpiId trendDescription = Normal pool ->
  exists ds,
    identifyDrivers kpiId trendDescription rnd = Normal ds
    /\ (forall d, In d ds -> In d pool).
Proof.
  intros E. unfold identifyDrivers. rewrite E. cbn [bind].
  eexists. split; [reflexivity|]. intros d Hd.
  apply In_firstn in Hd.
  apply Permutation_in with (shuffle rnd pool); [|assumption].
  apply Permutation_sym, shuffle_Permutation.
Qed.

Lemma describe_is_a_label (s y0 : R) :
  In (describe (Some s) (Some y0))
     [strongGrowth; moderateGrowth; strongDecline; moderateDecline; stable].
Proof.
  rewrite describe_exact. cbn [In].
  destruct (Rlt_dec s (- y0 * (15 / 1000))); [tauto|].
  destruct (Rlt_dec s (- y0 * (5 / 1000))); [tauto|].
  destruct (Rlt_dec (y0 * (15 / 1000)) s); [tauto|].
  destruct (Rlt_dec (y0 * (5 / 1000)) s); tauto.
Qed.

(** X21.  In exact arithmetic, for a registered category and a series of
    at least two real numbers with a positive first value [y0], the
    drivers [performAiAnalysis] returns follow the fitted slope: both come
    from the positive pool of the category when the slope is above
    [0.005 * y0], both from its negative pool when the slope is below
    [-0.005 * y0], and from the two pools together otherwise. *)
Theorem drivers_follow_the_trend
  (ds : list R) (kpiId : string) (rnd : list nat) :
  (2 <= List.length ds)%nat -> (0 < at_ ds 0)%R -> In kpiId registered ->
  exists r pos neg,
    performAiAnalysis (reals ds) kpiId rnd = Normal r
    /\ lookup kpiId positiveDrivers = Some pos
    /\ lookup kpiId negativeDrivers = Some neg
    /\ List.length (drivers r) = 2%nat
    /\ ((at_ ds 0 * (5 / 1000) < olsSlope ds)%R ->
        forall d, In d (drivers r) -> In d pos)
    /\ ((olsSlope ds < - at_ ds 0 * (5 / 1000))%R ->
        forall d, In d (drivers r) -> In d neg)
    /\ ((- at_ ds 0 * (5 / 1000) <= olsSlope ds <= at_ ds 0 * (5 / 1000))%R ->
        forall d, In d (drivers r) -> In d (pos ++ neg)%list).
Proof.
  intros Hn Hy Hin. unfold performAiAnalysis.
  rewrite detectTrend_reals by assumption. cbn [line description].
  set (label := describe (Some (olsSlope ds)) (Some (at_ ds 0))).
  destruct (@driverPool_registered kpiId label Hin)
    as (pos & neg & Hpos & Hneg & Hpool & _).
  destruct (@identifyDrivers_in_pool kpiId label rnd _ Hpool)
    as (dl & Ed & Hsub).
  destruct (@identifyDrivers_two kpiId label rnd Hin) as (d1 & d2 & E2 & _).
  rewrite Ed. cbn [bind]. eexists. exists pos, neg.
  split; [reflexivity|]. cbn [drivers].
  split; [assumption|]. split; [assumption|].
  split; [rewrite Ed in E2; injection E2 as ->; reflexivity|].
  destruct (describe_bands (olsSlope ds) Hy) as (B1 & B2 & B3 & B4 & B5).
  split; [|split].
  - intros Hs d Hd. apply Hsub in Hd.
    destruct (Rlt_dec (at_ ds 0 * (15 / 1000)) (olsSlope ds)) as [Hst|Hmo].
    + fold label in B1. rewrite (B1 Hst) in Hd. exact Hd.
    + fold label in B2. rewrite B2 in Hd by lra. exact Hd.
  - intros Hs d Hd. apply Hsub in Hd.
    destruct (Rlt_dec (olsSlope ds) (- at_ ds 0 * (15 / 1000))) as [Hst|Hmo].
    + fold label in B3. rewrite (B3 Hst) in Hd. exact Hd.
    + fold label in B4. rewrite B4 in Hd by lra. exact Hd.
  - intros Hs d Hd. apply Hsub in Hd.
    fold label in B5. rewrite (B5 Hs) in Hd. exact Hd.
Qed.

Lemma drivers_follow_the_trend_witness :
  exists r pos neg,
    performAiAnalysis (reals (linearSeries 100 2 3)) "sales" [] = Normal r
    /\ lookup "sales" positiveDrivers = Some pos
    /\ lookup "sales" negativeDrivers = Some neg
    /\ (forall d, In d (drivers r) -> In d pos).
Proof.
  destruct (@drivers_follow_the_trend (linearSeries 100 2 3) "sales" [])
    as (r & pos & neg & E & Hp & Hn & _ & Hup & _).
  - simpl. lia.
  - cbn. lra.
  - unfold registered. cbn. tauto.
  - exists r, pos, neg. repeat split; try assumption.
    apply Hup. rewrite (olsSlope_linear 100 2 (n := 3)) by lia. cbn. lra.
Defined.
